(** * A graph-based workflow engine: model and verification

    Shallow embedding of the workflow engine (app/models.py,
    app/storage.py, app/registry.py, app/engine.py, app/workflows.py,
    app/main.py): the data model, the tool registry, conditional edge
    resolution, the bounded step loop of [run_graph_once], the default
    tools and the endpoints. *)

From stdpp Require Import base option list gmap strings fin_maps.
From Stdlib Require Import ZArith.

Local Open Scope string_scope.

(** ** Python values

    The run state is a [Dict[str, Any]].  Scalars are immutable.  A
    list that is built once and only read afterwards is handled by
    value ([VList]).  A list or dict that is shared and changed in place
    is an object on a heap, and a value of such a type is a reference
    to it ([VRef]): two mappings that hold the same reference share the
    object.  Numbers are ints. *)

Definition loc := positive.

#[warnings="-register-all"]
Inductive Value :=
| VNone
| VBool (b : bool)
| VInt (z : Z)
| VStr (s : string)
| VList (items : list Value)
| VRef (l : loc).

Abbreviation Dict := (gmap string Value).

Inductive Obj :=
| OList (items : list Value)
| ODict (entries : Dict).

(** The objects that code handed a state can reach, other than the state
    mapping itself: the objects nested in the state, and the objects of
    the process that Python code reaches through its builtins (a random
    generator, a module global). *)
Abbreviation Heap := (gmap loc Obj).

Definition is_nil {A : Type} (l : list A) : bool :=
  match l with
  | [] => true
  | _ => false
  end.

(** [bool(v)]: None, False, zero, the empty string and empty containers
    are falsy. *)
Definition py_bool (h : Heap) (v : Value) : bool :=
  match v with
  | VNone => false
  | VBool b => b
  | VInt z => negb (z =? 0)%Z
  | VStr s => negb (String.eqb s EmptyString)
  | VList items => negb (is_nil items)
  | VRef l =>
      match h !! l with
      | Some (OList items) => negb (is_nil items)
      | Some (ODict entries) => negb (is_nil (map_to_list entries))
      | None => true
      end
  end.

(** ** Mapping objects

    The [state] of a run and the [state_snapshot] of a log entry are
    dict objects: the record holds a reference, and two records that
    hold the same reference share the mapping.  [Dicts] is the store of
    these objects. *)
Abbreviation Dicts := (gmap loc Dict).

(** The bindings of the mapping at [l]. *)
Definition deref (ds : Dicts) (l : loc) : Dict := default ∅ (ds !! l).

(** A new mapping object with the bindings [d]. *)
Definition new_dict (d : Dict) (ds : Dicts) : loc * Dicts :=
  let l := fresh (dom ds) in (l, <[l := d]> ds).

(** [d.copy()] for the mapping at [l]: a new mapping with the same
    bindings.  The copy is shallow: a value that is a reference is
    copied as that reference. *)
Definition dict_copy (l : loc) (ds : Dicts) : loc * Dicts :=
  new_dict (deref ds l) ds.

(** [d.update(other)]: every binding of [other] is written into [d].
    [dict_update] gives the bindings of [d] afterwards, [update_at]
    writes them into the mapping at [l]. *)
Definition dict_update (d other : Dict) : Dict := other ∪ d.

Definition update_at (l : loc) (other : Dict) (ds : Dicts) : Dicts :=
  <[l := dict_update (deref ds l) other]> ds.

(** ** Exceptions

    [KeyError], [ValueError] and the other classes derived from
    [Exception] (by class name), and the classes derived from
    [BaseException] only, which [except Exception] does not catch. *)
Inductive PyExc :=
| KeyError (msg : string)
| ValueError (msg : string)
| OtherError (class_name : string)
| SystemExit
| KeyboardInterrupt
| GeneratorExit.

(** [isinstance(e, Exception)] *)
Definition is_Exception (e : PyExc) : bool :=
  match e with
  | KeyError _ | ValueError _ | OtherError _ => true
  | SystemExit | KeyboardInterrupt | GeneratorExit => false
  end.

Inductive Result (A : Type) :=
| Ok (a : A)
| Raise (e : PyExc).

Arguments Ok {A} a.
Arguments Raise {A} e.

(** ** Code that is handed the state

    A tool, and a guard expression under [eval], is handed the state
    mapping itself.  It can read it, rebind or delete its keys in place,
    and read or change the objects of the heap; then it returns or
    raises.  [Leaves st h a]: the call leaves the state mapping with the
    bindings [st] and the heap as [h], and ends as [a].  The records of
    the engine and the snapshots of the log are not handed to it. *)
Record Effect (A : Type) := Leaves {
  left_state : Dict;
  left_heap : Heap;
  outcome : A
}.

Arguments Leaves {A} left_state left_heap outcome.
Arguments left_state {A} _.
Arguments left_heap {A} _.
Arguments outcome {A} _.

(** ** app/models.py *)

Record NodeDefinition := {
  NodeDefinition_id : string;
  tool_name : string;
  config : Dict
}.

Record EdgeDefinition := {
  source : string;
  target : string;
  condition : option string
}.

Record GraphDefinition := {
  GraphDefinition_id : string;
  nodes : list NodeDefinition;
  edges : list EdgeDefinition;
  start_node_id : string
}.

Inductive RunStatus := PENDING | RUNNING | COMPLETED | FAILED.

(** [S] is the snapshot as the entry holds it: a reference to a mapping
    object in the entries of a run, the mapping written out in the
    entries of a response. *)
Record RunLogEntry (S : Type) := {
  node_id : string;
  state_snapshot : S;
  message : option string
}.

Arguments node_id {S} _.
Arguments state_snapshot {S} _.
Arguments message {S} _.

Record RunState := {
  run_id : string;
  graph_id : string;
  status : RunStatus;
  current_node_id : option string;
  state : loc;
  logs : list (RunLogEntry loc)
}.

(** Attribute assignments on a [RunState]. *)
Definition set_status (s : RunStatus) (r : RunState) : RunState :=
  {| run_id := run_id r; graph_id := graph_id r; status := s;
     current_node_id := current_node_id r; state := state r; logs := logs r |}.

Definition set_current_node_id (c : option string) (r : RunState) : RunState :=
  {| run_id := run_id r; graph_id := graph_id r; status := status r;
     current_node_id := c; state := state r; logs := logs r |}.

(** [run_state.logs.append(entry)] *)
Definition logs_append (entry : RunLogEntry loc) (r : RunState) : RunState :=
  {| run_id := run_id r; graph_id := graph_id r; status := status r;
     current_node_id := current_node_id r; state := state r;
     logs := logs r ++ [entry] |}.

(** ** app/storage.py and the world a run executes in

    The two module-level stores, the mapping objects the run records and
    their log entries refer to, and the heap. *)
Record World := {
  graphs : gmap string GraphDefinition;
  runs : gmap string RunState;
  dicts : Dicts;
  heap : Heap
}.

(** ** app/registry.py

    A tool is a callable on the state mapping.  It returns a dict,
    returns something that is not a dict, or raises. *)
Inductive ToolReturn :=
| ReturnsDict (d : Dict)
| ReturnsNonDict.

Abbreviation ToolType := (Dict → Heap → Effect (Result ToolReturn)).

Abbreviation ToolRegistry := (gmap string ToolType).

Module ToolRegistry.

Definition register (name : string) (func : ToolType)
    (tools : ToolRegistry) : ToolRegistry :=
  <[name := func]> tools.

Definition get (tools : ToolRegistry) (name : string) : Result ToolType :=
  match tools !! name with
  | None => Raise (KeyError ("Tool '" ++ name ++ "' not found in registry"))
  | Some func => Ok func
  end.

(** Synchronous and asynchronous tools are awaited to the same result. *)
Definition run_tool (tools : ToolRegistry) (name : string)
    (st : Dict) (h : Heap) : Effect (Result Dict) :=
  match get tools name with
  | Raise e => Leaves st h (Raise e)
  | Ok func =>
      let called := func st h in
      match outcome called with
      | Raise e => Leaves (left_state called) (left_heap called) (Raise e)
      | Ok (ReturnsDict result) =>
          Leaves (left_state called) (left_heap called) (Ok result)
      | Ok ReturnsNonDict =>
          Leaves (left_state called) (left_heap called)
            (Raise (ValueError "Tool must return a dict to merge into state"))
      end
  end.

End ToolRegistry.

(** ** app/engine.py *)

Section Engine.

(** [eval(condition, {}, {"state": state})]: what evaluating a guard
    expression on the state mapping does.  The expression is arbitrary
    Python with the builtins at hand. *)
Variable py_eval : string → Dict → Heap → Effect (Result Value).

(** The loop of [_find_next_edge] over the candidate edges.  Each guard
    is evaluated on the state as the guards before it left it.  An
    [Exception] is caught and the loop continues; any other exception
    leaves the function. *)
Fixpoint first_passing (candidates : list EdgeDefinition)
    (st : Dict) (h : Heap) : Effect (Result (option EdgeDefinition)) :=
  match candidates with
  | [] => Leaves st h (Ok None)
  | edge :: rest =>
      match condition edge with
      | None => Leaves st h (Ok (Some edge))
      | Some cond =>
          let evaluated := py_eval cond st h in
          match outcome evaluated with
          | Ok v =>
              if py_bool (left_heap evaluated) v
              then Leaves (left_state evaluated) (left_heap evaluated)
                     (Ok (Some edge))
              else first_passing rest (left_state evaluated)
                     (left_heap evaluated)
          | Raise e =>
              if is_Exception e
              then first_passing rest (left_state evaluated)
                     (left_heap evaluated)
              else Leaves (left_state evaluated) (left_heap evaluated)
                     (Raise e)
          end
      end
  end.

Definition _find_next_edge (graph : GraphDefinition)
    (current : string) (st : Dict) (h : Heap)
    : Effect (Result (option EdgeDefinition)) :=
  let candidates := filter (λ e, source e = current) (edges graph) in
  match candidates with
  | [] => Leaves st h (Ok None)
  | _ => first_passing candidates st h
  end.

(** The local variables of the step loop, [current_node_id] and the
    [run_state] object, with the mapping objects and the heap. *)
Record Frame := {
  f_current : string;
  f_run_state : RunState;
  f_dicts : Dicts;
  f_heap : Heap
}.

(** How one pass through the loop body ends. *)
Inductive Flow :=
| Continue (c : Frame)
| Break (c : Frame)
| Throw (e : PyExc) (c : Frame).

(** [next(n for n in graph.nodes if n.id == current_node_id)] *)
Definition find_node (graph : GraphDefinition) (current : string)
    : option NodeDefinition :=
  List.find (λ n, String.eqb (NodeDefinition_id n) current) (nodes graph).

Definition node_not_found_message (current : string) : string :=
  "Node '" ++ current ++ "' not found in graph".

Definition executed_message (tool : string) : string :=
  "Executed tool '" ++ tool ++ "'".

Definition max_steps_message : string :=
  "Max steps reached; aborting (possible infinite loop)".

Section Loop.

Variable graph : GraphDefinition.
Variable registry : ToolRegistry.

(** The body of [for _ in range(max_steps)].  The tool and the guards
    work on the mapping [run_state.state] itself: what they leave is
    what that mapping holds afterwards. *)
Definition loop_body (c : Frame) : Flow :=
  let current := f_current c in
  let run_state := f_run_state c in
  match find_node graph current with
  | None =>
      let run_state := set_status FAILED run_state in
      let '(snapshot, dicts) := dict_copy (state run_state) (f_dicts c) in
      let run_state :=
        logs_append
          {| node_id := current;
             state_snapshot := snapshot;
             message := Some (node_not_found_message current) |}
          run_state in
      Break {| f_current := current; f_run_state := run_state;
               f_dicts := dicts; f_heap := f_heap c |}
  | Some node =>
      let called :=
        ToolRegistry.run_tool registry (tool_name node)
          (deref (f_dicts c) (state run_state)) (f_heap c) in
      let dicts := <[state run_state := left_state called]> (f_dicts c) in
      match outcome called with
      | Raise e =>
          Throw e {| f_current := current; f_run_state := run_state;
                     f_dicts := dicts; f_heap := left_heap called |}
      | Ok tool_result =>
          let dicts := update_at (state run_state) tool_result dicts in
          let '(snapshot, dicts) := dict_copy (state run_state) dicts in
          let run_state :=
            logs_append
              {| node_id := NodeDefinition_id node;
                 state_snapshot := snapshot;
                 message := Some (executed_message (tool_name node)) |}
              run_state in
          let resolved :=
            _find_next_edge graph current (deref dicts (state run_state))
              (left_heap called) in
          let dicts := <[state run_state := left_state resolved]> dicts in
          match outcome resolved with
          | Raise e =>
              Throw e {| f_current := current; f_run_state := run_state;
                         f_dicts := dicts; f_heap := left_heap resolved |}
          | Ok None =>
              let run_state := set_status COMPLETED run_state in
              let run_state := set_current_node_id None run_state in
              Break {| f_current := current; f_run_state := run_state;
                       f_dicts := dicts; f_heap := left_heap resolved |}
          | Ok (Some next_edge) =>
              let current := target next_edge in
              let run_state := set_current_node_id (Some current) run_state in
              Continue {| f_current := current; f_run_state := run_state;
                          f_dicts := dicts; f_heap := left_heap resolved |}
          end
      end
  end.

(** The [else] clause of the loop: the range was exhausted. *)
Definition loop_else (c : Frame) : Frame :=
  let run_state := set_status FAILED (f_run_state c) in
  let '(snapshot, dicts) := dict_copy (state run_state) (f_dicts c) in
  let run_state :=
    logs_append
      {| node_id := f_current c;
         state_snapshot := snapshot;
         message := Some max_steps_message |}
      run_state in
  {| f_current := f_current c; f_run_state := run_state;
     f_dicts := dicts; f_heap := f_heap c |}.

(** How the whole [for ... else] statement ends. *)
Inductive LoopEnd :=
| Finished (c : Frame)
| Raised (e : PyExc) (c : Frame).

Fixpoint for_range (n : nat) (c : Frame) : LoopEnd :=
  match n with
  | O => Finished (loop_else c)
  | S n' =>
      match loop_body c with
      | Continue c' => for_range n' c'
      | Break c' => Finished c'
      | Throw e c' => Raised e c'
      end
  end.

End Loop.

(** [run_graph_once].  [uuid] is the value drawn by [uuid4()].  The
    caller's [initial_state] is read once, by [initial_state.copy()];
    the run works on the new mapping.  The object built at the start is
    stored under [runs[run_id]] and then mutated in place, so at every
    later point the store holds the current contents of [run_state]
    under that key. *)
Definition run_graph_once (graph_id : string) (initial_state : Dict)
    (registry : ToolRegistry) (max_steps : Z) (uuid : string) (w : World)
    : World * Result RunState :=
  match graphs w !! graph_id with
  | None => (w, Raise (KeyError ("Graph '" ++ graph_id ++ "' not found")))
  | Some graph =>
      let run_id := uuid in
      let '(state0, dicts0) := new_dict initial_state (dicts w) in
      let run_state :=
        {| run_id := run_id; graph_id := graph_id; status := RUNNING;
           current_node_id := Some (start_node_id graph);
           state := state0; logs := [] |} in
      let runs1 := <[run_id := run_state]> (runs w) in
      let c0 := {| f_current := start_node_id graph;
                   f_run_state := run_state;
                   f_dicts := dicts0; f_heap := heap w |} in
      match for_range graph registry (Z.to_nat max_steps) c0 with
      | Raised e c =>
          ({| graphs := graphs w;
              runs := <[run_id := f_run_state c]> runs1;
              dicts := f_dicts c;
              heap := f_heap c |}, Raise e)
      | Finished c =>
          ({| graphs := graphs w;
              runs := <[run_id := f_run_state c]> runs1;
              dicts := f_dicts c;
              heap := f_heap c |}, Ok (f_run_state c))
      end
  end.

End Engine.

(** ** Reading the model *)

Local Open Scope list_scope.

(** The bindings of the run state in a frame. *)
Definition frame_state (c : Frame) : Dict :=
  deref (f_dicts c) (state (f_run_state c)).

(** An entry as a response shows it: the snapshot written out. *)
Definition written_out (ds : Dicts) (entry : RunLogEntry loc)
    : RunLogEntry Dict :=
  {| node_id := node_id entry;
     state_snapshot := deref ds (state_snapshot entry);
     message := message entry |}.

Section Guards.

Variable py_eval : string → Dict → Heap → Effect (Result Value).

(** [guard_raises st h e exc st' h']: the edge has a guard, and
    evaluating it on the state [st] in the heap [h] raises [exc],
    leaving the state as [st'] and the heap as [h']. *)
Definition guard_raises (st : Dict) (h : Heap) (e : EdgeDefinition)
    (exc : PyExc) (st' : Dict) (h' : Heap) : Prop :=
  ∃ cond, condition e = Some cond ∧
          py_eval cond st h = Leaves st' h' (Raise exc).

(** [edge_taken st h e st' h']: tried on [st] in [h], the edge is
    eligible: it has no guard, or its guard evaluates, without raising,
    to a truthy value; trying it leaves [st'] and [h']. *)
Definition edge_taken (st : Dict) (h : Heap) (e : EdgeDefinition)
    (st' : Dict) (h' : Heap) : Prop :=
  match condition e with
  | None => st' = st ∧ h' = h
  | Some cond =>
      ∃ v, py_eval cond st h = Leaves st' h' (Ok v) ∧ py_bool h' v = true
  end.

Definition edge_eligible (st : Dict) (h : Heap) (e : EdgeDefinition)
    : Prop :=
  ∃ st' h', edge_taken st h e st' h'.

(** [edge_passed st h e st' h']: tried on [st] in [h], the edge is
    passed over: its guard evaluates to a falsy value, or raises an
    [Exception]; trying it leaves [st'] and [h']. *)
Definition edge_passed (st : Dict) (h : Heap) (e : EdgeDefinition)
    (st' : Dict) (h' : Heap) : Prop :=
  (∃ cond v, condition e = Some cond ∧
             py_eval cond st h = Leaves st' h' (Ok v) ∧
             py_bool h' v = false)
  ∨ (∃ exc, guard_raises st h e exc st' h' ∧ is_Exception exc = true).

(** [edge_escapes st h e exc st' h']: the guard of the edge raises an
    exception that is not an [Exception]. *)
Definition edge_escapes (st : Dict) (h : Heap) (e : EdgeDefinition)
    (exc : PyExc) (st' : Dict) (h' : Heap) : Prop :=
  guard_raises st h e exc st' h' ∧ is_Exception exc = false.

(** [passed_over es st h st' h']: the edges [es], tried one after the
    other from [st] and [h], each on what the one before left, are all
    passed over, and this leaves [st'] and [h']. *)
Inductive passed_over
    : list EdgeDefinition → Dict → Heap → Dict → Heap → Prop :=
| passed_over_nil st h : passed_over [] st h st h
| passed_over_cons e es st h st1 h1 st' h' :
    edge_passed st h e st1 h1 →
    passed_over es st1 h1 st' h' →
    passed_over (e :: es) st h st' h'.

(** The guards of these edges only read: evaluating one leaves the
    state and the heap as it found them. *)
Definition guards_read_only (es : list EdgeDefinition) : Prop :=
  ∀ e cond, e ∈ es → condition e = Some cond →
            ∀ st h, left_state (py_eval cond st h) = st ∧
                    left_heap (py_eval cond st h) = h.

(** The guards of these edges have no effect outside the state they are
    handed: evaluating one leaves the heap as it found it. *)
Definition pure_guards (es : list EdgeDefinition) : Prop :=
  ∀ e cond, e ∈ es → condition e = Some cond →
            ∀ st h, left_heap (py_eval cond st h) = h.

(** The guards of these edges unbind no key of the state. *)
Definition guards_keep_keys (es : list EdgeDefinition) : Prop :=
  ∀ e cond, e ∈ es → condition e = Some cond →
            ∀ st h key, is_Some (st !! key) →
                        is_Some (left_state (py_eval cond st h) !! key).

End Guards.

Definition with_edges (graph : GraphDefinition) (es : list EdgeDefinition)
    : GraphDefinition :=
  {| GraphDefinition_id := GraphDefinition_id graph; nodes := nodes graph;
     edges := es; start_node_id := start_node_id graph |}.

(** The candidates of a node: its outgoing edges, in declared order. *)
Definition candidates_of (graph : GraphDefinition) (current : string)
    : list EdgeDefinition :=
  filter (λ e, source e = current) (edges graph).

(** The frame the loop is entered with: the run state is a new mapping
    with the bindings of the initial state. *)
Definition start_frame (graph : GraphDefinition) (graph_id : string)
    (initial_state : Dict) (uuid : string) (w : World) : Frame :=
  {| f_current := start_node_id graph;
     f_run_state :=
       {| run_id := uuid; graph_id := graph_id; status := RUNNING;
          current_node_id := Some (start_node_id graph);
          state := (new_dict initial_state (dicts w)).1; logs := [] |};
     f_dicts := (new_dict initial_state (dicts w)).2;
     f_heap := heap w |}.

(** The frame after [k] passes through the loop body that each ended by
    following an edge; none if one of them broke out or raised. *)
Fixpoint passes (py_eval : string → Dict → Heap → Effect (Result Value))
    (graph : GraphDefinition) (registry : ToolRegistry)
    (k : nat) (c : Frame) : option Frame :=
  match k with
  | O => Some c
  | S k' =>
      match loop_body py_eval graph registry c with
      | Continue c' => passes py_eval graph registry k' c'
      | _ => None
      end
  end.

(** The three kinds of log entry: after the tool of [node] ran and its
    result was merged, for a node that is missing, and for the abort at
    the step limit. *)
Definition executed_entry {S : Type} (node : NodeDefinition) (snapshot : S)
    : RunLogEntry S :=
  {| node_id := NodeDefinition_id node; state_snapshot := snapshot;
     message := Some (executed_message (tool_name node)) |}.

Definition missing_entry {S : Type} (current : string) (snapshot : S)
    : RunLogEntry S :=
  {| node_id := current; state_snapshot := snapshot;
     message := Some (node_not_found_message current) |}.

Definition abort_entry {S : Type} (current : string) (snapshot : S)
    : RunLogEntry S :=
  {| node_id := current; state_snapshot := snapshot;
     message := Some max_steps_message |}.

(** While the loop is running the record is RUNNING and its current
    node id is the loop's own [current_node_id]. *)
Definition running (c : Frame) : Prop :=
  status (f_run_state c) = RUNNING ∧
  current_node_id (f_run_state c) = Some (f_current c).

(** A log entry written after a tool ran. *)
Definition is_executed_entry {S : Type} (entry : RunLogEntry S) : Prop :=
  ∃ tool, message entry = Some (executed_message tool).

(** The mapping objects of a frame are in order: the state and the
    snapshots of the log are in the store, and no snapshot is the state
    mapping itself. *)
Definition frame_wf (c : Frame) : Prop :=
  state (f_run_state c) ∈ dom (f_dicts c) ∧
  ∀ entry, entry ∈ logs (f_run_state c) →
           state_snapshot entry ∈ dom (f_dicts c) ∧
           state_snapshot entry ≠ state (f_run_state c).

(** Where a pass, or a loop, ended, whichever way. *)
Definition flow_frame (f : Flow) : Frame :=
  match f with
  | Continue c => c
  | Break c => c
  | Throw _ c => c
  end.

Definition end_frame (f : LoopEnd) : Frame :=
  match f with
  | Finished c => c
  | Raised _ c => c
  end.

(** Two results of [run_graph_once] that a caller cannot tell apart by
    the sequence of logged node ids and the bindings of the final
    state. *)
Definition same_outcome (r1 r2 : World * Result RunState) : Prop :=
  match r1.2, r2.2 with
  | Ok rs1, Ok rs2 =>
      node_id <$> logs rs1 = node_id <$> logs rs2 ∧
      deref (dicts r1.1) (state rs1) = deref (dicts r2.1) (state rs2)
  | Raise e1, Raise e2 => e1 = e2
  | _, _ => False
  end.

(** The ways a tool invocation through the registry raises, and what it
    leaves. *)
Inductive tool_invocation_raises (registry : ToolRegistry) (name : string)
    (st : Dict) (h : Heap) : PyExc → Dict → Heap → Prop :=
| raises_unregistered :
    registry !! name = None →
    tool_invocation_raises registry name st h
      (KeyError ("Tool '" ++ name ++ "' not found in registry")%string) st h
| raises_non_dict func st' h' :
    registry !! name = Some func →
    func st h = Leaves st' h' (Ok ReturnsNonDict) →
    tool_invocation_raises registry name st h
      (ValueError "Tool must return a dict to merge into state") st' h'
| raises_in_tool func st' h' e :
    registry !! name = Some func →
    func st h = Leaves st' h' (Raise e) →
    tool_invocation_raises registry name st h e st' h'.


(** The tools unbind no key of the state. *)
Definition tools_keep_keys (registry : ToolRegistry) : Prop :=
  ∀ name func, registry !! name = Some func →
               ∀ st h key, is_Some (st !! key) →
                           is_Some (left_state (func st h) !! key).

(** What a reader of a mapping sees under a key: the value itself, or
    the present contents of the object the value refers to. *)
Inductive Shown :=
| ShownValue (v : Value)
| ShownList (items : list Value)
| ShownDict (entries : Dict)
| ShownDangling.

Definition show_value (h : Heap) (v : Value) : Shown :=
  match v with
  | VRef l =>
      match h !! l with
      | Some (OList items) => ShownList items
      | Some (ODict entries) => ShownDict entries
      | None => ShownDangling
      end
  | _ => ShownValue v
  end.

(** What the snapshot of an entry shows in a frame. *)
Definition shown_snapshot (c : Frame) (entry : RunLogEntry loc)
    : gmap string Shown :=
  show_value (f_heap c) <$> deref (f_dicts c) (state_snapshot entry).

(** ** Example guards, tools and graphs *)

Module Examples.

(** An operand of a numeric comparison; [bool] is a subtype of [int],
    anything else makes the comparison raise a [TypeError]. *)
Definition as_int (v : Value) : option Z :=
  match v with
  | VInt z => Some z
  | VBool b => Some (if b then 1 else 0)%Z
  | _ => None
  end.

(** [state[key] OP 0]: a subscript of a missing key raises a
    [KeyError], an operand that is not a number a [TypeError]. *)
Definition subscript_compare (key : string) (test : Z → bool)
    (st : Dict) (h : Heap) : Effect (Result Value) :=
  match st !! key with
  | None => Leaves st h (Raise (KeyError ("'" ++ key ++ "'")))
  | Some v =>
      match as_int v with
      | Some n => Leaves st h (Ok (VBool (test n)))
      | None => Leaves st h (Raise (OtherError "TypeError"))
      end
  end.

(** The random generator of the process, as far as the examples go: the
    list of its draws to come, in thousandths. *)
Definition random_generator : loc := 2%positive.

(** What [eval] does with the guard expressions of the example graphs.
    [sys.exit()] raises [SystemExit]; [random.random()] takes the next
    draw from the generator; [state.pop('flag', False)] unbinds the key
    and yields what it was bound to.  An expression that is not one of
    these is taken to raise a [NameError]. *)
Definition example_eval (cond : string) (st : Dict) (h : Heap)
    : Effect (Result Value) :=
  if String.eqb cond "state['counter'] >= 0" then
    subscript_compare "counter" (λ n, 0 <=? n)%Z st h
  else if String.eqb cond "state['missing'] > 0" then
    subscript_compare "missing" (λ n, 0 <? n)%Z st h
  else if String.eqb cond "__import__('sys').exit()" then
    Leaves st h (Raise SystemExit)
  else if String.eqb cond "__import__('random').random() < 0.5" then
    match h !! random_generator with
    | Some (OList (VInt draw :: rest)) =>
        Leaves st (<[random_generator := OList rest]> h)
          (Ok (VBool (draw <? 500)%Z))
    | _ => Leaves st h (Ok (VBool false))
    end
  else if String.eqb cond "state.pop('flag', False)" then
    Leaves (delete "flag" st) h (Ok (default (VBool false) (st !! "flag")))
  else Leaves st h (Raise (OtherError "NameError")).

(** [return {"counter": state.get("counter", 0) + 1}] *)
Definition tool_increment : ToolType := λ st h,
  match as_int (default (VInt 0) (st !! "counter")) with
  | Some n => Leaves st h (Ok (ReturnsDict {[ "counter" := VInt (n + 1) ]}))
  | None => Leaves st h (Raise (OtherError "TypeError"))
  end.

(** [return {}] *)
Definition tool_noop : ToolType := λ st h, Leaves st h (Ok (ReturnsDict ∅)).

(** [return {"x": 1}] *)
Definition tool_set_x : ToolType := λ st h,
  Leaves st h (Ok (ReturnsDict {[ "x" := VInt 1 ]})).

(** [state.pop("y", None); return {}]: the key is unbound in the state
    mapping itself. *)
Definition tool_pop_y : ToolType := λ st h,
  Leaves (delete "y" st) h (Ok (ReturnsDict ∅)).

(** [state["items"].append(1); return {}]: the nested list, an object
    on the heap, is changed in place and nothing is returned for
    merging.  On a state without such a list object the call is taken
    to raise. *)
Definition tool_append_item : ToolType := λ st h,
  match st !! "items" with
  | Some (VRef l) =>
      match h !! l with
      | Some (OList items) =>
          Leaves st (<[l := OList (items ++ [VInt 1])]> h)
            (Ok (ReturnsDict ∅))
      | _ => Leaves st h (Raise (OtherError "AttributeError"))
      end
  | Some _ => Leaves st h (Raise (OtherError "AttributeError"))
  | None => Leaves st h (Raise (KeyError "'items'"))
  end.

(** [return None] *)
Definition tool_returns_none : ToolType := λ st h,
  Leaves st h (Ok ReturnsNonDict).

(** [raise RuntimeError("boom")] *)
Definition tool_boom : ToolType := λ st h,
  Leaves st h (Raise (OtherError "RuntimeError")).

Definition node (id tool : string) : NodeDefinition :=
  {| NodeDefinition_id := id; tool_name := tool; config := ∅ |}.

Definition edge (src tgt : string) (cond : option string) : EdgeDefinition :=
  {| source := src; target := tgt; condition := cond |}.

(** One node looping on itself under a guard on a counter that the tool
    increments at every call. *)
Definition self_loop_graph : GraphDefinition :=
  {| GraphDefinition_id := "self_loop";
     nodes := [node "loop" "increment"];
     edges := [edge "loop" "loop" (Some "state['counter'] >= 0")];
     start_node_id := "loop" |}.

(** A -> B -> C without guards. *)
Definition linear_graph : GraphDefinition :=
  {| GraphDefinition_id := "linear";
     nodes := [node "A" "noop"; node "B" "set_x"; node "C" "noop"];
     edges := [edge "A" "B" None; edge "B" "C" None];
     start_node_id := "A" |}.

(** An edge that leads to a node the graph does not declare. *)
Definition dangling_graph : GraphDefinition :=
  {| GraphDefinition_id := "dangling";
     nodes := [node "A" "noop"];
     edges := [edge "A" "ghost" None];
     start_node_id := "A" |}.

(** The first guard of A raises a [KeyError]; the second edge has no
    guard. *)
Definition faulty_guard_graph : GraphDefinition :=
  {| GraphDefinition_id := "faulty_guard";
     nodes := [node "A" "noop"; node "B" "noop"; node "C" "noop"];
     edges := [edge "A" "B" (Some "state['missing'] > 0"); edge "A" "C" None];
     start_node_id := "A" |}.

(** The first guard of A raises [SystemExit]; the second edge has no
    guard. *)
Definition exiting_guard_graph : GraphDefinition :=
  {| GraphDefinition_id := "exiting_guard";
     nodes := [node "A" "noop"; node "B" "noop"; node "C" "noop"];
     edges := [edge "A" "B" (Some "__import__('sys').exit()");
               edge "A" "C" None];
     start_node_id := "A" |}.

(** The edge from A to B is followed when the random draw is below one
    half. *)
Definition coin_graph : GraphDefinition :=
  {| GraphDefinition_id := "coin";
     nodes := [node "A" "noop"; node "B" "noop"];
     edges := [edge "A" "B" (Some "__import__('random').random() < 0.5")];
     start_node_id := "A" |}.

(** The guard of the only edge unbinds [flag] in the state. *)
Definition flag_graph : GraphDefinition :=
  {| GraphDefinition_id := "flag";
     nodes := [node "A" "noop"; node "B" "noop"];
     edges := [edge "A" "B" (Some "state.pop('flag', False)")];
     start_node_id := "A" |}.

(** An edge without a guard declared ahead of an edge whose guard
    holds. *)
Definition default_first_graph : GraphDefinition :=
  {| GraphDefinition_id := "default_first";
     nodes := [node "A" "increment"; node "B" "noop"; node "C" "noop"];
     edges := [edge "A" "B" None;
               edge "A" "C" (Some "state['counter'] >= 0")];
     start_node_id := "A" |}.

(** The second node runs a tool with the given name. *)
Definition second_tool_graph (tool : string) : GraphDefinition :=
  {| GraphDefinition_id := "second_tool";
     nodes := [node "A" "set_x"; node "B" tool];
     edges := [edge "A" "B" None];
     start_node_id := "A" |}.

(** A node that appends to a list nested in the state, looping on
    itself without a guard. *)
Definition append_graph : GraphDefinition :=
  {| GraphDefinition_id := "append";
     nodes := [node "grow" "append_item"];
     edges := [edge "grow" "grow" None];
     start_node_id := "grow" |}.

Definition example_graphs : gmap string GraphDefinition :=
  <["self_loop" := self_loop_graph]>
    (<["linear" := linear_graph]>
      (<["dangling" := dangling_graph]>
        (<["faulty_guard" := faulty_guard_graph]>
          (<["exiting_guard" := exiting_guard_graph]>
            (<["coin" := coin_graph]>
              (<["flag" := flag_graph]>
                (<["raising" := second_tool_graph "boom"]>
                  (<["unregistered" := second_tool_graph "nowhere"]>
                    (<["non_dict" := second_tool_graph "returns_none"]>
                      (<["append" := append_graph]> ∅)))))))))).

Definition example_world : World :=
  {| graphs := example_graphs; runs := ∅; dicts := ∅; heap := ∅ |}.


(** A frame at node B of [linear_graph] with state [{x:0, y:2}]. *)
Definition frame_at_B : Frame :=
  {| f_current := "B";
     f_run_state :=
       {| run_id := "run-1"; graph_id := "linear"; status := RUNNING;
          current_node_id := Some "B";
          state := 1%positive;
          logs := [] |};
     f_dicts := {[ 1%positive := {[ "x" := VInt 0; "y" := VInt 2 ]} ]};
     f_heap := ∅ |}.

(** [return {"draw": random.random() < 0.5}]: the tool takes the next
    draw from the random generator. *)
Definition tool_draw : ToolType := λ st h,
  match h !! random_generator with
  | Some (OList (VInt draw :: rest)) =>
      Leaves st (<[random_generator := OList rest]> h)
        (Ok (ReturnsDict {[ "draw" := VBool (draw <? 500)%Z ]}))
  | _ => Leaves st h (Ok (ReturnsDict {[ "draw" := VBool false ]}))
  end.

(** One node that draws, and no edge; the registry of its tool; a world
    that holds this graph and a generator whose next two draws are 0.25
    and 0.75. *)
Definition draw_graph : GraphDefinition :=
  {| GraphDefinition_id := "draw";
     nodes := [node "A" "draw"];
     edges := [];
     start_node_id := "A" |}.

Definition draw_registry : ToolRegistry :=
  ToolRegistry.register "draw" tool_draw ∅.

Definition draw_world : World :=
  {| graphs := {[ "draw" := draw_graph ]}; runs := ∅; dicts := ∅;
     heap := {[ random_generator := OList [VInt 250; VInt 750] ]} |}.

(** A state whose key [items] refers to a list object, and the heap
    holding that list, empty. *)
Definition items_state : Dict := {[ "items" := VRef 1%positive ]}.
Definition items_heap : Heap := {[ 1%positive := OList [] ]}.

Definition append_world : World :=
  {| graphs := example_graphs; runs := ∅; dicts := ∅; heap := items_heap |}.

End Examples.

(** [tool_suggest_improvements] of app/workflows.py needs [==] on
    values: comparing with an int never raises. *)
Definition equals_zero (v : Value) : bool :=
  match v with
  | VInt z => (z =? 0)%Z
  | VBool b => negb b
  | _ => false
  end.

(** ** app/workflows.py *)

Module Workflows.

(** [sub in s] for strings. *)
Fixpoint str_contains (sub s : string) : bool :=
  match s with
  | EmptyString => String.prefix sub s
  | String _ rest => String.prefix sub s || str_contains sub rest
  end.

(** [s.count(sub)] for a non-empty [sub]: the occurrences found from
    left to right, each search resuming after the previous occurrence.
    [skip] is the number of characters still covered by the last
    occurrence. *)
Fixpoint str_count_from (sub s : string) (skip : nat) : nat :=
  match s with
  | EmptyString => 0
  | String _ rest =>
      match skip with
      | S skip' => str_count_from sub rest skip'
      | O =>
          if String.prefix sub s
          then S (str_count_from sub rest (String.length sub - 1))
          else str_count_from sub rest 0
      end
  end.

Definition str_count (sub s : string) : nat := str_count_from sub s 0.

(** [s.endswith(suffix)] *)
Definition str_endswith (suffix s : string) : bool :=
  (String.length suffix <=? String.length s)%nat
  && String.eqb
       (String.substring (String.length s - String.length suffix)
          (String.length suffix) s)
       suffix.

(** [items.count(sub)] for a list: the elements equal to the string. *)
Definition list_count (sub : string) (items : list Value) : nat :=
  length (List.filter
            (λ v, match v with VStr s => String.eqb s sub | _ => false end)
            items).

(** [code.count(sub)]: strings and lists have a [count]; other values
    raise an [AttributeError]. *)
Definition py_count (h : Heap) (code : Value) (sub : string) : option Z :=
  match code with
  | VStr s => Some (Z.of_nat (str_count sub s))
  | VList items => Some (Z.of_nat (list_count sub items))
  | VRef l =>
      match h !! l with
      | Some (OList items) => Some (Z.of_nat (list_count sub items))
      | _ => None
      end
  | _ => None
  end.

(** The tab character, [chr(9)]. *)
Definition tab : string := String (Ascii.ascii_of_nat 9) EmptyString.

Section Tools.

(** [re.findall(pattern, text)] for a pattern with one group: the
    group's text of each match. *)
Variable re_findall : string → string → list string.

(** The four tools read the state with [state.get] and write nothing:
    they leave the state and the heap as they found them. *)
Definition tool_extract_functions : ToolType := λ st h,
  match default (VStr EmptyString) (st !! "code") with
  | VStr code =>
      let functions := re_findall "def\s+(\w+)\s*\(" code in
      Leaves st h
        (Ok (ReturnsDict
               {[ "functions" := VList (VStr <$> functions);
                  "function_count" := VInt (Z.of_nat (length functions)) ]}))
  | _ => Leaves st h (Raise (OtherError "TypeError"))
  end.

Definition tool_check_complexity : ToolType := λ st h,
  let code := default (VStr EmptyString) (st !! "code") in
  match py_count h code "if ", py_count h code "for ",
        py_count h code "while " with
  | Some ifs, Some fors, Some whiles =>
      let complexity := (ifs + fors + whiles)%Z in
      Leaves st h (Ok (ReturnsDict {[ "complexity_score" := VInt complexity ]}))
  | _, _, _ => Leaves st h (Raise (OtherError "AttributeError"))
  end.

(** The issues found in a string, in the order the checks are made. *)
Definition basic_issues (code : string) : list string :=
  (if str_contains tab code
   then ["Contains tab characters; prefer spaces."] else [])
  ++ (if str_endswith " " code
      then ["File ends with trailing whitespace."] else [])
  ++ (if str_contains "print(" code && negb (str_contains "logging" code)
      then ["Uses print statements; consider using logging."] else []).

(** On a list or a dict the membership test passes and [endswith]
    raises an [AttributeError]; on other values that are not strings
    the membership test raises a [TypeError]. *)
Definition tool_detect_basic_issues : ToolType := λ st h,
  match default (VStr EmptyString) (st !! "code") with
  | VStr code =>
      let issues := basic_issues code in
      Leaves st h
        (Ok (ReturnsDict
               {[ "issues" := VList (VStr <$> issues);
                  "issue_count" := VInt (Z.of_nat (length issues)) ]}))
  | VList _ | VRef _ => Leaves st h (Raise (OtherError "AttributeError"))
  | _ => Leaves st h (Raise (OtherError "TypeError"))
  end.

(** Comparing a value that is not a number with an int raises a
    [TypeError]. *)
Definition tool_suggest_improvements : ToolType := λ st h,
  let complexity := default (VInt 0) (st !! "complexity_score") in
  let issue_count := default (VInt 0) (st !! "issue_count") in
  let function_count := default (VInt 0) (st !! "function_count") in
  match Examples.as_int complexity, Examples.as_int issue_count with
  | Some complexity, Some issue_count =>
      let suggestions :=
        (if (10 <? complexity)%Z
         then [VStr "Break complex logic into smaller functions."]
         else [])
        ++ (if (0 <? issue_count)%Z
            then [VStr "Address the reported style/formatting issues."]
            else [])
        ++ (if equals_zero function_count
            then [VStr "Consider structuring code into separate functions."]
            else []) in
      let quality_score :=
        Z.max 0 (100 - complexity * 5 - issue_count * 10) in
      Leaves st h
        (Ok (ReturnsDict {[ "suggestions" := VList suggestions;
                            "quality_score" := VInt quality_score ]}))
  | _, _ => Leaves st h (Raise (OtherError "TypeError"))
  end.

Definition register_default_tools (tool_registry : ToolRegistry)
    : ToolRegistry :=
  let tool_registry :=
    ToolRegistry.register "extract_functions" tool_extract_functions
      tool_registry in
  let tool_registry :=
    ToolRegistry.register "check_complexity" tool_check_complexity
      tool_registry in
  let tool_registry :=
    ToolRegistry.register "detect_basic_issues" tool_detect_basic_issues
      tool_registry in
  ToolRegistry.register "suggest_improvements" tool_suggest_improvements
    tool_registry.

End Tools.

Definition review_guard : string :=
  "state.get('quality_score', 0) < state.get('threshold', 80)".

Definition code_review_graph : GraphDefinition :=
  {| GraphDefinition_id := "code_review_graph";
     nodes :=
       [ {| NodeDefinition_id := "extract";
            tool_name := "extract_functions"; config := ∅ |};
         {| NodeDefinition_id := "complexity";
            tool_name := "check_complexity"; config := ∅ |};
         {| NodeDefinition_id := "issues";
            tool_name := "detect_basic_issues"; config := ∅ |};
         {| NodeDefinition_id := "suggest";
            tool_name := "suggest_improvements"; config := ∅ |} ];
     edges :=
       [ {| source := "extract"; target := "complexity";
            condition := None |};
         {| source := "complexity"; target := "issues";
            condition := None |};
         {| source := "issues"; target := "suggest"; condition := None |};
         {| source := "suggest"; target := "complexity";
            condition := Some review_guard |} ];
     start_node_id := "extract" |}.

Definition create_example_code_review_graph
    (graphs : gmap string GraphDefinition) : gmap string GraphDefinition :=
  <[GraphDefinition_id code_review_graph := code_review_graph]> graphs.

End Workflows.

(** The registries of the examples. *)
Definition example_registry : ToolRegistry :=
  ToolRegistry.register "increment" Examples.tool_increment
    (ToolRegistry.register "noop" Examples.tool_noop
      (ToolRegistry.register "set_x" Examples.tool_set_x
        (ToolRegistry.register "pop_y" Examples.tool_pop_y
          (ToolRegistry.register "append_item" Examples.tool_append_item
            (ToolRegistry.register "returns_none" Examples.tool_returns_none
              (ToolRegistry.register "boom" Examples.tool_boom
                (ToolRegistry.register "suggest_improvements"
                   Workflows.tool_suggest_improvements ∅))))))).


(** The registry of the tools above that unbind no key of the state. *)
Definition keeping_registry : ToolRegistry :=
  ToolRegistry.register "increment" Examples.tool_increment
    (ToolRegistry.register "noop" Examples.tool_noop
      (ToolRegistry.register "set_x" Examples.tool_set_x ∅)).

(** ** app/main.py *)

Module Main.

(** The process: the global tool registry of app/registry.py, and the
    stores and objects of the world. *)
Record App := {
  tool_registry : ToolRegistry;
  world : World
}.

(** How a request ends: a response, an [HTTPException] raised by the
    endpoint, or an exception the endpoint does not handle. *)
Inductive Http (A : Type) :=
| Respond (a : A)
| HTTPException (status_code : Z) (detail : string)
| Unhandled (e : PyExc).

Arguments Respond {A} a.
Arguments HTTPException {A} status_code detail.
Arguments Unhandled {A} e.

Record GraphCreateRequest := {
  create_nodes : list NodeDefinition;
  create_edges : list EdgeDefinition;
  create_start_node_id : string
}.

Record GraphCreateResponse := {
  created_graph_id : string
}.

Record GraphRunRequest := {
  request_graph_id : string;
  request_initial_state : Dict
}.

(** A response carries the mappings written out, as they are when the
    response is made. *)
Record GraphRunResponse := {
  response_run_id : string;
  final_state : Dict;
  response_logs : list (RunLogEntry Dict);
  response_status : string
}.

Record StateResponse := {
  state_run_id : string;
  state_status : string;
  state_current_node_id : option string;
  state_state : Dict;
  state_logs : list (RunLogEntry Dict)
}.

(** [status.value] *)
Definition status_value (s : RunStatus) : string :=
  match s with
  | PENDING => "pending"
  | RUNNING => "running"
  | COMPLETED => "completed"
  | FAILED => "failed"
  end.

Definition set_world (w : World) (app : App) : App :=
  {| tool_registry := tool_registry app; world := w |}.

Definition set_graphs (g : gmap string GraphDefinition) (w : World) : World :=
  {| graphs := g; runs := runs w; dicts := dicts w; heap := heap w |}.

Section Endpoints.

Variable py_eval : string → Dict → Heap → Effect (Result Value).
Variable re_findall : string → string → list string.

Definition on_startup (app : App) : App :=
  {| tool_registry :=
       Workflows.register_default_tools re_findall (tool_registry app);
     world :=
       set_graphs
         (Workflows.create_example_code_review_graph (graphs (world app)))
         (world app) |}.

(** [uuid] is the value drawn by [uuid4()]. *)
Definition create_graph (req : GraphCreateRequest) (uuid : string)
    (app : App) : App * Http GraphCreateResponse :=
  let graph_id := uuid in
  let graph :=
    {| GraphDefinition_id := graph_id; nodes := create_nodes req;
       edges := create_edges req;
       start_node_id := create_start_node_id req |} in
  (set_world (set_graphs (<[graph_id := graph]> (graphs (world app)))
                (world app)) app,
   Respond {| created_graph_id := graph_id |}).

Definition run_graph (req : GraphRunRequest) (uuid : string) (app : App)
    : App * Http GraphRunResponse :=
  match graphs (world app) !! request_graph_id req with
  | None => (app, HTTPException 404 "Graph not found")
  | Some _ =>
      match run_graph_once py_eval (request_graph_id req)
              (request_initial_state req) (tool_registry app) 100 uuid
              (world app) with
      | (w, Raise e) => (set_world w app, Unhandled e)
      | (w, Ok run_state) =>
          (set_world w app,
           Respond {| response_run_id := run_id run_state;
                      final_state := deref (dicts w) (state run_state);
                      response_logs :=
                        written_out (dicts w) <$> logs run_state;
                      response_status := status_value (status run_state) |})
      end
  end.

Definition get_graph_state (run_id' : string) (app : App)
    : Http StateResponse :=
  match runs (world app) !! run_id' with
  | None => HTTPException 404 "Run not found"
  | Some run_state =>
      Respond {| state_run_id := run_id run_state;
                 state_status := status_value (status run_state);
                 state_current_node_id := current_node_id run_state;
                 state_state :=
                   deref (dicts (world app)) (state run_state);
                 state_logs :=
                   written_out (dicts (world app)) <$> logs run_state |}
  end.

End Endpoints.

End Main.

(** ** Reading a run's log *)

(** An entry written for the tool of a declared node: the node is the
    first one declared under the entry's node id, and the message names
    its tool. *)
Definition executed_by {S : Type} (graph : GraphDefinition)
    (entry : RunLogEntry S) : Prop :=
  ∃ node,
    find_node graph (node_id entry) = Some node ∧
    NodeDefinition_id node = node_id entry ∧
    message entry = Some (executed_message (tool_name node)).

(** An entry written when the run failed. *)
Definition is_failure_entry {S : Type} (entry : RunLogEntry S) : Prop :=
  message entry = Some (node_not_found_message (node_id entry))
  ∨ message entry = Some max_steps_message.

(** The graph declares an edge from [a] to [b]. *)
Definition joined (graph : GraphDefinition) (a b : string) : Prop :=
  ∃ e, e ∈ edges graph ∧ source e = a ∧ target e = b.

(** Each id is joined to the next one. *)
Fixpoint linked (graph : GraphDefinition) (ids : list string) : Prop :=
  match ids with
  | [] => True
  | a :: rest =>
      match rest with
      | [] => True
      | b :: _ => joined graph a b ∧ linked graph rest
      end
  end.

(** The node ids logged so far, followed by the node the loop is at. *)
Definition trail (c : Frame) : list string :=
  (node_id <$> logs (f_run_state c)) ++ [f_current c].

(** The keys in [K] are bound in the state of the frame and in the
    snapshot of every entry logged so far. *)
Definition keys_kept (K : string → Prop) (c : Frame) : Prop :=
  (∀ key, K key → is_Some (frame_state c !! key)) ∧
  ∀ entry, entry ∈ logs (f_run_state c) →
           ∀ key, K key →
                  is_Some (deref (f_dicts c) (state_snapshot entry) !! key).

(** ** Reading the review workflow *)

(** The scores the tools of app/workflows.py compute for a string. *)
Definition complexity_of (code : string) : Z :=
  (Z.of_nat (Workflows.str_count "if " code)
   + Z.of_nat (Workflows.str_count "for " code)
   + Z.of_nat (Workflows.str_count "while " code))%Z.

Definition issue_count_of (code : string) : Z :=
  Z.of_nat (length (Workflows.basic_issues code)).

Definition quality_of (code : string) : Z :=
  Z.max 0 (100 - complexity_of code * 5 - issue_count_of code * 10).

(** [state.get("code", "")] and, when it is a number,
    [state.get("threshold", 80)]. *)
Definition code_of (st : Dict) : Value :=
  default (VStr EmptyString) (st !! "code").

Definition threshold_of (st : Dict) : option Z :=
  Examples.as_int (default (VInt 80) (st !! "threshold")).

(** What [eval] does with the guard of the review graph when the
    quality score is an int and the threshold a number: it compares
    them, and leaves the state and the heap as they are. *)
Definition guard_compares_scores
    (py_eval : string → Dict → Heap → Effect (Result Value)) : Prop :=
  ∀ st h q t,
    st !! "quality_score" = Some (VInt q) →
    threshold_of st = Some t →
    py_eval Workflows.review_guard st h = Leaves st h (Ok (VBool (q <? t)%Z)).

(** An evaluator for the examples of the review workflow: it is [eval]
    of the guard for operands that are numbers, which is all those
    examples have, and answers with a [TypeError] otherwise. *)
Definition review_eval (cond : string) (st : Dict) (h : Heap)
    : Effect (Result Value) :=
  if String.eqb cond Workflows.review_guard then
    match Examples.as_int (default (VInt 0) (st !! "quality_score")),
          threshold_of st with
    | Some q, Some t => Leaves st h (Ok (VBool (q <? t)%Z))
    | _, _ => Leaves st h (Raise (OtherError "TypeError"))
    end
  else Leaves st h (Raise (OtherError "NameError")).

(** The keys the default tools bind, and the names they are registered
    under. *)
Definition written_keys : list string :=
  ["functions"; "function_count"; "complexity_score"; "issues";
   "issue_count"; "suggestions"; "quality_score"].

Definition default_tool_names : list string :=
  ["extract_functions"; "check_complexity"; "detect_basic_issues";
   "suggest_improvements"].

(** The keys outside [written_keys] are bound in the state of the frame
    as in [initial]. *)
Definition others_untouched (initial : Dict) (c : Frame) : Prop :=
  ∀ key, key ∉ written_keys → frame_state c !! key = initial !! key.

(** Along a run of the review graph on the string [code] with the
    threshold [t]: the state still gives this code and threshold, and
    the scores computed since the loop was last at [complexity] are
    those of [code]. *)
Definition review_inv (code : string) (t : Z) (c : Frame) : Prop :=
  code_of (frame_state c) = VStr code ∧
  threshold_of (frame_state c) = Some t ∧
  (f_current c = "extract"
   ∨ f_current c = "complexity"
   ∨ (f_current c = "issues" ∧
      frame_state c !! "complexity_score"
        = Some (VInt (complexity_of code)))
   ∨ (f_current c = "suggest" ∧
      frame_state c !! "complexity_score"
        = Some (VInt (complexity_of code)) ∧
      frame_state c !! "issue_count"
        = Some (VInt (issue_count_of code)))).

(** ** Reading a pass through the loop body *)

(** The reference a copy of the state gets when it is made first thing
    in a pass, and when it is made after the tool has worked on the
    state. *)
Definition copy_snapshot (c : Frame) : loc := fresh (dom (f_dicts c)).

Definition step_snapshot (c : Frame) : loc :=
  fresh ({[ state (f_run_state c) ]} ∪ dom (f_dicts c)).

(** The mapping objects after a pass in which the tool returned: the
    new snapshot holds the merged bindings, the state what edge
    resolution left of them. *)
Definition step_dicts (c : Frame) (merged left : Dict) : Dicts :=
  <[state (f_run_state c) := left]>
    (<[step_snapshot c := merged]>
       (<[state (f_run_state c) := merged]> (f_dicts c))).

(** The record after the entry for the executed tool was appended. *)
Definition step_logged (c : Frame) (node : NodeDefinition) : RunState :=
  logs_append (executed_entry node (step_snapshot c)) (f_run_state c).

Section Passes.

Variable py_eval : string → Dict → Heap → Effect (Result Value).
Variable graph : GraphDefinition.
Variable registry : ToolRegistry.

(** The five ways through the loop body.  [st1] and [h1] are what the
    tool left, [st2] and [h2] what edge resolution left. *)
Inductive pass (c : Frame) : Flow → Prop :=
| pass_missing :
    find_node graph (f_current c) = None →
    pass c
      (Break {| f_current := f_current c;
                f_run_state :=
                  logs_append (missing_entry (f_current c) (copy_snapshot c))
                    (set_status FAILED (f_run_state c));
                f_dicts := <[copy_snapshot c := frame_state c]> (f_dicts c);
                f_heap := f_heap c |})
| pass_tool_raises node st1 h1 e :
    find_node graph (f_current c) = Some node →
    ToolRegistry.run_tool registry (tool_name node) (frame_state c)
      (f_heap c) = Leaves st1 h1 (Raise e) →
    pass c
      (Throw e {| f_current := f_current c;
                  f_run_state := f_run_state c;
                  f_dicts := <[state (f_run_state c) := st1]> (f_dicts c);
                  f_heap := h1 |})
| pass_guard_raises node st1 h1 tool_result st2 h2 e :
    find_node graph (f_current c) = Some node →
    ToolRegistry.run_tool registry (tool_name node) (frame_state c)
      (f_heap c) = Leaves st1 h1 (Ok tool_result) →
    _find_next_edge py_eval graph (f_current c)
      (dict_update st1 tool_result) h1 = Leaves st2 h2 (Raise e) →
    pass c
      (Throw e {| f_current := f_current c;
                  f_run_state := step_logged c node;
                  f_dicts := step_dicts c (dict_update st1 tool_result) st2;
                  f_heap := h2 |})
| pass_completes node st1 h1 tool_result st2 h2 :
    find_node graph (f_current c) = Some node →
    ToolRegistry.run_tool registry (tool_name node) (frame_state c)
      (f_heap c) = Leaves st1 h1 (Ok tool_result) →
    _find_next_edge py_eval graph (f_current c)
      (dict_update st1 tool_result) h1 = Leaves st2 h2 (Ok None) →
    pass c
      (Break {| f_current := f_current c;
                f_run_state :=
                  set_current_node_id None
                    (set_status COMPLETED (step_logged c node));
                f_dicts := step_dicts c (dict_update st1 tool_result) st2;
                f_heap := h2 |})
| pass_follows node st1 h1 tool_result st2 h2 next_edge :
    find_node graph (f_current c) = Some node →
    ToolRegistry.run_tool registry (tool_name node) (frame_state c)
      (f_heap c) = Leaves st1 h1 (Ok tool_result) →
    _find_next_edge py_eval graph (f_current c)
      (dict_update st1 tool_result) h1
      = Leaves st2 h2 (Ok (Some next_edge)) →
    pass c
      (Continue {| f_current := target next_edge;
                   f_run_state :=
                     set_current_node_id (Some (target next_edge))
                       (step_logged c node);
                   f_dicts := step_dicts c (dict_update st1 tool_result) st2;
                   f_heap := h2 |}).

End Passes.


(** ** Sample frames and runs *)

Module Samples.

Import Examples.

(** Along a run of [self_loop_graph]: the loop is at its only node and
    the counter, once set, is a natural number, so the guard holds. *)
Definition counter_ok (c : Frame) : Prop :=
  f_current c = "loop" ∧
  (frame_state c !! "counter" = None
   ∨ ∃ n, (0 ≤ n)%Z ∧ frame_state c !! "counter" = Some (VInt n)).

(** The frame after the one pass a run with id [uuid] of the graph
    stored under [graph_id] makes at node A from an empty store, when
    A's tool merged [merged] and the edge to [next] was followed: the
    state is the first mapping object, the snapshot the second. *)
Definition frame_after_A (graph_id uuid tool next : string) (merged : Dict)
    : Frame :=
  {| f_current := next;
     f_run_state :=
       {| run_id := uuid; graph_id := graph_id; status := RUNNING;
          current_node_id := Some next;
          state := 1%positive;
          logs := [executed_entry (node "A" tool) 2%positive] |};
     f_dicts := {[ 1%positive := merged; 2%positive := merged ]};
     f_heap := ∅ |}.

(** The record a run of [dangling_graph] ends with. *)
Definition ghost_run : RunState :=
  {| run_id := "run-1"; graph_id := "dangling"; status := FAILED;
     current_node_id := Some "ghost";
     state := 1%positive;
     logs := [executed_entry (node "A" "noop") 2%positive;
              missing_entry "ghost" 3%positive] |}.

Definition append_start : Frame :=
  start_frame append_graph "append" items_state "run-1" append_world.

(** The run of [linear_graph] from the empty state, the record it
    returns and the mapping objects it leaves. *)
Definition linear_result : World * Result RunState :=
  run_graph_once example_eval "linear" ∅ example_registry 100 "run-1"
    example_world.

Definition linear_run : RunState :=
  {| run_id := "run-1"; graph_id := "linear"; status := COMPLETED;
     current_node_id := None;
     state := 1%positive;
     logs := [executed_entry (node "A" "noop") 2%positive;
              executed_entry (node "B" "set_x") 3%positive;
              executed_entry (node "C" "noop") 4%positive] |}.

Definition linear_dicts : Dicts :=
  {[ 1%positive := {[ "x" := VInt 1 ]};
     2%positive := ∅;
     3%positive := {[ "x" := VInt 1 ]};
     4%positive := {[ "x" := VInt 1 ]} ]}.

(** That run when it arrives at node C. *)
Definition frame_at_C : Frame :=
  {| f_current := "C";
     f_run_state :=
       {| run_id := "run-1"; graph_id := "linear"; status := RUNNING;
          current_node_id := Some "C";
          state := 1%positive;
          logs := [executed_entry (node "A" "noop") 2%positive;
                   executed_entry (node "B" "set_x") 3%positive] |};
     f_dicts := {[ 1%positive := {[ "x" := VInt 1 ]};
                   2%positive := ∅;
                   3%positive := {[ "x" := VInt 1 ]} ]};
     f_heap := ∅ |}.

(** The run of [linear_graph] from [{y: 2}]. *)
Definition keyed_result : World * Result RunState :=
  run_graph_once example_eval "linear" {[ "y" := VInt 2 ]} keeping_registry
    100 "run-1" example_world.

(** The process with the example tools and graphs. *)
Definition example_app : Main.App :=
  {| Main.tool_registry := example_registry; Main.world := example_world |}.

Definition run_linear : Main.GraphRunRequest :=
  {| Main.request_graph_id := "linear"; Main.request_initial_state := ∅ |}.

Definition run_raising : Main.GraphRunRequest :=
  {| Main.request_graph_id := "raising"; Main.request_initial_state := ∅ |}.

Definition linear_response : Main.GraphRunResponse :=
  {| Main.response_run_id := "run-1";
     Main.final_state := {[ "x" := VInt 1 ]};
     Main.response_logs :=
       [executed_entry (node "A" "noop") ∅;
        executed_entry (node "B" "set_x") {[ "x" := VInt 1 ]};
        executed_entry (node "C" "noop") {[ "x" := VInt 1 ]}];
     Main.response_status := "completed" |}.

(** A request for a graph that starts at a node it does not declare. *)
Definition create_headless : Main.GraphCreateRequest :=
  {| Main.create_nodes := [node "A" "noop"];
     Main.create_edges := [];
     Main.create_start_node_id := "nowhere" |}.

(** A code sample without a [def]: one [if], a [print] without
    logging, and a trailing blank.  Its complexity is 1, it has two
    issues, and its quality score is 75. *)
Definition sample_code : string := "if x: print(x) ".

(** [re.findall] of the function pattern on a text without a [def], as
    the sample is: no match. *)
Definition sample_findall (pattern text : string) : list string := [].

Definition review_world : World :=
  {| graphs := Workflows.create_example_code_review_graph ∅;
     runs := ∅; dicts := ∅; heap := ∅ |}.

(** The sample under the default threshold of 80, and under a
    threshold of 50. *)
Definition review_state : Dict := {[ "code" := VStr sample_code ]}.

Definition lenient_review_state : Dict :=
  {[ "code" := VStr sample_code; "threshold" := VInt 50 ]}.

End Samples.

(** ** Properties of edge resolution *)

Section EdgeResolution.

Variable py_eval : string → Dict → Heap → Effect (Result Value).

Lemma find_next_edge_filter graph current st h :
  _find_next_edge py_eval graph current st h =
  first_passing py_eval (candidates_of graph current) st h.
Proof.
  unfold _find_next_edge, candidates_of.
  by destruct (filter _ (edges graph)).
Qed.

Lemma first_passing_taken edge rest st h st' h' :
  edge_taken py_eval st h edge st' h' →
  first_passing py_eval (edge :: rest) st h = Leaves st' h' (Ok (Some edge)).
Proof.
  unfold edge_taken. simpl.
  destruct (condition edge) as [cond|].
  - intros (v & -> & Hv). simpl. by rewrite Hv.
  - by intros [-> ->].
Qed.

Lemma first_passing_passed edge rest st h st' h' :
  edge_passed py_eval st h edge st' h' →
  first_passing py_eval (edge :: rest) st h
    = first_passing py_eval rest st' h'.
Proof.
  intros [(cond & v & Hc & Hev & Hv)|(exc & (cond & Hc & Hev) & Hexc)];
    simpl; rewrite Hc, Hev; simpl.
  - by rewrite Hv.
  - by rewrite Hexc.
Qed.

Lemma first_passing_escapes edge rest st h exc st' h' :
  edge_escapes py_eval st h edge exc st' h' →
  first_passing py_eval (edge :: rest) st h = Leaves st' h' (Raise exc).
Proof.
  intros [(cond & Hc & Hev) Hexc]. simpl. rewrite Hc, Hev. simpl.
  by rewrite Hexc.
Qed.

(** Trying an edge ends in one of three ways. *)
Lemma edge_cases st h edge :
  (∃ st' h', edge_taken py_eval st h edge st' h')
  ∨ (∃ st' h', edge_passed py_eval st h edge st' h')
  ∨ (∃ exc st' h', edge_escapes py_eval st h edge exc st' h').
Proof.
  unfold edge_taken, edge_passed, edge_escapes, guard_raises.
  destruct (condition edge) as [cond|]; [|left; by exists st, h].
  destruct (py_eval cond st h) as [st' h' [v|exc]] eqn:Hev.
  - destruct (py_bool h' v) eqn:Hv.
    + left. exists st', h', v. done.
    + right. left. exists st', h'. left. by exists cond, v.
  - destruct (is_Exception exc) eqn:Hexc.
    + right. left. exists st', h'. right. exists exc.
      split; [by exists cond|done].
    + right. right. exists exc, st', h'. split; [by exists cond|done].
Qed.

(** An edge that is passed over is not eligible: a guard evaluates one
    way. *)
Lemma edge_passed_not_eligible st h edge st' h' :
  edge_passed py_eval st h edge st' h' → ¬ edge_eligible py_eval st h edge.
Proof.
  unfold edge_eligible, edge_taken.
  intros [(cond & v & Hc & Hev & Hv)|(exc & (cond & Hc & Hev) & Hexc)]
    (st2 & h2 & Htaken); rewrite Hc, Hev in Htaken;
    destruct Htaken as (v' & [= <- <- <-] & Hv'); congruence.
Qed.


Lemma first_passing_over es rest st h st1 h1 :
  passed_over py_eval es st h st1 h1 →
  first_passing py_eval (es ++ rest) st h = first_passing py_eval rest st1 h1.
Proof.
  induction 1 as [|e es st h st1 h1 st' h' Hpassed _ IH]; [done|].
  rewrite <- app_comm_cons, (first_passing_passed _ _ _ _ _ _ Hpassed).
  apply IH.
Qed.

(** The loop over the candidates, read as a whole: the candidates
    before the one returned were passed over one after the other, and
    the one returned was eligible on what they left; none is returned
    when all were passed over; an exception gets out when the guard of
    a candidate raised one that is not an [Exception]. *)
Lemma first_passing_walk es st h :
  match outcome (first_passing py_eval es st h) with
  | Ok (Some edge) =>
      ∃ before after st1 h1,
        es = before ++ edge :: after ∧
        passed_over py_eval before st h st1 h1 ∧
        edge_taken py_eval st1 h1 edge
          (left_state (first_passing py_eval es st h))
          (left_heap (first_passing py_eval es st h))
  | Ok None =>
      passed_over py_eval es st h
        (left_state (first_passing py_eval es st h))
        (left_heap (first_passing py_eval es st h))
  | Raise exc =>
      ∃ before edge after st1 h1,
        es = before ++ edge :: after ∧
        passed_over py_eval before st h st1 h1 ∧
        edge_escapes py_eval st1 h1 edge exc
          (left_state (first_passing py_eval es st h))
          (left_heap (first_passing py_eval es st h))
  end.
Proof.
  revert st h. induction es as [|e es IH]; intros st h.
  - simpl. constructor.
  - destruct (edge_cases st h e)
      as [(st' & h' & He)|[(st' & h' & He)|(exc & st' & h' & He)]].
    + rewrite (first_passing_taken _ es _ _ _ _ He). simpl.
      exists [], es, st, h. split; [done|]. split; [constructor|done].
    + rewrite (first_passing_passed _ es _ _ _ _ He).
      specialize (IH st' h').
      destruct (outcome (first_passing py_eval es st' h')) as [[edge|]|exc].
      * destruct IH as (before & after & st1 & h1 & -> & Hover & Htaken).
        exists (e :: before), after, st1, h1.
        split; [done|]. split; [by econstructor|done].
      * by econstructor.
      * destruct IH
          as (before & edge & after & st1 & h1 & -> & Hover & Hesc).
        exists (e :: before), edge, after, st1, h1.
        split; [done|]. split; [by econstructor|done].
    + rewrite (first_passing_escapes _ es _ _ _ _ _ He). simpl.
      exists [], e, es, st, h. split; [done|]. split; [constructor|done].
Qed.


(** Guards that only read leave everything as it was, so each candidate
    passed over was tried on the state resolution began with. *)
Lemma passed_over_read_only es es' st h st1 h1 :
  guards_read_only py_eval es' →
  (∀ e, e ∈ es → e ∈ es') →
  passed_over py_eval es st h st1 h1 →
  st1 = st ∧ h1 = h ∧ ∀ e, e ∈ es → ¬ edge_eligible py_eval st h e.
Proof.
  intros Hread Hsub Hover.
  induction Hover as [|e es st h st1 h1 st' h' Hpassed _ IH].
  - repeat split. intros e He. by apply elem_of_nil in He.
  - assert (st1 = st ∧ h1 = h) as [-> ->].
    { destruct Hpassed
        as [(cond & v & Hc & Hev & _)|(exc & (cond & Hc & Hev) & _)];
        destruct (Hread e cond (Hsub e (list_elem_of_here _ _)) Hc st h)
          as [Hst Hh];
        rewrite Hev in Hst, Hh; done. }
    destruct IH as (-> & -> & Hnone).
    { intros e' He'. apply Hsub. by right. }
    repeat split.
    intros e' [->|He']%elem_of_cons.
    + by eapply edge_passed_not_eligible.
    + by apply Hnone.
Qed.



(** Guards that only read leave the state and the heap to resolution
    as they were. *)
Lemma first_passing_read_only es st h :
  guards_read_only py_eval es →
  left_state (first_passing py_eval es st h) = st ∧
  left_heap (first_passing py_eval es st h) = h.
Proof.
  revert st h. induction es as [|e es IH]; intros st h Hread; [done|].
  assert (guards_read_only py_eval es) as Hrest.
  { intros e' cond He'. apply Hread. by right. }
  simpl. destruct (condition e) as [cond|] eqn:Hc; [|done].
  destruct (Hread e cond (list_elem_of_here _ _) Hc st h) as [Hst Hh].
  destruct (py_eval cond st h) as [st' h' [v|exc]]; simpl in *; subst st' h'.
  - destruct (py_bool h v); [done|]. by apply IH.
  - destruct (is_Exception exc); [|done]. by apply IH.
Qed.

Lemma find_next_edge_read_only graph current st h :
  guards_read_only py_eval (candidates_of graph current) →
  left_state (_find_next_edge py_eval graph current st h) = st ∧
  left_heap (_find_next_edge py_eval graph current st h) = h.
Proof.
  intros Hread. rewrite find_next_edge_filter.
  by apply first_passing_read_only.
Qed.

Lemma elem_of_candidates graph current e :
  e ∈ candidates_of graph current ↔ e ∈ edges graph ∧ source e = current.
Proof.
  unfold candidates_of. rewrite list_elem_of_filter. tauto.
Qed.


(** What resolution returns is one of the current node's edges. *)
Lemma find_next_edge_Some graph current st h edge :
  outcome (_find_next_edge py_eval graph current st h) = Ok (Some edge) →
  edge ∈ edges graph ∧ source edge = current.
Proof.
  intros Hedge. rewrite find_next_edge_filter in Hedge.
  pose proof (first_passing_walk (candidates_of graph current) st h) as Hwalk.
  rewrite Hedge in Hwalk.
  destruct Hwalk as (before & after & st1 & h1 & Hsplit & _).
  apply elem_of_candidates. rewrite Hsplit.
  apply elem_of_app. right. by left.
Qed.

(** What resolution lets out is not an [Exception]. *)
Lemma find_next_edge_Raise graph current st h exc :
  outcome (_find_next_edge py_eval graph current st h) = Raise exc →
  is_Exception exc = false ∧
  ∃ before edge after st1 h1,
    candidates_of graph current = before ++ edge :: after ∧
    passed_over py_eval before st h st1 h1 ∧
    edge_escapes py_eval st1 h1 edge exc
      (left_state (_find_next_edge py_eval graph current st h))
      (left_heap (_find_next_edge py_eval graph current st h)).
Proof.
  intros Hexc. rewrite find_next_edge_filter in Hexc |- *.
  pose proof (first_passing_walk (candidates_of graph current) st h) as Hwalk.
  rewrite Hexc in Hwalk.
  destruct Hwalk as (before & edge & after & st1 & h1 & Hsplit & Hover & Hesc).
  split; [by destruct Hesc|]. by exists before, edge, after, st1, h1.
Qed.

Lemma find_next_edge_None graph current st h st' h' :
  _find_next_edge py_eval graph current st h = Leaves st' h' (Ok None) ↔
  passed_over py_eval (candidates_of graph current) st h st' h'.
Proof.
  rewrite find_next_edge_filter. split.
  - intros Hnone.
    pose proof (first_passing_walk (candidates_of graph current) st h)
      as Hwalk.
    by rewrite Hnone in Hwalk.
  - intros Hover.
    rewrite <- (app_nil_r (candidates_of graph current)).
    by rewrite (first_passing_over _ [] _ _ _ _ Hover).
Qed.

End EdgeResolution.

(** ** Properties of the registry *)

Lemma run_tool_raises_iff registry name st h e st' h' :
  tool_invocation_raises registry name st h e st' h' ↔
  ToolRegistry.run_tool registry name st h = Leaves st' h' (Raise e).
Proof.
  unfold ToolRegistry.run_tool, ToolRegistry.get. split.
  - intros [Hnone|func st'' h'' Hsome Hret|func st'' h'' e' Hsome Hret].
    + by rewrite Hnone.
    + by rewrite Hsome, Hret.
    + by rewrite Hsome, Hret.
  - destruct (registry !! name) as [func|] eqn:Hlook.
    + destruct (func st h) as [st'' h'' [[result|]|e']] eqn:Hret; simpl.
      * done.
      * intros [= <- <- <-]. by eapply raises_non_dict.
      * intros [= <- <- <-]. by eapply raises_in_tool.
    + intros [= <- <- <-]. by apply raises_unregistered.
Qed.

(** A tool invocation through the registry succeeds exactly when the
    name is registered and the tool returned a dict; the mapping handed
    back, and the state and the heap left behind, are the tool's own. *)
Lemma run_tool_ok_iff tools name st h st' h' result :
  ToolRegistry.run_tool tools name st h = Leaves st' h' (Ok result) ↔
  ∃ func, tools !! name = Some func ∧
          func st h = Leaves st' h' (Ok (ReturnsDict result)).
Proof.
  unfold ToolRegistry.run_tool, ToolRegistry.get. split.
  - destruct (tools !! name) as [func|]; [|done].
    destruct (func st h) as [st'' h'' [[d|]|e]] eqn:Hfunc; simpl; [|done..].
    intros [= <- <- <-]. by exists func.
  - intros (func & -> & ->). done.
Qed.


Lemma run_tool_keeps_keys registry name st h key :
  tools_keep_keys registry →
  is_Some (st !! key) →
  is_Some (left_state (ToolRegistry.run_tool registry name st h) !! key).
Proof.
  intros Hkeep Hkey. unfold ToolRegistry.run_tool, ToolRegistry.get.
  destruct (registry !! name) as [func|] eqn:Hlook; [|done].
  specialize (Hkeep name func Hlook st h key Hkey).
  destruct (func st h) as [st' h' [[result|]|e]]; done.
Qed.

(** ** Properties of the step loop *)

Lemma effect_eta {A : Type} (r : Effect A) :
  r = Leaves (left_state r) (left_heap r) (outcome r).
Proof. by destruct r. Qed.


(** *** The store of mapping objects *)

Lemma deref_insert_eq (ds : Dicts) l d : deref (<[l := d]> ds) l = d.
Proof. unfold deref. by rewrite lookup_insert_eq. Qed.

Lemma deref_insert_ne (ds : Dicts) l l' d :
  l ≠ l' → deref (<[l := d]> ds) l' = deref ds l'.
Proof. intros Hne. unfold deref. by rewrite lookup_insert_ne. Qed.

Lemma new_dict_fresh d (ds : Dicts) : (new_dict d ds).1 ∉ dom ds.
Proof. exact (is_fresh (dom ds)). Qed.

Lemma copy_snapshot_fresh c : copy_snapshot c ∉ dom (f_dicts c).
Proof. exact (is_fresh (dom (f_dicts c))). Qed.

Lemma step_snapshot_fresh c :
  (step_snapshot c ∉ dom (f_dicts c)) ∧
  step_snapshot c ≠ state (f_run_state c).
Proof.
  pose proof (is_fresh ({[ state (f_run_state c) ]} ∪ dom (f_dicts c)))
    as Hfresh.
  fold (step_snapshot c) in Hfresh.
  apply not_elem_of_union in Hfresh as [Hstate Hdom].
  split; [done|]. intros Heq. apply Hstate. by apply elem_of_singleton.
Qed.

Lemma step_snapshot_not_state c : step_snapshot c ≠ state (f_run_state c).
Proof. apply step_snapshot_fresh. Qed.

Lemma step_snapshot_not_in c l : l ∈ dom (f_dicts c) → l ≠ step_snapshot c.
Proof.
  intros Hin ->. by apply (proj1 (step_snapshot_fresh c)).
Qed.

Lemma copy_snapshot_not_in c l : l ∈ dom (f_dicts c) → l ≠ copy_snapshot c.
Proof. intros Hin ->. by apply (copy_snapshot_fresh c). Qed.

Lemma step_dicts_state c merged left :
  deref (step_dicts c merged left) (state (f_run_state c)) = left.
Proof. apply deref_insert_eq. Qed.

Lemma step_dicts_snapshot c merged left :
  deref (step_dicts c merged left) (step_snapshot c) = merged.
Proof.
  unfold step_dicts.
  rewrite deref_insert_ne
    by (intros Heq; by apply (step_snapshot_not_state c)).
  apply deref_insert_eq.
Qed.

Lemma step_dicts_other c merged left l :
  l ≠ state (f_run_state c) → l ≠ step_snapshot c →
  step_dicts c merged left !! l = f_dicts c !! l.
Proof.
  intros Hstate Hsnap. unfold step_dicts.
  by rewrite !lookup_insert_ne.
Qed.

Lemma step_dicts_dom c merged left l :
  l ∈ dom (step_dicts c merged left) ↔
  l = state (f_run_state c) ∨ l = step_snapshot c ∨ l ∈ dom (f_dicts c).
Proof.
  unfold step_dicts.
  rewrite !dom_insert_L, !elem_of_union, !elem_of_singleton. tauto.
Qed.

(** What is in the store and is not the state mapping is left alone by
    a write to the state and by a copy. *)
Lemma kept_after_copy c l :
  l ∈ dom (f_dicts c) →
  <[copy_snapshot c := frame_state c]> (f_dicts c) !! l = f_dicts c !! l.
Proof.
  intros Hin. apply lookup_insert_ne. intros Heq.
  by apply (copy_snapshot_not_in c l).
Qed.

Lemma kept_after_step c merged left l :
  l ∈ dom (f_dicts c) → l ≠ state (f_run_state c) →
  step_dicts c merged left !! l = f_dicts c !! l.
Proof.
  intros Hin Hstate. apply step_dicts_other; [done|].
  by apply step_snapshot_not_in.
Qed.

Section StepLoop.

Variable py_eval : string → Dict → Heap → Effect (Result Value).
Variable graph : GraphDefinition.
Variable registry : ToolRegistry.

Abbreviation body := (loop_body py_eval graph registry).
Abbreviation loop := (for_range py_eval graph registry).
Abbreviation reach := (passes py_eval graph registry).

(** The loop body goes one of the five ways. *)
Lemma loop_body_pass c : pass py_eval graph registry c (body c).
Proof.
  unfold loop_body.
  destruct (find_node graph (f_current c)) as [node|] eqn:Hnode.
  - fold (frame_state c).
    destruct (ToolRegistry.run_tool registry (tool_name node)
                (frame_state c) (f_heap c))
      as [st1 h1 [tool_result|e]] eqn:Htool; simpl.
    + unfold update_at, dict_copy, new_dict, deref. simpl.
      rewrite !lookup_insert_eq. simpl.
      rewrite insert_insert_eq, !dom_insert_L.
      fold (step_snapshot c).
      pose proof (step_snapshot_not_state c) as Hfresh.
      rewrite lookup_insert_ne, lookup_insert_eq by done. simpl.
      destruct (_find_next_edge py_eval graph (f_current c)
                  (dict_update st1 tool_result) h1)
        as [st2 h2 [[next_edge|]|e]] eqn:Hres; simpl;
        fold (step_logged c node);
        change (<[state (f_run_state c) := st2]>
                  (<[step_snapshot c := dict_update st1 tool_result]>
                     (<[state (f_run_state c) := dict_update st1 tool_result]>
                        (f_dicts c))))
          with (step_dicts c (dict_update st1 tool_result) st2).
      * by eapply pass_follows.
      * by eapply pass_completes.
      * by eapply pass_guard_raises.
    + by eapply pass_tool_raises.
  - by apply pass_missing.
Qed.

Lemma body_cases c : ∃ f, body c = f ∧ pass py_eval graph registry c f.
Proof. exists (body c). split; [done|apply loop_body_pass]. Qed.


(** What a pass that followed an edge, broke out, or raised, did. *)
Lemma body_continue_inv c c' :
  body c = Continue c' →
  ∃ node st1 h1 tool_result st2 h2 next_edge,
    find_node graph (f_current c) = Some node ∧
    ToolRegistry.run_tool registry (tool_name node) (frame_state c)
      (f_heap c) = Leaves st1 h1 (Ok tool_result) ∧
    _find_next_edge py_eval graph (f_current c)
      (dict_update st1 tool_result) h1
      = Leaves st2 h2 (Ok (Some next_edge)) ∧
    c' = {| f_current := target next_edge;
            f_run_state :=
              set_current_node_id (Some (target next_edge))
                (step_logged c node);
            f_dicts := step_dicts c (dict_update st1 tool_result) st2;
            f_heap := h2 |}.
Proof.
  intros Hbody. pose proof (loop_body_pass c) as Hpass.
  rewrite Hbody in Hpass. inversion Hpass; subst.
  by eexists _, _, _, _, _, _, _.
Qed.

Lemma body_break_inv c c' :
  body c = Break c' →
  (find_node graph (f_current c) = None ∧
   c' = {| f_current := f_current c;
           f_run_state :=
             logs_append (missing_entry (f_current c) (copy_snapshot c))
               (set_status FAILED (f_run_state c));
           f_dicts := <[copy_snapshot c := frame_state c]> (f_dicts c);
           f_heap := f_heap c |})
  ∨
  (∃ node st1 h1 tool_result st2 h2,
     find_node graph (f_current c) = Some node ∧
     ToolRegistry.run_tool registry (tool_name node) (frame_state c)
       (f_heap c) = Leaves st1 h1 (Ok tool_result) ∧
     _find_next_edge py_eval graph (f_current c)
       (dict_update st1 tool_result) h1 = Leaves st2 h2 (Ok None) ∧
     c' = {| f_current := f_current c;
             f_run_state :=
               set_current_node_id None
                 (set_status COMPLETED (step_logged c node));
             f_dicts := step_dicts c (dict_update st1 tool_result) st2;
             f_heap := h2 |}).
Proof.
  intros Hbody. pose proof (loop_body_pass c) as Hpass.
  rewrite Hbody in Hpass. inversion Hpass; subst.
  - by left.
  - right. by eexists _, _, _, _, _, _.
Qed.

Lemma body_throw_inv c e c' :
  body c = Throw e c' →
  ∃ node,
    find_node graph (f_current c) = Some node ∧
    ((∃ st1 h1,
        ToolRegistry.run_tool registry (tool_name node) (frame_state c)
          (f_heap c) = Leaves st1 h1 (Raise e) ∧
        c' = {| f_current := f_current c;
                f_run_state := f_run_state c;
                f_dicts := <[state (f_run_state c) := st1]> (f_dicts c);
                f_heap := h1 |})
     ∨
     (∃ st1 h1 tool_result st2 h2,
        ToolRegistry.run_tool registry (tool_name node) (frame_state c)
          (f_heap c) = Leaves st1 h1 (Ok tool_result) ∧
        _find_next_edge py_eval graph (f_current c)
          (dict_update st1 tool_result) h1 = Leaves st2 h2 (Raise e) ∧
        c' = {| f_current := f_current c;
                f_run_state := step_logged c node;
                f_dicts := step_dicts c (dict_update st1 tool_result) st2;
                f_heap := h2 |})).
Proof.
  intros Hbody. pose proof (loop_body_pass c) as Hpass.
  rewrite Hbody in Hpass. inversion Hpass; subst; exists node; split; try done.
  - left. by eexists _, _.
  - right. by eexists _, _, _, _, _.
Qed.

(** The three ways through the loop body, forwards. *)
Lemma loop_body_missing c :
  find_node graph (f_current c) = None →
  body c =
    Break {| f_current := f_current c;
             f_run_state :=
               logs_append (missing_entry (f_current c) (copy_snapshot c))
                 (set_status FAILED (f_run_state c));
             f_dicts := <[copy_snapshot c := frame_state c]> (f_dicts c);
             f_heap := f_heap c |}.
Proof.
  intros Hnode. destruct (body_cases c) as (f & -> & Hpass).
  destruct Hpass; congruence.
Qed.

Lemma loop_body_raise c node st1 h1 e :
  find_node graph (f_current c) = Some node →
  ToolRegistry.run_tool registry (tool_name node) (frame_state c) (f_heap c)
    = Leaves st1 h1 (Raise e) →
  body c =
    Throw e {| f_current := f_current c; f_run_state := f_run_state c;
               f_dicts := <[state (f_run_state c) := st1]> (f_dicts c);
               f_heap := h1 |}.
Proof.
  intros Hnode Htool. destruct (body_cases c) as (f & -> & Hpass).
  destruct Hpass; congruence.
Qed.

Lemma loop_body_ok c node st1 h1 tool_result :
  find_node graph (f_current c) = Some node →
  ToolRegistry.run_tool registry (tool_name node) (frame_state c) (f_heap c)
    = Leaves st1 h1 (Ok tool_result) →
  let merged := dict_update st1 tool_result in
  let resolved := _find_next_edge py_eval graph (f_current c) merged h1 in
  body c =
    match outcome resolved with
    | Raise e =>
        Throw e {| f_current := f_current c;
                   f_run_state := step_logged c node;
                   f_dicts := step_dicts c merged (left_state resolved);
                   f_heap := left_heap resolved |}
    | Ok None =>
        Break {| f_current := f_current c;
                 f_run_state :=
                   set_current_node_id None
                     (set_status COMPLETED (step_logged c node));
                 f_dicts := step_dicts c merged (left_state resolved);
                 f_heap := left_heap resolved |}
    | Ok (Some next_edge) =>
        Continue {| f_current := target next_edge;
                    f_run_state :=
                      set_current_node_id (Some (target next_edge))
                        (step_logged c node);
                    f_dicts := step_dicts c merged (left_state resolved);
                    f_heap := left_heap resolved |}
    end.
Proof.
  intros Hnode Htool. cbv zeta.
  destruct (body_cases c) as (f & -> & Hpass).
  destruct Hpass as [Hn| node' st1' h1' e Hn Ht
                    | node' st1' h1' result' st2 h2 e Hn Ht Hres
                    | node' st1' h1' result' st2 h2 Hn Ht Hres
                    | node' st1' h1' result' st2 h2 next_edge Hn Ht Hres];
    try congruence;
    rewrite Hnode in Hn; injection Hn as <-;
    rewrite Htool in Ht; injection Ht as <- <- <-;
    by rewrite Hres.
Qed.

(** *** What every pass keeps *)

(** A pass never rebinds [run_state.state], nor the ids of the
    record. *)
Lemma body_record c :
  state (f_run_state (flow_frame (body c))) = state (f_run_state c) ∧
  run_id (f_run_state (flow_frame (body c))) = run_id (f_run_state c) ∧
  graph_id (f_run_state (flow_frame (body c))) = graph_id (f_run_state c).
Proof.
  destruct (body_cases c) as (f & -> & Hpass). by destruct Hpass.
Qed.

(** The log only grows. *)
Lemma body_logs_prefix c :
  logs (f_run_state c) `prefix_of` logs (f_run_state (flow_frame (body c))).
Proof.
  destruct (body_cases c) as (f & -> & Hpass).
  destruct Hpass; simpl; try done; by apply prefix_app_r.
Qed.

(** The mapping objects already in the store, other than the state
    itself, are left as they are. *)
Lemma body_dicts_kept c l :
  l ∈ dom (f_dicts c) → l ≠ state (f_run_state c) →
  f_dicts (flow_frame (body c)) !! l = f_dicts c !! l.
Proof.
  intros Hin Hstate. destruct (body_cases c) as (f & -> & Hpass).
  destruct Hpass; simpl.
  - by apply kept_after_copy.
  - by rewrite lookup_insert_ne.
  - by apply kept_after_step.
  - by apply kept_after_step.
  - by apply kept_after_step.
Qed.

Lemma body_dicts_dom c l :
  l ∈ dom (f_dicts c) → l ∈ dom (f_dicts (flow_frame (body c))).
Proof.
  intros Hin. destruct (body_cases c) as (f & -> & Hpass).
  destruct Hpass; simpl;
    rewrite ?step_dicts_dom, ?dom_insert_L, ?elem_of_union; auto.
Qed.

Lemma wf_after_step c node merged left :
  frame_wf c →
  state (f_run_state c) ∈ dom (step_dicts c merged left) ∧
  ∀ entry, entry ∈ logs (step_logged c node) →
           state_snapshot entry ∈ dom (step_dicts c merged left) ∧
           state_snapshot entry ≠ state (f_run_state c).
Proof.
  intros [Hstate Hlogs].
  split; [apply step_dicts_dom; by left|].
  intros entry [Hentry|Hentry%list_elem_of_singleton]%elem_of_app.
  - destruct (Hlogs entry Hentry).
    split; [apply step_dicts_dom; auto|done].
  - subst entry. simpl.
    split; [apply step_dicts_dom; auto|apply step_snapshot_not_state].
Qed.

Lemma wf_after_copy c entry :
  frame_wf c →
  state_snapshot entry = copy_snapshot c →
  state (f_run_state c)
    ∈ dom (<[copy_snapshot c := frame_state c]> (f_dicts c)) ∧
  ∀ e, e ∈ logs (f_run_state c) ++ [entry] →
       state_snapshot e
         ∈ dom (<[copy_snapshot c := frame_state c]> (f_dicts c)) ∧
       state_snapshot e ≠ state (f_run_state c).
Proof.
  intros [Hstate Hlogs] Hsnap. rewrite dom_insert_L.
  split; [apply elem_of_union; by right|].
  intros e [He|He%list_elem_of_singleton]%elem_of_app.
  - destruct (Hlogs e He). split; [apply elem_of_union; by right|done].
  - subst e. rewrite Hsnap.
    split; [apply elem_of_union; left; by apply elem_of_singleton|].
    intros Heq. by apply (copy_snapshot_not_in c (state (f_run_state c))).
Qed.

(** The mapping objects stay in order. *)
Lemma body_wf c : frame_wf c → frame_wf (flow_frame (body c)).
Proof.
  intros Hwf. destruct (body_cases c) as (f & -> & Hpass).
  destruct Hpass; unfold frame_wf; simpl.
  - by apply (wf_after_copy c (missing_entry _ _) Hwf).
  - destruct Hwf as [Hstate Hlogs]. split; simpl.
    + rewrite dom_insert_L. apply elem_of_union. by right.
    + intros entry Hentry. destruct (Hlogs entry Hentry).
      rewrite dom_insert_L. split; [apply elem_of_union; by right|done].
  - by apply (wf_after_step c node _ _ Hwf).
  - by apply (wf_after_step c node _ _ Hwf).
  - by apply (wf_after_step c node _ _ Hwf).
Qed.

(** One pass that follows an edge keeps the record RUNNING and appends
    exactly one entry, the one for the executed tool. *)
Lemma body_continue_running c c' :
  body c = Continue c' → running c →
  running c' ∧
  ∃ entry, logs (f_run_state c') = logs (f_run_state c) ++ [entry] ∧
           is_executed_entry entry.
Proof.
  intros (node & st1 & h1 & tool_result & st2 & h2 & next_edge
          & _ & _ & _ & ->)%body_continue_inv [Hstatus _].
  split; [done|]. eexists. split; [done|]. by eexists.
Qed.

Lemma reach_running k c c' :
  reach k c = Some c' → running c →
  running c' ∧
  ∃ entries, logs (f_run_state c') = logs (f_run_state c) ++ entries ∧
             length entries = k ∧ Forall is_executed_entry entries.
Proof.
  revert c. induction k as [|k IH]; intros c; simpl.
  - intros [= <-] Hrun. split; [done|]. exists [].
    by rewrite app_nil_r.
  - destruct (body c) as [c1| |] eqn:Hbody; [|done..].
    intros Hreach Hrun.
    destruct (body_continue_running _ _ Hbody Hrun)
      as (Hrun1 & entry & Hlogs1 & Hexec).
    destruct (IH _ Hreach Hrun1) as (Hrun' & entries & Hlogs & Hlen & Hall).
    split; [done|]. exists (entry :: entries).
    rewrite Hlogs, Hlogs1, <- app_assoc. simpl.
    repeat split; [by rewrite Hlen|by constructor].
Qed.

(** The loop after [k] passes that followed an edge. *)
Lemma loop_after_reach k m c c' :
  reach k c = Some c' → loop (k + m) c = loop m c'.
Proof.
  revert c. induction k as [|k IH]; intros c; simpl.
  - by intros [= <-].
  - destruct (body c) as [c1| |]; [|done..]. apply IH.
Qed.

Lemma loop_exhausted n c cn :
  reach n c = Some cn → loop n c = Finished (loop_else cn).
Proof.
  intros Hreach. rewrite <- (Nat.add_0_r n).
  by rewrite (loop_after_reach _ _ _ _ Hreach).
Qed.

Lemma loop_breaks n k c ck c' :
  reach k c = Some ck → k < n → body ck = Break c' →
  loop n c = Finished c'.
Proof.
  intros Hreach Hk Hbody.
  replace n with (k + S (n - S k)) by lia.
  rewrite (loop_after_reach _ _ _ _ Hreach). simpl. by rewrite Hbody.
Qed.

Lemma loop_throws n k c ck e c' :
  reach k c = Some ck → k < n → body ck = Throw e c' →
  loop n c = Raised e c'.
Proof.
  intros Hreach Hk Hbody.
  replace n with (k + S (n - S k)) by lia.
  rewrite (loop_after_reach _ _ _ _ Hreach). simpl. by rewrite Hbody.
Qed.

(** How a loop that finished got there: the range was exhausted after
    [n] passes, or an earlier pass broke out. *)
Lemma loop_finished_inv n c c' :
  loop n c = Finished c' →
  (∃ cn, reach n c = Some cn ∧ c' = loop_else cn)
  ∨ (∃ k ck, k < n ∧ reach k c = Some ck ∧ body ck = Break c').
Proof.
  revert c. induction n as [|n IH]; intros c; simpl.
  - intros [= <-]. left. by exists c.
  - destruct (body c) as [c1|c1|e c1] eqn:Hbody; [| |done].
    + intros [(cn & Hreach & ->)|(k & ck & Hk & Hreach & Hbreak)]%IH.
      * left. by exists cn.
      * right. exists (S k), ck. simpl. rewrite Hbody.
        split; [lia|done].
    + intros [= <-]. right. exists 0, c. split; [lia|done].
Qed.

Lemma loop_raised_inv n c e c' :
  loop n c = Raised e c' →
  ∃ k ck, k < n ∧ reach k c = Some ck ∧ body ck = Throw e c'.
Proof.
  revert c. induction n as [|n IH]; intros c; simpl; [done|].
  destruct (body c) as [c1|c1|e1 c1] eqn:Hbody; [|done|].
  - intros (k & ck & Hk & Hreach & Hthrow)%IH.
    exists (S k), ck. simpl. rewrite Hbody. split; [lia|done].
  - intros [= <- <-]. exists 0, c. split; [lia|done].
Qed.

(** The [else] clause, written out. *)
Lemma loop_else_eq c :
  loop_else c =
    {| f_current := f_current c;
       f_run_state :=
         logs_append (abort_entry (f_current c) (copy_snapshot c))
           (set_status FAILED (f_run_state c));
       f_dicts := <[copy_snapshot c := frame_state c]> (f_dicts c);
       f_heap := f_heap c |}.
Proof. done. Qed.

(** *** What the whole loop keeps *)

Lemma reach_record k c c' :
  reach k c = Some c' →
  state (f_run_state c') = state (f_run_state c) ∧
  run_id (f_run_state c') = run_id (f_run_state c) ∧
  graph_id (f_run_state c') = graph_id (f_run_state c).
Proof.
  revert c. induction k as [|k IH]; intros c; simpl.
  - by intros [= <-].
  - pose proof (body_record c) as Hbody.
    destruct (body c) as [c1| |]; [|done..].
    intros (-> & -> & ->)%IH. done.
Qed.

Lemma reach_wf k c c' : reach k c = Some c' → frame_wf c → frame_wf c'.
Proof.
  revert c. induction k as [|k IH]; intros c; simpl.
  - by intros [= <-].
  - pose proof (body_wf c) as Hbody.
    destruct (body c) as [c1| |]; [|done..].
    intros Hreach Hwf. by eapply IH, Hbody.
Qed.

Lemma loop_record n c :
  state (f_run_state (end_frame (loop n c))) = state (f_run_state c) ∧
  run_id (f_run_state (end_frame (loop n c))) = run_id (f_run_state c) ∧
  graph_id (f_run_state (end_frame (loop n c))) = graph_id (f_run_state c).
Proof.
  revert c. induction n as [|n IH]; intros c; simpl; [done|].
  pose proof (body_record c) as Hbody.
  destruct (body c) as [c1|c1|e c1]; simpl; [|done..].
  destruct (IH c1) as (-> & -> & ->). done.
Qed.

Lemma loop_logs_prefix n c :
  logs (f_run_state c) `prefix_of` logs (f_run_state (end_frame (loop n c))).
Proof.
  revert c. induction n as [|n IH]; intros c; simpl.
  - by apply prefix_app_r.
  - pose proof (body_logs_prefix c) as Hbody.
    destruct (body c) as [c1|c1|e c1]; simpl; [|done..].
    by etrans.
Qed.

(** Whatever the loop does, a mapping object that is in the store and
    is not the state mapping holds at the end what it held. *)
Lemma loop_dicts_kept n c l :
  l ∈ dom (f_dicts c) → l ≠ state (f_run_state c) →
  f_dicts (end_frame (loop n c)) !! l = f_dicts c !! l.
Proof.
  revert c. induction n as [|n IH]; intros c Hin Hstate; simpl.
  - by apply kept_after_copy.
  - pose proof (body_dicts_kept c l Hin Hstate) as Hkept.
    pose proof (body_dicts_dom c l Hin) as Hdom.
    pose proof (body_record c) as (Hloc & _).
    destruct (body c) as [c1|c1|e c1]; simpl in *; [|done..].
    rewrite IH; [done|done|congruence].
Qed.

End StepLoop.

(** ** Properties of [run_graph_once] *)

Section RunGraphOnce.

Variable py_eval : string → Dict → Heap → Effect (Result Value).

(** A run of a graph that is in the store is the loop from the start
    frame, with the record kept in the store under the drawn id. *)
Lemma run_graph_once_found graph_id initial_state registry max_steps uuid
    w graph :
  graphs w !! graph_id = Some graph →
  run_graph_once py_eval graph_id initial_state registry max_steps uuid w =
    match for_range py_eval graph registry (Z.to_nat max_steps)
            (start_frame graph graph_id initial_state uuid w) with
    | Raised e c =>
        ({| graphs := graphs w;
            runs := <[uuid := f_run_state c]> (runs w);
            dicts := f_dicts c;
            heap := f_heap c |}, Raise e)
    | Finished c =>
        ({| graphs := graphs w;
            runs := <[uuid := f_run_state c]> (runs w);
            dicts := f_dicts c;
            heap := f_heap c |}, Ok (f_run_state c))
    end.
Proof.
  intros Hgraph. unfold run_graph_once, start_frame, new_dict.
  rewrite Hgraph. simpl.
  destruct (for_range _ _ _ _ _); by rewrite insert_insert_eq.
Qed.

Lemma start_frame_running graph graph_id initial_state uuid w :
  running (start_frame graph graph_id initial_state uuid w).
Proof. done. Qed.

Lemma start_frame_state graph graph_id initial_state uuid w :
  frame_state (start_frame graph graph_id initial_state uuid w)
    = initial_state.
Proof. apply deref_insert_eq. Qed.

Lemma start_frame_wf graph graph_id initial_state uuid w :
  frame_wf (start_frame graph graph_id initial_state uuid w).
Proof.
  split; simpl.
  - rewrite dom_insert_L. apply elem_of_union. left.
    by apply elem_of_singleton.
  - intros entry Hentry. by apply elem_of_nil in Hentry.
Qed.

Lemma dict_update_lookup (d other : Dict) key :
  dict_update d other !! key =
    match other !! key with
    | Some v => Some v
    | None => d !! key
    end.
Proof.
  unfold dict_update. rewrite lookup_union.
  by destruct (other !! key), (d !! key).
Qed.

(** The state a copy is made of is left as it is. *)
Lemma copy_keeps_state c :
  deref (<[copy_snapshot c := frame_state c]> (f_dicts c))
    (state (f_run_state c)) = frame_state c.
Proof.
  destruct (decide (copy_snapshot c = state (f_run_state c))) as [<-|Hne].
  - apply deref_insert_eq.
  - by rewrite deref_insert_ne.
Qed.

(** After a pass in which the tool returned: the log has one more
    entry, whose snapshot holds the merged bindings, and the state
    holds what edge resolution left. *)
Lemma body_after_tool graph registry c node st1 h1 tool_result :
  find_node graph (f_current c) = Some node →
  ToolRegistry.run_tool registry (tool_name node) (frame_state c) (f_heap c)
    = Leaves st1 h1 (Ok tool_result) →
  let resolved :=
    _find_next_edge py_eval graph (f_current c)
      (dict_update st1 tool_result) h1 in
  logs (f_run_state (flow_frame (loop_body py_eval graph registry c)))
    = logs (f_run_state c) ++ [executed_entry node (step_snapshot c)] ∧
  f_dicts (flow_frame (loop_body py_eval graph registry c))
    = step_dicts c (dict_update st1 tool_result) (left_state resolved) ∧
  f_heap (flow_frame (loop_body py_eval graph registry c))
    = left_heap resolved.
Proof.
  intros Hnode Htool. cbv zeta.
  rewrite (loop_body_ok _ _ _ _ _ _ _ _ Hnode Htool).
  by destruct (outcome (_find_next_edge _ _ _ _ _)) as [[next_edge|]|e].
Qed.

(** C3. In every step that runs a tool, the mapping the tool returned
    is merged into the run state with right-biased overwrite: a key of
    the tool result gets the tool result's value, every other key keeps
    the value it had when the tool returned.  The merged bindings are
    those of the snapshot of the entry the step appends, and the state
    the step ends with is what edge resolution left of them: with
    guards that only read, the merged bindings themselves.  In
    particular [{x:0, y:2}] merged with [{x:1}] is [{x:1, y:2}]. *)
Theorem tool_result_merge_right_biased graph registry c node st1 h1
    tool_result :
  find_node graph (f_current c) = Some node →
  ToolRegistry.run_tool registry (tool_name node) (frame_state c) (f_heap c)
    = Leaves st1 h1 (Ok tool_result) →
  (∃ c' entry,
     flow_frame (loop_body py_eval graph registry c) = c' ∧
     logs (f_run_state c') = logs (f_run_state c) ++ [entry] ∧
     node_id entry = NodeDefinition_id node ∧
     (∀ key,
        deref (f_dicts c') (state_snapshot entry) !! key =
          match tool_result !! key with
          | Some v => Some v
          | None => st1 !! key
          end) ∧
     frame_state c'
       = left_state
           (_find_next_edge py_eval graph (f_current c)
              (dict_update st1 tool_result) h1) ∧
     (guards_read_only py_eval (candidates_of graph (f_current c)) →
      ∀ key,
        frame_state c' !! key =
          match tool_result !! key with
          | Some v => Some v
          | None => st1 !! key
          end))
  ∧ dict_update {[ "x" := VInt 0; "y" := VInt 2 ]} {[ "x" := VInt 1 ]}
      = ({[ "x" := VInt 1; "y" := VInt 2 ]} : Dict).
Proof.
  intros Hnode Htool. split.
  - destruct (body_after_tool _ _ _ _ _ _ _ Hnode Htool)
      as (Hlogs & Hdicts & _).
    pose proof (body_record py_eval graph registry c) as (Hloc & _).
    eexists _, _. split; [done|]. split; [exact Hlogs|].
    split; [done|]. unfold frame_state. rewrite Hdicts, Hloc. simpl.
    rewrite step_dicts_snapshot, step_dicts_state.
    split; [intros key; apply dict_update_lookup|]. split; [done|].
    intros Hread key.
    destruct (find_next_edge_read_only py_eval graph (f_current c)
                (dict_update st1 tool_result) h1 Hread) as (-> & _).
    apply dict_update_lookup.
  - apply map_eq. intros key. rewrite dict_update_lookup.
    destruct (decide (key = "x")) as [->|Hx]; [done|].
    rewrite lookup_singleton_ne by done.
    by rewrite !(lookup_insert_ne _ "x") by done.
Qed.

(** C5. For a graph id that is not in the graph store the call raises a
    [KeyError] to the caller and returns the world it was given: no run
    record was created or stored. *)
Theorem unknown_graph_raises_before_store graph_id initial_state registry
    max_steps uuid w :
  graphs w !! graph_id = None →
  run_graph_once py_eval graph_id initial_state registry max_steps uuid w =
    (w, Raise (KeyError ("Graph '" +:+ graph_id +:+ "' not found"))).
Proof. intros Hnone. unfold run_graph_once. by rewrite Hnone. Qed.

(** C6. When, after some passes, the current node id matches no node
    of the graph, the call returns a run state (it does not raise):
    the status is FAILED, one entry naming the missing node is appended
    to the log accumulated so far, with a snapshot of the state, and
    nothing runs after it: the state and the heap are as the last pass
    left them.  The stored record is the returned one. *)
Theorem missing_node_fails_run graph_id initial_state registry max_steps
    uuid w graph k c :
  graphs w !! graph_id = Some graph →
  passes py_eval graph registry k
    (start_frame graph graph_id initial_state uuid w) = Some c →
  k < Z.to_nat max_steps →
  find_node graph (f_current c) = None →
  ∃ w' rs snapshot,
    run_graph_once py_eval graph_id initial_state registry max_steps uuid w
      = (w', Ok rs) ∧
    status rs = FAILED ∧
    logs rs =
      logs (f_run_state c) ++ [missing_entry (f_current c) snapshot] ∧
    message (missing_entry (f_current c) snapshot)
      = Some ("Node '" +:+ f_current c +:+ "' not found in graph") ∧
    deref (dicts w') snapshot = frame_state c ∧
    deref (dicts w') (state rs) = frame_state c ∧
    length (logs (f_run_state c)) = k ∧
    Forall is_executed_entry (logs (f_run_state c)) ∧
    heap w' = f_heap c ∧
    runs w' !! uuid = Some rs.
Proof.
  intros Hgraph Hreach Hk Hnode.
  rewrite (run_graph_once_found _ _ _ _ _ _ _ Hgraph).
  rewrite (loop_breaks _ _ _ _ _ _ _ _ Hreach Hk
             (loop_body_missing _ _ _ _ Hnode)).
  destruct (reach_running _ _ _ _ _ _ Hreach (start_frame_running _ _ _ _ _))
    as (_ & entries & Hlogs & Hlen & Hall).
  simpl in Hlogs. eexists _, _, (copy_snapshot c). split; [done|]. simpl.
  rewrite Hlogs, deref_insert_eq, copy_keeps_state, lookup_insert_eq.
  done.
Qed.

(** C10. When the tool invocation of a step raises (the registry does
    not know the tool name, the tool returned something that is not a
    dict, or the tool itself raised), the exception leaves
    [run_graph_once]; the record in the run store is the one the step
    started from: status RUNNING and the log accumulated so far, one
    executed-tool entry per earlier step and none for this one.  Its
    state holds what the tool left of it. *)
Theorem tool_exception_propagates graph_id initial_state registry max_steps
    uuid w graph k c node e st' h' :
  graphs w !! graph_id = Some graph →
  passes py_eval graph registry k
    (start_frame graph graph_id initial_state uuid w) = Some c →
  k < Z.to_nat max_steps →
  find_node graph (f_current c) = Some node →
  tool_invocation_raises registry (tool_name node)
    (frame_state c) (f_heap c) e st' h' →
  ∃ w',
    run_graph_once py_eval graph_id initial_state registry max_steps uuid w
      = (w', Raise e) ∧
    runs w' !! uuid = Some (f_run_state c) ∧
    status (f_run_state c) = RUNNING ∧
    length (logs (f_run_state c)) = k ∧
    Forall is_executed_entry (logs (f_run_state c)) ∧
    deref (dicts w') (state (f_run_state c)) = st' ∧
    heap w' = h'.
Proof.
  intros Hgraph Hreach Hk Hnode Htool%run_tool_raises_iff.
  rewrite (run_graph_once_found _ _ _ _ _ _ _ Hgraph).
  rewrite (loop_throws _ _ _ _ _ _ _ _ _ Hreach Hk
             (loop_body_raise _ _ _ _ _ _ _ _ Hnode Htool)).
  destruct (reach_running _ _ _ _ _ _ Hreach (start_frame_running _ _ _ _ _))
    as ([Hstatus _] & entries & Hlogs & Hlen & Hall).
  simpl in Hlogs. eexists. split; [done|]. simpl.
  rewrite lookup_insert_eq, Hlogs, deref_insert_eq. done.
Qed.

(** Under an invariant that makes every pass follow an edge, any number
    of passes can be made. *)
Lemma reach_invariant (Inv : Frame → Prop) graph registry :
  (∀ c, Inv c →
        ∃ c', loop_body py_eval graph registry c = Continue c' ∧ Inv c') →
  ∀ n c, Inv c →
         ∃ cn, passes py_eval graph registry n c = Some cn ∧ Inv cn.
Proof.
  intros Hstep n. induction n as [|n IH]; intros c Hc; simpl.
  - by exists c.
  - destruct (Hstep c Hc) as (c1 & -> & Hc1). by apply IH.
Qed.

(** C2 (as the code has it). When every pass follows an edge (the
    guards on a cycle never turn false), the run ends FAILED after
    exactly [max_steps] node executions, and the entry for the abort,
    with a snapshot of the final state, is appended after the
    [max_steps] executed-tool entries: the log has [max_steps + 1]
    entries. *)
Theorem step_limit_abort (Inv : Frame → Prop) graph_id initial_state registry
    max_steps uuid w graph :
  graphs w !! graph_id = Some graph →
  Inv (start_frame graph graph_id initial_state uuid w) →
  (∀ c, Inv c →
        ∃ c', loop_body py_eval graph registry c = Continue c' ∧ Inv c') →
  ∃ w' rs executed current snapshot,
    run_graph_once py_eval graph_id initial_state registry max_steps uuid w
      = (w', Ok rs) ∧
    status rs = FAILED ∧
    logs rs = executed ++ [abort_entry current snapshot] ∧
    message (abort_entry current snapshot)
      = Some "Max steps reached; aborting (possible infinite loop)" ∧
    deref (dicts w') snapshot = deref (dicts w') (state rs) ∧
    Forall is_executed_entry executed ∧
    length executed = Z.to_nat max_steps ∧
    length (logs rs) = Z.to_nat max_steps + 1.
Proof.
  intros Hgraph Hstart Hstep.
  destruct (reach_invariant Inv graph registry Hstep
              (Z.to_nat max_steps) _ Hstart) as (cn & Hreach & _).
  rewrite (run_graph_once_found _ _ _ _ _ _ _ Hgraph).
  rewrite (loop_exhausted _ _ _ _ _ _ Hreach), loop_else_eq.
  destruct (reach_running _ _ _ _ _ _ Hreach (start_frame_running _ _ _ _ _))
    as (_ & entries & Hlogs & Hlen & Hall).
  simpl in Hlogs.
  eexists _, _, entries, (f_current cn), (copy_snapshot cn).
  split; [done|]. simpl.
  rewrite Hlogs, length_app, deref_insert_eq, copy_keeps_state. simpl.
  repeat split; try done. lia.
Qed.

(** C7 (as the code has it). A run that is returned is COMPLETED with
    the current node id cleared, or FAILED with the current node id
    still set: it is the id of the node the run stopped at, the one
    named by the last log entry. *)
Theorem terminal_current_node graph_id initial_state registry max_steps
    uuid w w' rs :
  run_graph_once py_eval graph_id initial_state registry max_steps uuid w
    = (w', Ok rs) →
  (status rs = COMPLETED ∧ current_node_id rs = None)
  ∨ (status rs = FAILED ∧
     ∃ stopped entry,
       current_node_id rs = Some stopped ∧
       last (logs rs) = Some entry ∧
       node_id entry = stopped).
Proof.
  destruct (graphs w !! graph_id) as [graph|] eqn:Hgraph.
  - rewrite (run_graph_once_found _ _ _ _ _ _ _ Hgraph).
    destruct (for_range _ _ _ _ _) as [c'|e c'] eqn:Hloop; [|done].
    intros [= _ <-].
    apply loop_finished_inv in Hloop
      as [(cn & Hreach & ->)|(k & ck & _ & Hreach & Hbreak)].
    + destruct (reach_running _ _ _ _ _ _ Hreach
                  (start_frame_running _ _ _ _ _)) as ([_ Hcur] & _).
      rewrite loop_else_eq.
      right. split; [done|]. simpl. rewrite last_snoc.
      by eexists _, _.
    + destruct (reach_running _ _ _ _ _ _ Hreach
                  (start_frame_running _ _ _ _ _)) as ([_ Hcur] & _).
      apply body_break_inv in Hbreak
        as [(_ & ->)
           |(node & st1 & h1 & tool_result & st2 & h2 & _ & _ & _ & ->)].
      * right. split; [done|]. simpl. rewrite last_snoc.
        by eexists _, _.
      * by left.
  - unfold run_graph_once. by rewrite Hgraph.
Qed.

(** C8 (as the code has it). The snapshot of the entry a step appends
    is a shallow copy of the run state: a new mapping object, not the
    state mapping itself, that holds the bindings the state has right
    after that step's merge.  Whatever is done to the run state
    afterwards (the guards of this step, and the tools, merges and
    guards of the later steps, rebinding or deleting its keys), that
    entry, and every entry appended before it, stays in the log at its
    index and its snapshot keeps the bindings it was taken with. *)
Theorem snapshot_is_shallow_copy graph registry c node st1 h1 tool_result n :
  frame_wf c →
  find_node graph (f_current c) = Some node →
  ToolRegistry.run_tool registry (tool_name node) (frame_state c) (f_heap c)
    = Leaves st1 h1 (Ok tool_result) →
  (∃ entry,
     logs (f_run_state (end_frame (for_range py_eval graph registry (S n) c)))
       !! length (logs (f_run_state c)) = Some entry ∧
     node_id entry = NodeDefinition_id node ∧
     (state_snapshot entry ∉ dom (f_dicts c)) ∧
     state_snapshot entry
       ≠ state (f_run_state
                  (end_frame (for_range py_eval graph registry (S n) c))) ∧
     deref (f_dicts (end_frame (for_range py_eval graph registry (S n) c)))
       (state_snapshot entry) = dict_update st1 tool_result)
  ∧ ∀ i earlier,
      logs (f_run_state c) !! i = Some earlier →
      logs (f_run_state (end_frame (for_range py_eval graph registry (S n) c)))
        !! i = Some earlier ∧
      deref (f_dicts (end_frame (for_range py_eval graph registry (S n) c)))
        (state_snapshot earlier)
        = deref (f_dicts c) (state_snapshot earlier).
Proof.
  intros Hwf Hnode Htool. split.
  - exists (executed_entry node (step_snapshot c)).
    destruct (body_after_tool _ _ _ _ _ _ _ Hnode Htool)
      as (Hlogs & Hdicts & _).
    pose proof (body_record py_eval graph registry c) as (Hloc & _).
    pose proof (loop_record py_eval graph registry (S n) c) as (Hend & _).
    assert (∃ c1,
              flow_frame (loop_body py_eval graph registry c) = c1 ∧
              (end_frame (for_range py_eval graph registry (S n) c) = c1
               ∨ end_frame (for_range py_eval graph registry (S n) c)
                 = end_frame (for_range py_eval graph registry n c1)))
      as (c1 & Hc1 & Hcases).
    { simpl. destruct (loop_body py_eval graph registry c);
        eexists; (split; [done|]); auto. }
    rewrite Hc1 in Hlogs, Hdicts, Hloc.
    split; [|split; [done|split; [apply step_snapshot_fresh|split]]].
    + destruct Hcases as [->| ->].
      * rewrite Hlogs. by apply list_lookup_middle.
      * destruct (loop_logs_prefix py_eval graph registry n c1) as [rest ->].
        rewrite Hlogs, <- app_assoc. by apply list_lookup_middle.
    + rewrite Hend. apply step_snapshot_not_state.
    + assert (deref (f_dicts c1) (step_snapshot c)
              = dict_update st1 tool_result) as Hhere
        by (rewrite Hdicts; apply step_dicts_snapshot).
      destruct Hcases as [->| ->]; [done|].
      unfold deref in *. simpl.
      rewrite loop_dicts_kept; [done| |].
      * rewrite Hdicts. apply step_dicts_dom. auto.
      * rewrite Hloc. apply step_snapshot_not_state.
  - intros i earlier Hearlier.
    split; [by eapply prefix_lookup_Some, loop_logs_prefix|].
    destruct Hwf as [_ Hlogs].
    destruct (Hlogs earlier) as [Hin Hne];
      [by eapply list_elem_of_lookup_2|].
    unfold deref. by rewrite loop_dicts_kept.
Qed.

(** *** Two runs *)





(** The loop reads of a frame the current node, the bindings of the
    state and the heap, and nothing else: neither the run id, nor the
    references of the mapping objects, nor what else the store holds.
    Frames that are alike in these go the same way. *)
Lemma frame_state_of current run_state ds h :
  frame_state {| f_current := current; f_run_state := run_state;
                 f_dicts := ds; f_heap := h |}
    = deref ds (state run_state).
Proof. done. Qed.




(** *** Exceptions that leave the loop body *)

(** An exception leaves the loop body from the tool invocation, or from
    a guard that raised something outside [Exception] after the entry
    for the executed tool was logged. *)
Lemma loop_body_throw_cases graph registry c e c' :
  loop_body py_eval graph registry c = Throw e c' →
  ∃ node,
    find_node graph (f_current c) = Some node ∧
    ((∃ st' h',
        tool_invocation_raises registry (tool_name node) (frame_state c)
          (f_heap c) e st' h' ∧
        f_run_state c' = f_run_state c ∧
        frame_state c' = st' ∧ f_heap c' = h')
     ∨ (is_Exception e = false ∧
        ∃ st1 h1 tool_result before edge after st3 h3,
          ToolRegistry.run_tool registry (tool_name node) (frame_state c)
            (f_heap c) = Leaves st1 h1 (Ok tool_result) ∧
          candidates_of graph (f_current c) = before ++ edge :: after ∧
          passed_over py_eval before (dict_update st1 tool_result) h1
            st3 h3 ∧
          edge_escapes py_eval st3 h3 edge e (frame_state c') (f_heap c') ∧
          f_run_state c' = step_logged c node)).
Proof.
  intros (node & Hnode & Hcases)%body_throw_inv. exists node.
  split; [done|].
  destruct Hcases
    as [(st1 & h1 & Htool & ->)
       |(st1 & h1 & tool_result & st2 & h2 & Htool & Hres & ->)].
  - left. exists st1, h1. unfold frame_state. simpl.
    rewrite deref_insert_eq. by apply run_tool_raises_iff in Htool.
  - right.
    destruct (find_next_edge_Raise py_eval graph (f_current c)
                (dict_update st1 tool_result) h1 e)
      as (Hexc & before & edge & after & st3 & h3 & Hsplit & Hover & Hesc).
    { by rewrite Hres. }
    rewrite Hres in Hesc. simpl in Hesc.
    split; [done|].
    exists st1, h1, tool_result, before, edge, after, st3, h3.
    unfold frame_state. simpl. rewrite step_dicts_state. done.
Qed.

(** C4 (as the code has it). An edge whose guard raises an [Exception]
    when it is evaluated counts as not matching: resolution goes on
    with the candidates declared after it, on the state the failed
    evaluation left, so the next candidate is returned when it is
    eligible, and none is returned when there is no candidate left.  An
    exception outside [Exception] is not caught: it leaves resolution.
    At the level of a step: an [Exception] that leaves the loop body is
    the one the tool invocation raised; a guard lets out only
    exceptions outside [Exception]. *)
Theorem guard_error_skips_edge graph current before edge after st h st1 h1
    exc st2 h2 :
  candidates_of graph current = before ++ edge :: after →
  passed_over py_eval before st h st1 h1 →
  guard_raises py_eval st1 h1 edge exc st2 h2 →
  (if is_Exception exc
   then
     _find_next_edge py_eval graph current st h
       = first_passing py_eval after st2 h2 ∧
     (∀ next rest st3 h3,
        after = next :: rest →
        edge_taken py_eval st2 h2 next st3 h3 →
        _find_next_edge py_eval graph current st h
          = Leaves st3 h3 (Ok (Some next))) ∧
     (after = [] →
      _find_next_edge py_eval graph current st h = Leaves st2 h2 (Ok None))
   else
     _find_next_edge py_eval graph current st h = Leaves st2 h2 (Raise exc))
  ∧ ∀ registry c e c',
      loop_body py_eval graph registry c = Throw e c' →
      ∃ node,
        find_node graph (f_current c) = Some node ∧
        ((∃ st' h',
            tool_invocation_raises registry (tool_name node)
              (frame_state c) (f_heap c) e st' h')
         ∨ (is_Exception e = false ∧
            ∃ guarded st3 h3,
              guarded ∈ candidates_of graph (f_current c) ∧
              edge_escapes py_eval st3 h3 guarded e
                (frame_state c') (f_heap c'))).
Proof.
  intros Hsplit Hover Hraises. split.
  - rewrite find_next_edge_filter, Hsplit.
    rewrite (first_passing_over _ _ _ _ _ _ _ Hover).
    destruct (is_Exception exc) eqn:Hexc.
    + assert (edge_passed py_eval st1 h1 edge st2 h2) as Hpassed
        by (right; by exists exc).
      rewrite (first_passing_passed _ _ _ _ _ _ _ Hpassed).
      split; [done|]. split.
      * intros next rest st3 h3 -> Htaken.
        by apply first_passing_taken.
      * by intros ->.
    + by apply first_passing_escapes.
  - intros registry c e c' Hthrow.
    destruct (loop_body_throw_cases _ _ _ _ _ Hthrow)
      as (node & Hnode & [(st' & h' & Htool & _)|(Hexc & Hguard)]);
      exists node; (split; [done|]).
    + left. by exists st', h'.
    + right. split; [done|].
      destruct Hguard as (st3 & h3 & tool_result & before' & guarded & after'
                          & st4 & h4 & _ & Hsplit' & _ & Hesc & _).
      exists guarded, st4, h4. split; [|done].
      rewrite Hsplit'. apply elem_of_app. right. by left.
Qed.

End RunGraphOnce.

(** ** The example runs *)

Import Examples.
Import Samples.

(** The scenario of the linear graph: three entries, COMPLETED, no
    current node. *)
Example linear_run_completes :
  ∃ w' rs,
    run_graph_once example_eval "linear" ∅ example_registry 100 "run-1"
      example_world = (w', Ok rs) ∧
    status rs = COMPLETED ∧ current_node_id rs = None ∧
    node_id <$> logs rs = ["A"; "B"; "C"] ∧
    deref (dicts w') (state rs) = {[ "x" := VInt 1 ]}.
Proof.
  exists linear_result.1, linear_run.
  split; [vm_compute; reflexivity|by vm_compute].
Qed.

(** Resolution is one pass in declared order: an unguarded edge wins
    over a later edge whose guard holds. *)
Example unguarded_edge_declared_first_wins :
  _find_next_edge example_eval default_first_graph "A"
    {[ "counter" := VInt 1 ]} ∅
  = Leaves {[ "counter" := VInt 1 ]} ∅ (Ok (Some (edge "A" "B" None))).
Proof. reflexivity. Qed.

(** A guard that raises a [KeyError] is passed over for the edge
    declared next. *)
Example faulty_guard_falls_through :
  _find_next_edge example_eval faulty_guard_graph "A" ∅ ∅
    = Leaves ∅ ∅ (Ok (Some (edge "A" "C" None))).
Proof. reflexivity. Qed.

(** A guard that raises [SystemExit] is not passed over. *)
Example exiting_guard_gets_out :
  _find_next_edge example_eval exiting_guard_graph "A" ∅ ∅
    = Leaves ∅ ∅ (Raise SystemExit).
Proof. reflexivity. Qed.

(** A guard works on the state mapping itself: what it unbinds is gone
    from the state the run goes on with. *)
Example guard_rewrites_state :
  _find_next_edge example_eval flag_graph "A" {[ "flag" := VBool true ]} ∅
    = Leaves ∅ ∅ (Ok (Some (edge "A" "B" (Some "state.pop('flag', False)")))).
Proof. reflexivity. Qed.

Example suggest_improvements_example :
  Workflows.tool_suggest_improvements
    {[ "complexity_score" := VInt 12; "issue_count" := VInt 1 ]} ∅
  = Leaves {[ "complexity_score" := VInt 12; "issue_count" := VInt 1 ]} ∅
      (Ok (ReturnsDict
         {[ "suggestions" :=
              VList [VStr "Break complex logic into smaller functions.";
                     VStr "Address the reported style/formatting issues.";
                     VStr "Consider structuring code into separate functions."];
            "quality_score" := VInt 30 ]})).
Proof. by vm_compute. Qed.

Lemma eval_counter_guard st h n :
  st !! "counter" = Some (VInt n) →
  example_eval "state['counter'] >= 0" st h
    = Leaves st h (Ok (VBool (0 <=? n)%Z)).
Proof.
  intros Hn. unfold example_eval. rewrite String.eqb_refl.
  unfold subscript_compare. by rewrite Hn.
Qed.

Lemma run_tool_increment st h n :
  as_int (default (VInt 0) (st !! "counter")) = Some n →
  ToolRegistry.run_tool example_registry "increment" st h
    = Leaves st h (Ok {[ "counter" := VInt (n + 1) ]}).
Proof.
  intros Hn. unfold ToolRegistry.run_tool, ToolRegistry.get.
  change (example_registry !! "increment") with (Some tool_increment).
  unfold tool_increment. by rewrite Hn.
Qed.

Lemma self_loop_resolves st h n :
  (0 ≤ n)%Z → st !! "counter" = Some (VInt n) →
  _find_next_edge example_eval self_loop_graph "loop" st h
    = Leaves st h
        (Ok (Some (edge "loop" "loop" (Some "state['counter'] >= 0")))).
Proof.
  intros Hn Hcounter. rewrite find_next_edge_filter.
  change (candidates_of self_loop_graph "loop")
    with [edge "loop" "loop" (Some "state['counter'] >= 0")].
  apply first_passing_taken. exists (VBool (0 <=? n)%Z).
  split; [by apply eval_counter_guard|]. by apply Z.leb_le.
Qed.

(** The guard of the self loop never turns false. *)
Lemma self_loop_continues c :
  counter_ok c →
  ∃ c', loop_body example_eval self_loop_graph example_registry c
          = Continue c' ∧ counter_ok c'.
Proof.
  intros [Hcur Hcounter].
  assert (∃ n, (0 ≤ n)%Z ∧
               as_int (default (VInt 0) (frame_state c !! "counter"))
                 = Some n) as (n & Hn & Hint).
  { destruct Hcounter as [->|(n & Hn & ->)]; [by exists 0%Z|by exists n]. }
  assert (find_node self_loop_graph (f_current c)
            = Some (node "loop" "increment")) as Hnode
    by by rewrite Hcur.
  rewrite (loop_body_ok _ _ _ _ _ _ _ _ Hnode (run_tool_increment _ _ _ Hint)).
  cbv zeta. rewrite Hcur.
  assert (dict_update (frame_state c) {[ "counter" := VInt (n + 1) ]}
            !! "counter" = Some (VInt (n + 1))) as Hmerged.
  { rewrite dict_update_lookup. by rewrite lookup_singleton_eq. }
  rewrite (self_loop_resolves _ _ (n + 1)) by (lia || done). simpl.
  eexists. split; [done|]. split; [done|]. right. exists (n + 1)%Z.
  split; [lia|]. rewrite frame_state_of. simpl.
  by rewrite step_dicts_state.
Qed.





Lemma step_limit_abort_witness :
  ∃ w' rs executed current snapshot,
    run_graph_once example_eval "self_loop" ∅ example_registry 5 "run-1"
      example_world = (w', Ok rs) ∧
    status rs = FAILED ∧
    logs rs = executed ++ [abort_entry current snapshot] ∧
    message (abort_entry current snapshot)
      = Some "Max steps reached; aborting (possible infinite loop)" ∧
    deref (dicts w') snapshot = deref (dicts w') (state rs) ∧
    Forall is_executed_entry executed ∧
    length executed = Z.to_nat 5 ∧
    length (logs rs) = Z.to_nat 5 + 1.
Proof.
  apply (step_limit_abort example_eval counter_ok "self_loop" ∅
           example_registry 5 "run-1" example_world self_loop_graph).
  - reflexivity.
  - split; [reflexivity|left; reflexivity].
  - exact self_loop_continues.
Defined.

(** C2, as stated, fails on the self loop: with [max_steps = 5] the run
    ends FAILED with six log entries, not five. *)
Lemma self_loop_log_length_not_5 :
  ¬ ∃ w' rs,
      run_graph_once example_eval "self_loop" ∅ example_registry 5 "run-1"
        example_world = (w', Ok rs) ∧
      status rs = FAILED ∧
      length (logs rs) = 5.
Proof.
  intros (w' & rs & Hrun & _ & Hlen).
  assert (match
            (run_graph_once example_eval "self_loop" ∅ example_registry 5
               "run-1" example_world).2
          with
          | Ok rs => length (logs rs)
          | Raise _ => 0
          end = 6) as Hsix by (vm_compute; reflexivity).
  rewrite Hrun in Hsix. simpl in Hsix. lia.
Qed.

Lemma tool_result_merge_right_biased_witness :
  (∃ c' entry,
     flow_frame (loop_body example_eval linear_graph example_registry
                   frame_at_B) = c' ∧
     logs (f_run_state c') = logs (f_run_state frame_at_B) ++ [entry] ∧
     node_id entry = NodeDefinition_id (node "B" "set_x") ∧
     (∀ key,
        deref (f_dicts c') (state_snapshot entry) !! key =
          match ({[ "x" := VInt 1 ]} : Dict) !! key with
          | Some v => Some v
          | None => ({[ "x" := VInt 0; "y" := VInt 2 ]} : Dict) !! key
          end) ∧
     frame_state c'
       = left_state
           (_find_next_edge example_eval linear_graph (f_current frame_at_B)
              (dict_update {[ "x" := VInt 0; "y" := VInt 2 ]}
                 {[ "x" := VInt 1 ]}) ∅) ∧
     (guards_read_only example_eval
        (candidates_of linear_graph (f_current frame_at_B)) →
      ∀ key,
        frame_state c' !! key =
          match ({[ "x" := VInt 1 ]} : Dict) !! key with
          | Some v => Some v
          | None => ({[ "x" := VInt 0; "y" := VInt 2 ]} : Dict) !! key
          end))
  ∧ dict_update {[ "x" := VInt 0; "y" := VInt 2 ]} {[ "x" := VInt 1 ]}
      = ({[ "x" := VInt 1; "y" := VInt 2 ]} : Dict).
Proof.
  apply (tool_result_merge_right_biased example_eval linear_graph
           example_registry frame_at_B (node "B" "set_x")
           {[ "x" := VInt 0; "y" := VInt 2 ]} ∅ {[ "x" := VInt 1 ]}).
  - reflexivity.
  - reflexivity.
Defined.

(** C4, as stated, fails when the guard raises [SystemExit]: the edge
    from A to C, declared next and without a guard, is never tried, and
    the run is aborted: [run_graph_once] raises, and the record it
    leaves in the store is still RUNNING. *)
Lemma guard_system_exit_aborts_run :
  candidates_of exiting_guard_graph "A"
    = [edge "A" "B" (Some "__import__('sys').exit()"); edge "A" "C" None]
  ∧ guard_raises example_eval ∅ ∅
      (edge "A" "B" (Some "__import__('sys').exit()")) SystemExit ∅ ∅
  ∧ ¬ (∃ w' rs,
         run_graph_once example_eval "exiting_guard" ∅ example_registry 100
           "run-1" example_world = (w', Ok rs))
  ∧ (run_graph_once example_eval "exiting_guard" ∅ example_registry 100
       "run-1" example_world).2 = Raise SystemExit
  ∧ status <$>
      runs (run_graph_once example_eval "exiting_guard" ∅ example_registry
              100 "run-1" example_world).1 !! "run-1" = Some RUNNING.
Proof.
  split; [reflexivity|]. split; [by eexists|].
  assert ((run_graph_once example_eval "exiting_guard" ∅ example_registry
             100 "run-1" example_world).2 = Raise SystemExit) as Hraise
    by (vm_compute; reflexivity).
  split; [|split; [exact Hraise|by vm_compute]].
  intros (w' & rs & Hrun). rewrite Hrun in Hraise. discriminate Hraise.
Qed.

Lemma guard_error_skips_edge_witness :
  (_find_next_edge example_eval faulty_guard_graph "A" ∅ ∅
     = first_passing example_eval [edge "A" "C" None] ∅ ∅ ∧
   (∀ next rest st3 h3,
      [edge "A" "C" None] = next :: rest →
      edge_taken example_eval ∅ ∅ next st3 h3 →
      _find_next_edge example_eval faulty_guard_graph "A" ∅ ∅
        = Leaves st3 h3 (Ok (Some next))) ∧
   ([edge "A" "C" None] = [] →
    _find_next_edge example_eval faulty_guard_graph "A" ∅ ∅
      = Leaves ∅ ∅ (Ok None)))
  ∧ ∀ registry c e c',
      loop_body example_eval faulty_guard_graph registry c = Throw e c' →
      ∃ node,
        find_node faulty_guard_graph (f_current c) = Some node ∧
        ((∃ st' h',
            tool_invocation_raises registry (tool_name node)
              (frame_state c) (f_heap c) e st' h')
         ∨ (is_Exception e = false ∧
            ∃ guarded st3 h3,
              guarded ∈ candidates_of faulty_guard_graph (f_current c) ∧
              edge_escapes example_eval st3 h3 guarded e
                (frame_state c') (f_heap c'))).
Proof.
  apply (guard_error_skips_edge example_eval faulty_guard_graph "A" []
           (edge "A" "B" (Some "state['missing'] > 0"))
           [edge "A" "C" None] ∅ ∅ ∅ ∅ (KeyError "'missing'") ∅ ∅).
  - reflexivity.
  - constructor.
  - exists "state['missing'] > 0". split; reflexivity.
Defined.

Lemma unknown_graph_raises_before_store_witness :
  run_graph_once example_eval "no_such_graph" ∅ example_registry 100 "run-1"
    example_world
  = (example_world, Raise (KeyError "Graph 'no_such_graph' not found")).
Proof.
  apply (unknown_graph_raises_before_store example_eval "no_such_graph" ∅
           example_registry 100 "run-1" example_world).
  reflexivity.
Defined.

Lemma missing_node_fails_run_witness :
  ∃ w' rs snapshot,
    run_graph_once example_eval "dangling" ∅ example_registry 100 "run-1"
      example_world = (w', Ok rs) ∧
    status rs = FAILED ∧
    logs rs =
      [executed_entry (node "A" "noop") 2%positive]
        ++ [missing_entry "ghost" snapshot] ∧
    message (missing_entry "ghost" snapshot)
      = Some "Node 'ghost' not found in graph" ∧
    deref (dicts w') snapshot
      = frame_state (frame_after_A "dangling" "run-1" "noop" "ghost" ∅) ∧
    deref (dicts w') (state rs)
      = frame_state (frame_after_A "dangling" "run-1" "noop" "ghost" ∅) ∧
    length [executed_entry (node "A" "noop") 2%positive] = 1 ∧
    Forall is_executed_entry [executed_entry (node "A" "noop") 2%positive] ∧
    heap w' = ∅ ∧
    runs w' !! "run-1" = Some rs.
Proof.
  apply (missing_node_fails_run example_eval "dangling" ∅ example_registry
           100 "run-1" example_world dangling_graph 1
           (frame_after_A "dangling" "run-1" "noop" "ghost" ∅)).
  - reflexivity.
  - vm_compute. reflexivity.
  - vm_compute. lia.
  - reflexivity.
Defined.

(** C7, as stated, fails on a run that stops at a missing node: the run
    is FAILED and its current node id is still the missing node's. *)
Lemma failed_run_keeps_current_node :
  ¬ ∀ w' rs,
      run_graph_once example_eval "dangling" ∅ example_registry 100 "run-1"
        example_world = (w', Ok rs) →
      status rs = COMPLETED ∨ status rs = FAILED →
      current_node_id rs = None.
Proof.
  intros Hall.
  specialize (Hall
    (run_graph_once example_eval "dangling" ∅ example_registry 100 "run-1"
       example_world).1 ghost_run).
  discriminate Hall; [by vm_compute|by right].
Qed.

Lemma terminal_current_node_witness :
  (status ghost_run = COMPLETED ∧ current_node_id ghost_run = None)
  ∨ (status ghost_run = FAILED ∧
     ∃ stopped entry,
       current_node_id ghost_run = Some stopped ∧
       last (logs ghost_run) = Some entry ∧
       node_id entry = stopped).
Proof.
  apply (terminal_current_node example_eval "dangling" ∅ example_registry
           100 "run-1" example_world
           (run_graph_once example_eval "dangling" ∅ example_registry 100
              "run-1" example_world).1
           ghost_run).
  vm_compute. reflexivity.
Defined.

Lemma tool_exception_propagates_witness :
  ∃ w',
    run_graph_once example_eval "unregistered" ∅ example_registry 100 "run-1"
      example_world
      = (w', Raise (KeyError "Tool 'nowhere' not found in registry")) ∧
    runs w' !! "run-1"
      = Some (f_run_state
                (frame_after_A "unregistered" "run-1" "set_x" "B"
                   {[ "x" := VInt 1 ]})) ∧
    status (f_run_state
              (frame_after_A "unregistered" "run-1" "set_x" "B"
                 {[ "x" := VInt 1 ]})) = RUNNING ∧
    length (logs (f_run_state
                    (frame_after_A "unregistered" "run-1" "set_x" "B"
                       {[ "x" := VInt 1 ]}))) = 1 ∧
    Forall is_executed_entry
      (logs (f_run_state
               (frame_after_A "unregistered" "run-1" "set_x" "B"
                  {[ "x" := VInt 1 ]}))) ∧
    deref (dicts w')
      (state (f_run_state
                (frame_after_A "unregistered" "run-1" "set_x" "B"
                   {[ "x" := VInt 1 ]})))
      = frame_state (frame_after_A "unregistered" "run-1" "set_x" "B"
                       {[ "x" := VInt 1 ]}) ∧
    heap w' = ∅.
Proof.
  apply (tool_exception_propagates example_eval "unregistered" ∅
           example_registry 100 "run-1" example_world
           (second_tool_graph "nowhere") 1
           (frame_after_A "unregistered" "run-1" "set_x" "B"
              {[ "x" := VInt 1 ]})
           (node "B" "nowhere")
           (KeyError "Tool 'nowhere' not found in registry")
           (frame_state (frame_after_A "unregistered" "run-1" "set_x" "B"
                           {[ "x" := VInt 1 ]})) ∅).
  - reflexivity.
  - vm_compute. reflexivity.
  - vm_compute. lia.
  - reflexivity.
  - apply raises_unregistered. reflexivity.
Defined.

(** C8, as stated, fails when a tool changes a nested value in place:
    the entry logged by the first pass shows [items = [1]] when it is
    appended and [items = [1, 1]] after the second pass. *)
Lemma snapshot_shares_nested_list :
  ¬ ∀ c1 c2 entry,
      passes example_eval append_graph example_registry 1 append_start
        = Some c1 →
      passes example_eval append_graph example_registry 2 append_start
        = Some c2 →
      logs (f_run_state c1) !! 0 = Some entry →
      shown_snapshot c2 entry = shown_snapshot c1 entry.
Proof.
  intros Hall.
  specialize (Hall
    (default append_start
       (passes example_eval append_graph example_registry 1 append_start))
    (default append_start
       (passes example_eval append_graph example_registry 2 append_start))
    (executed_entry (node "grow" "append_item") 2%positive)).
  apply (f_equal (λ shown, shown !! "items")) in Hall;
    [|by vm_compute..].
  vm_compute in Hall. discriminate Hall.
Qed.

Lemma append_start_wf : frame_wf append_start.
Proof. apply start_frame_wf. Qed.

Lemma snapshot_is_shallow_copy_witness :
  (∃ entry,
     logs (f_run_state
             (end_frame
                (for_range example_eval append_graph example_registry 2
                   append_start)))
       !! length (logs (f_run_state append_start)) = Some entry ∧
     node_id entry = NodeDefinition_id (node "grow" "append_item") ∧
     (state_snapshot entry ∉ dom (f_dicts append_start)) ∧
     state_snapshot entry
       ≠ state (f_run_state
                  (end_frame
                     (for_range example_eval append_graph example_registry 2
                        append_start))) ∧
     deref (f_dicts
              (end_frame
                 (for_range example_eval append_graph example_registry 2
                    append_start)))
       (state_snapshot entry) = dict_update items_state ∅)
  ∧ ∀ i earlier,
      logs (f_run_state append_start) !! i = Some earlier →
      logs (f_run_state
              (end_frame
                 (for_range example_eval append_graph example_registry 2
                    append_start)))
        !! i = Some earlier ∧
      deref (f_dicts
               (end_frame
                  (for_range example_eval append_graph example_registry 2
                     append_start)))
        (state_snapshot earlier)
        = deref (f_dicts append_start) (state_snapshot earlier).
Proof.
  apply (snapshot_is_shallow_copy example_eval append_graph example_registry
           append_start (node "grow" "append_item") items_state
           {[ 1%positive := OList [VInt 1] ]} ∅ 1).
  - exact append_start_wf.
  - reflexivity.
  - vm_compute. reflexivity.
Defined.


(** Nor can the tools be left to act outside the state: with the tool
    that draws from the random generator and no guard at all, the first
    of two runs from the empty state ends with [draw] true, the second
    with [draw] false. *)
Example impure_tool_runs_differ :
  pure_guards example_eval (edges draw_graph)
  ∧ ¬ same_outcome
        (run_graph_once example_eval "draw" ∅ draw_registry 100 "run-1"
           draw_world)
        (run_graph_once example_eval "draw" ∅ draw_registry 100 "run-2"
           (run_graph_once example_eval "draw" ∅ draw_registry 100 "run-1"
              draw_world).1).
Proof.
  split.
  { intros e cond He. by apply elem_of_nil in He. }
  intros Hsame.
  assert (match
            (run_graph_once example_eval "draw" ∅ draw_registry 100 "run-1"
               draw_world),
            (run_graph_once example_eval "draw" ∅ draw_registry 100 "run-2"
               (run_graph_once example_eval "draw" ∅ draw_registry 100
                  "run-1" draw_world).1)
          with
          | (w1, Ok rs1), (w2, Ok rs2) =>
              deref (dicts w1) (state rs1) !! "draw" = Some (VBool true) ∧
              deref (dicts w2) (state rs2) !! "draw" = Some (VBool false)
          | _, _ => False
          end) as Hruns by (vm_compute; done).
  unfold same_outcome in Hsame.
  destruct (run_graph_once example_eval "draw" ∅ draw_registry 100 "run-1"
              draw_world) as [w1 [rs1|]]; [|done].
  destruct (run_graph_once example_eval "draw" ∅ draw_registry 100 "run-2"
              _) as [w2 [rs2|]]; [|done].
  simpl in Hsame. destruct Hsame as [_ Hstate], Hruns as [H1 H2].
  rewrite Hstate, H2 in H1. discriminate H1.
Qed.


(** ** Further properties of the engine *)

Section EngineFacts.

Variable py_eval : string → Dict → Heap → Effect (Result Value).

Lemma find_node_id graph current node :
  find_node graph current = Some node → NodeDefinition_id node = current.
Proof.
  intros [_ Heq]%List.find_some. by apply String.eqb_eq.
Qed.

Lemma find_node_elem graph current node :
  find_node graph current = Some node → node ∈ nodes graph.
Proof.
  intros [Hin _]%List.find_some. by apply list_elem_of_In.
Qed.

Lemma find_node_undeclared graph current :
  (∀ n, n ∈ nodes graph → NodeDefinition_id n ≠ current) →
  find_node graph current = None.
Proof.
  unfold find_node. induction (nodes graph) as [|n ns IH]; simpl; [done|].
  intros Hundeclared.
  rewrite (proj2 (String.eqb_neq _ _) (Hundeclared n (list_elem_of_here _ _))).
  apply IH. intros m Hm. apply Hundeclared. by right.
Qed.

(** Declared nodes are looked up by id in declaration order: the node
    found is the first one declared with that id, so a later node with
    the same id is never run; no node is found exactly when no declared
    node has the id. *)
Theorem find_node_first_declared graph current :
  match find_node graph current with
  | Some node =>
      ∃ before after,
        nodes graph = before ++ node :: after ∧
        NodeDefinition_id node = current ∧
        ∀ n, n ∈ before → NodeDefinition_id n ≠ current
  | None => ∀ n, n ∈ nodes graph → NodeDefinition_id n ≠ current
  end.
Proof.
  unfold find_node. induction (nodes graph) as [|n ns IH]; simpl.
  - intros n Hn. by apply elem_of_nil in Hn.
  - destruct (String.eqb (NodeDefinition_id n) current) eqn:Heq.
    + apply String.eqb_eq in Heq. exists [], ns. repeat split; [done|].
      intros m Hm. by apply elem_of_nil in Hm.
    + apply String.eqb_neq in Heq.
      destruct (List.find _ ns) as [node|].
      * destruct IH as (before & after & -> & Hid & Hbefore).
        exists (n :: before), after. repeat split; [done|].
        intros m [->|Hm]%elem_of_cons; [done|]. by apply Hbefore.
      * intros m [->|Hm]%elem_of_cons; [done|]. by apply IH.
Qed.

Lemma first_passing_shadow before edge after st h :
  condition edge = None →
  first_passing py_eval (before ++ edge :: after) st h
    = first_passing py_eval (before ++ [edge]) st h
  ∧ ((∃ next,
        outcome (first_passing py_eval (before ++ edge :: after) st h)
          = Ok (Some next))
     ∨ (∃ exc,
          outcome (first_passing py_eval (before ++ edge :: after) st h)
            = Raise exc ∧ is_Exception exc = false)).
Proof.
  intros Hcond. revert st h.
  induction before as [|e before IH]; intros st h; simpl app.
  - simpl. rewrite Hcond. split; [done|]. left. by exists edge.
  - destruct (edge_cases py_eval st h e)
      as [(st' & h' & He)|[(st' & h' & He)|(exc & st' & h' & He)]].
    + rewrite !(first_passing_taken _ _ _ _ _ _ _ He).
      split; [done|]. left. by exists e.
    + rewrite !(first_passing_passed _ _ _ _ _ _ _ He). apply IH.
    + rewrite !(first_passing_escapes _ _ _ _ _ _ _ _ He).
      split; [done|]. right. exists exc. by destruct He.
Qed.

(** An edge without a guard shadows every edge declared after it: the
    edges after it can be dropped without changing what resolution
    does for its source node, and resolution for that node never
    returns none: it returns an edge, unless a guard declared before
    raises an exception outside [Exception]. *)
Theorem unguarded_edge_shadows_later graph before edge after st h :
  edges graph = before ++ edge :: after →
  condition edge = None →
  _find_next_edge py_eval graph (source edge) st h
    = _find_next_edge py_eval (with_edges graph (before ++ [edge]))
        (source edge) st h
  ∧ ((∃ next,
        outcome (_find_next_edge py_eval graph (source edge) st h)
          = Ok (Some next))
     ∨ (∃ exc,
          outcome (_find_next_edge py_eval graph (source edge) st h)
            = Raise exc ∧ is_Exception exc = false)).
Proof.
  intros Hedges Hcond.
  rewrite !find_next_edge_filter. unfold candidates_of.
  rewrite Hedges. simpl.
  rewrite !filter_app, !filter_cons, !decide_True by done.
  rewrite filter_nil.
  by apply first_passing_shadow.
Qed.

End EngineFacts.

Section RunFacts.

Variable py_eval : string → Dict → Heap → Effect (Result Value).

(** The world after a run of a graph that is in the graph store. *)
Lemma run_graph_once_store graph_id initial_state registry max_steps uuid
    w graph :
  graphs w !! graph_id = Some graph →
  (run_graph_once py_eval graph_id initial_state registry max_steps uuid w).1
    = {| graphs := graphs w;
         runs :=
           <[uuid :=
               f_run_state
                 (end_frame
                    (for_range py_eval graph registry (Z.to_nat max_steps)
                       (start_frame graph graph_id initial_state uuid w)))]>
             (runs w);
         dicts :=
           f_dicts
             (end_frame
                (for_range py_eval graph registry (Z.to_nat max_steps)
                   (start_frame graph graph_id initial_state uuid w)));
         heap :=
           f_heap
             (end_frame
                (for_range py_eval graph registry (Z.to_nat max_steps)
                   (start_frame graph graph_id initial_state uuid w))) |}.
Proof.
  intros Hgraph. rewrite (run_graph_once_found _ _ _ _ _ _ _ _ Hgraph).
  by destruct (for_range _ _ _ _ _).
Qed.

Lemma deref_kept (ds ds' : Dicts) l : ds' !! l = ds !! l → deref ds' l = deref ds l.
Proof. unfold deref. by intros ->. Qed.


Lemma run_ok_stored gid initial_state registry max_steps uuid w w' rs :
  run_graph_once py_eval gid initial_state registry max_steps uuid w
    = (w', Ok rs) →
  run_id rs = uuid ∧ runs w' !! uuid = Some rs.
Proof.
  destruct (graphs w !! gid) as [graph|] eqn:Hgraph.
  - rewrite (run_graph_once_found _ _ _ _ _ _ _ _ Hgraph).
    pose proof (loop_record py_eval graph registry (Z.to_nat max_steps)
                  (start_frame graph gid initial_state uuid w))
      as (_ & Hrun & _).
    destruct (for_range _ _ _ _ _) as [c'|e c']; [|done].
    intros [= <- <-]. simpl in *. by rewrite lookup_insert_eq.
  - unfold run_graph_once. by rewrite Hgraph.
Qed.

(** The record a run returns carries the drawn run id and the graph id
    it was asked to run, and it is the record the run store holds under
    that run id; a record that was there under the same id is
    replaced. *)
Theorem returned_run_is_stored gid initial_state registry max_steps
    uuid w w' rs :
  run_graph_once py_eval gid initial_state registry max_steps uuid w
    = (w', Ok rs) →
  run_id rs = uuid ∧ graph_id rs = gid ∧ runs w' !! uuid = Some rs ∧
  (status rs = COMPLETED ∨ status rs = FAILED).
Proof.
  destruct (graphs w !! gid) as [graph|] eqn:Hgraph.
  - rewrite (run_graph_once_found _ _ _ _ _ _ _ _ Hgraph).
    pose proof (loop_record py_eval graph registry (Z.to_nat max_steps)
                  (start_frame graph gid initial_state uuid w))
      as (_ & Hrun & Hgid).
    destruct (for_range _ _ _ _ _) as [c'|e c'] eqn:Hloop; [|done].
    intros [= <- <-]. simpl in *. rewrite lookup_insert_eq.
    repeat split; try done.
    apply loop_finished_inv in Hloop
      as [(cn & _ & ->)|(k & ck & _ & _ & Hbreak)]; [by right|].
    apply body_break_inv in Hbreak
      as [(_ & ->)
         |(node & st1 & h1 & tool_result & st2 & h2 & _ & _ & _ & ->)];
      [by right|by left].
  - unfold run_graph_once. by rewrite Hgraph.
Qed.

(** With a step limit that is not positive nothing is looked up or run:
    the run fails at once with the abort entry alone, on the start node
    id and with a snapshot of the initial state, whatever the graph
    declares.  The state is a new mapping with the bindings of the
    initial state, the snapshot another one. *)
Theorem no_steps_aborts_at_once graph_id initial_state registry max_steps
    uuid w graph :
  graphs w !! graph_id = Some graph →
  (max_steps ≤ 0)%Z →
  ∃ rs snapshot,
    run_graph_once py_eval graph_id initial_state registry max_steps uuid w
      = ({| graphs := graphs w; runs := <[uuid := rs]> (runs w);
            dicts :=
              <[snapshot := initial_state]>
                (<[state rs := initial_state]> (dicts w));
            heap := heap w |}, Ok rs) ∧
    rs = {| run_id := uuid; graph_id := graph_id; status := FAILED;
            current_node_id := Some (start_node_id graph);
            state := state rs;
            logs := [abort_entry (start_node_id graph) snapshot] |} ∧
    (state rs ∉ dom (dicts w)) ∧
    (snapshot ∉ dom (dicts w)) ∧
    snapshot ≠ state rs.
Proof.
  intros Hgraph Hmax. rewrite (run_graph_once_found _ _ _ _ _ _ _ _ Hgraph).
  replace (Z.to_nat max_steps) with 0 by lia.
  simpl for_range. rewrite loop_else_eq, start_frame_state.
  set (c0 := start_frame graph graph_id initial_state uuid w).
  pose proof (copy_snapshot_fresh c0) as Hfresh.
  exists (logs_append (abort_entry (f_current c0) (copy_snapshot c0))
            (set_status FAILED (f_run_state c0))), (copy_snapshot c0).
  split; [reflexivity|]. simpl.
  split; [done|].
  split; [apply (new_dict_fresh initial_state (dicts w))|].
  simpl in Hfresh. rewrite dom_insert_L in Hfresh.
  apply not_elem_of_union in Hfresh as [Hstate Hdom].
  split; [done|]. intros Heq. apply Hstate. by apply elem_of_singleton.
Qed.

Lemma linked_snoc graph ids a b :
  linked graph (ids ++ [a]) → joined graph a b →
  linked graph ((ids ++ [a]) ++ [b]).
Proof.
  intros Hlinked Hjoin. induction ids as [|x ids IH]; simpl in *.
  - done.
  - destruct ids as [|y ids]; simpl in *.
    + by destruct Hlinked.
    + destruct Hlinked as [Hxy Hrest]. split; [done|]. by apply IH.
Qed.

(** One pass that follows an edge: the entry it appends is for the
    tool of a declared node, and the trail grows by the edge's
    target. *)
Lemma body_continue_trail graph registry c c' :
  loop_body py_eval graph registry c = Continue c' →
  trail c' = trail c ++ [f_current c'] ∧
  joined graph (f_current c) (f_current c') ∧
  ∃ entry, logs (f_run_state c') = logs (f_run_state c) ++ [entry] ∧
           executed_by graph entry.
Proof.
  intros (node & st1 & h1 & tool_result & st2 & h2 & next_edge
          & Hnode & _ & Hedge & ->)%body_continue_inv.
  pose proof (find_node_id _ _ _ Hnode) as Hid.
  destruct (find_next_edge_Some py_eval graph (f_current c)
              (dict_update st1 tool_result) h1 next_edge) as [Hin Hsrc];
    [by rewrite Hedge|].
  unfold trail. simpl. rewrite fmap_app. simpl.
  rewrite Hid. repeat split.
  - by exists next_edge.
  - eexists. split; [done|]. exists node. simpl. by rewrite Hid.
Qed.

Lemma reach_trail graph registry k c c' :
  passes py_eval graph registry k c = Some c' →
  linked graph (trail c) →
  linked graph (trail c') ∧
  (∃ more, trail c' = trail c ++ more) ∧
  ∃ entries, logs (f_run_state c') = logs (f_run_state c) ++ entries ∧
             length entries = k ∧ Forall (executed_by graph) entries.
Proof.
  revert c. induction k as [|k IH]; intros c; simpl.
  - intros [= <-] Hlinked. split; [done|]. split.
    + exists []. by rewrite app_nil_r.
    + exists []. by rewrite app_nil_r.
  - destruct (loop_body py_eval graph registry c) as [c1| |] eqn:Hbody;
      [|done..].
    intros Hreach Hlinked.
    destruct (body_continue_trail _ _ _ _ Hbody)
      as (Htrail & Hjoin & entry & Hlogs1 & Hexec).
    assert (linked graph (trail c1)) as Hlinked1.
    { rewrite Htrail. unfold trail in *. by apply linked_snoc. }
    destruct (IH _ Hreach Hlinked1)
      as (Hl & (more & Hmore) & entries & Hlogs & Hlen & Hall).
    split; [done|]. split.
    + exists ([f_current c1] ++ more). by rewrite Hmore, Htrail, app_assoc.
    + exists (entry :: entries). rewrite Hlogs, Hlogs1, <- app_assoc. simpl.
      repeat split; [by rewrite Hlen|by constructor].
Qed.

(** How a loop that finished ended: after some passes that followed an
    edge, one last entry was appended, for a failure or for the tool
    after which every edge of the node was passed over. *)
Lemma loop_finished_shape graph registry n c c' :
  for_range py_eval graph registry n c = Finished c' →
  ∃ k ck entry,
    passes py_eval graph registry k c = Some ck ∧ (k ≤ n)%nat ∧
    logs (f_run_state c') = logs (f_run_state ck) ++ [entry] ∧
    node_id entry = f_current ck ∧
    ((status (f_run_state c') = FAILED ∧ is_failure_entry entry ∧
      deref (f_dicts c') (state_snapshot entry) = frame_state c' ∧
      frame_state c' = frame_state ck ∧
      current_node_id (f_run_state c') = current_node_id (f_run_state ck) ∧
      f_heap c' = f_heap ck)
     ∨ ((k < n)%nat ∧ status (f_run_state c') = COMPLETED ∧
        current_node_id (f_run_state c') = None ∧
        executed_by graph entry ∧
        ∃ h,
          _find_next_edge py_eval graph (f_current ck)
            (deref (f_dicts c') (state_snapshot entry)) h
          = Leaves (frame_state c') (f_heap c') (Ok None))).
Proof.
  intros [(cn & Hreach & ->)|(k & ck & Hk & Hreach & Hbreak)]
    %loop_finished_inv.
  - exists n, cn, (abort_entry (f_current cn) (copy_snapshot cn)).
    rewrite loop_else_eq, frame_state_of. simpl.
    rewrite deref_insert_eq, copy_keeps_state.
    repeat split; try done. left. repeat split. by right.
  - apply body_break_inv in Hbreak
      as [(Hnone & ->)
         |(node & st1 & h1 & tool_result & st2 & h2 & Hnode & _ & Hedge
           & ->)].
    + exists k, ck, (missing_entry (f_current ck) (copy_snapshot ck)).
      rewrite frame_state_of. simpl.
      rewrite deref_insert_eq, copy_keeps_state.
      repeat split; try done; [lia|].
      left. repeat split. by left.
    + pose proof (find_node_id _ _ _ Hnode) as Hid.
      exists k, ck, (executed_entry node (step_snapshot ck)).
      rewrite frame_state_of. simpl.
      rewrite step_dicts_snapshot, step_dicts_state.
      repeat split; try done; [lia|].
      right. repeat split; try done.
      * exists node. simpl. by rewrite Hid.
      * by exists h1.
Qed.

(** The log of a returned run: entries for executed tools of declared
    nodes, at most [max_steps] of them, and then, for a FAILED run
    only, one failure entry.  A COMPLETED run logged at least one
    executed tool and no failure entry. *)
Theorem returned_log_shape gid initial_state registry max_steps uuid w
    graph w' rs :
  graphs w !! gid = Some graph →
  run_graph_once py_eval gid initial_state registry max_steps uuid w
    = (w', Ok rs) →
  ∃ executed rest,
    logs rs = executed ++ rest ∧
    Forall (executed_by graph) executed ∧
    (length executed ≤ Z.to_nat max_steps)%nat ∧
    ((status rs = COMPLETED ∧ rest = [] ∧ executed ≠ [])
     ∨ (status rs = FAILED ∧
        ∃ entry, rest = [entry] ∧ is_failure_entry entry)).
Proof.
  intros Hgraph. rewrite (run_graph_once_found _ _ _ _ _ _ _ _ Hgraph).
  destruct (for_range _ _ _ _ _) as [c'|e c'] eqn:Hloop; [|done].
  intros [= _ <-].
  apply loop_finished_shape in Hloop
    as (k & ck & entry & Hreach & Hk & Hlogs & _ & Hend).
  destruct (reach_trail _ _ _ _ _ Hreach)
    as (_ & _ & entries & Hentries & Hlen & Hall); [done|].
  simpl in Hentries. rewrite Hentries in Hlogs.
  destruct Hend as [(Hstatus & Hfail & _)|(Hlt & Hstatus & _ & Hexec & _)].
  - exists entries, [entry]. repeat split; try done; [lia|].
    right. split; [done|]. by exists entry.
  - exists (entries ++ [entry]), []. rewrite app_nil_r.
    repeat split; try done.
    + apply Forall_app. split; [done|]. by constructor.
    + rewrite length_app. simpl. lia.
    + left. repeat split; try done. by destruct entries.
Qed.

(** The node ids of the log of a returned run, in order, are a walk
    through the graph: the first is the start node id and each next one
    is the target of a declared edge out of the one before it. *)
Theorem returned_log_is_walk gid initial_state registry max_steps uuid w
    graph w' rs :
  graphs w !! gid = Some graph →
  run_graph_once py_eval gid initial_state registry max_steps uuid w
    = (w', Ok rs) →
  ∃ rest,
    node_id <$> logs rs = start_node_id graph :: rest ∧
    linked graph (start_node_id graph :: rest).
Proof.
  intros Hgraph. rewrite (run_graph_once_found _ _ _ _ _ _ _ _ Hgraph).
  destruct (for_range _ _ _ _ _) as [c'|e c'] eqn:Hloop; [|done].
  intros [= _ <-].
  apply loop_finished_shape in Hloop
    as (k & ck & entry & Hreach & _ & Hlogs & Hid & _).
  destruct (reach_trail _ _ _ _ _ Hreach)
    as (Hlinked & (more & Hmore) & _); [done|].
  assert (node_id <$> logs (f_run_state c') = trail ck) as ->.
  { unfold trail. rewrite Hlogs, fmap_app. simpl. by rewrite Hid. }
  rewrite Hmore in *. by exists more.
Qed.

(** The log of a returned run is never empty.  The snapshot of its last
    entry has the bindings of the final state when the run is FAILED,
    and when it is COMPLETED and the guards of the last node's edges
    only read: the snapshot is taken before edge resolution, and on the
    COMPLETED path the guards then work on the state itself. *)
Theorem last_snapshot_is_final_state gid initial_state registry max_steps
    uuid w graph w' rs :
  graphs w !! gid = Some graph →
  run_graph_once py_eval gid initial_state registry max_steps uuid w
    = (w', Ok rs) →
  ∃ entry,
    last (logs rs) = Some entry ∧
    (status rs = FAILED →
     deref (dicts w') (state_snapshot entry) = deref (dicts w') (state rs)) ∧
    (status rs = COMPLETED →
     guards_read_only py_eval (candidates_of graph (node_id entry)) →
     deref (dicts w') (state_snapshot entry) = deref (dicts w') (state rs)).
Proof.
  intros Hgraph. rewrite (run_graph_once_found _ _ _ _ _ _ _ _ Hgraph).
  destruct (for_range _ _ _ _ _) as [c'|e c'] eqn:Hloop; [|done].
  intros [= <- <-]. simpl.
  apply loop_finished_shape in Hloop
    as (k & ck & entry & _ & _ & Hlogs & Hid & Hend).
  exists entry. rewrite Hlogs, last_snoc. split; [done|].
  destruct Hend
    as [(Hfailed & _ & Hsnap & _)|(_ & Hdone & _ & _ & h & Hnone)].
  - split; [done|]. congruence.
  - split; [congruence|]. intros _ Hread. rewrite Hid in Hread.
    destruct (find_next_edge_read_only py_eval graph (f_current ck)
                (deref (f_dicts c') (state_snapshot entry)) h Hread)
      as [Hstate _].
    rewrite Hnone in Hstate. done.
Qed.

(** A COMPLETED run stopped because it was stuck: starting from the
    bindings of the last snapshot, every edge out of the last logged
    node was tried in turn and passed over (so each of them has a
    guard), which left the state and the heap the run returns.  When
    the guards of those edges only read, none of them is eligible in
    the state and heap the run returns. *)
Theorem completed_run_has_no_eligible_edge gid initial_state registry
    max_steps uuid w graph w' rs :
  graphs w !! gid = Some graph →
  run_graph_once py_eval gid initial_state registry max_steps uuid w
    = (w', Ok rs) →
  status rs = COMPLETED →
  ∃ entry h,
    last (logs rs) = Some entry ∧
    passed_over py_eval (candidates_of graph (node_id entry))
      (deref (dicts w') (state_snapshot entry)) h
      (deref (dicts w') (state rs)) (heap w') ∧
    (∀ e, e ∈ edges graph → source e = node_id entry →
          is_Some (condition e)) ∧
    (guards_read_only py_eval (candidates_of graph (node_id entry)) →
     ∀ e, e ∈ edges graph → source e = node_id entry →
          ¬ edge_eligible py_eval (deref (dicts w') (state rs)) (heap w') e).
Proof.
  intros Hgraph. rewrite (run_graph_once_found _ _ _ _ _ _ _ _ Hgraph).
  destruct (for_range _ _ _ _ _) as [c'|e c'] eqn:Hloop; [|done].
  intros [= <- <-] Hstatus. simpl in *.
  apply loop_finished_shape in Hloop
    as (k & ck & entry & _ & _ & Hlogs & Hid & Hend).
  destruct Hend as [(Hfailed & _)|(_ & _ & _ & _ & h & Hnone)];
    [congruence|].
  rewrite <- Hid in Hnone.
  apply find_next_edge_None in Hnone as Hover.
  exists entry, h. rewrite Hlogs, last_snoc. split; [done|].
  split; [exact Hover|]. split.
  - intros e He Hsrc.
    assert (e ∈ candidates_of graph (node_id entry)) as Hin
      by by apply elem_of_candidates.
    clear -Hover Hin. induction Hover as [|e' es st h st1 h1 st' h' Hp _ IH].
    + by apply elem_of_nil in Hin.
    + apply elem_of_cons in Hin as [->|Hin]; [|by apply IH].
      destruct Hp as [(cond & v & -> & _)|(exc & (cond & -> & _) & _)];
        by eexists.
  - intros Hread e He Hsrc.
    destruct (passed_over_read_only py_eval _ _ _ _ _ _ Hread
                (λ e He, He) Hover) as (<- & <- & Hnoone).
    apply Hnoone. by apply elem_of_candidates.
Qed.

(** When, after some passes, the tool of the current node returns a
    dict and every edge out of the node is passed over on the merged
    state, the run returns COMPLETED with no current node, the state
    and the heap as the guards left them, and the log accumulated so
    far plus the entry for this tool, whose snapshot holds the merged
    bindings. *)
Theorem stuck_node_completes_run gid initial_state registry max_steps
    uuid w graph k c node st1 h1 tool_result st2 h2 :
  graphs w !! gid = Some graph →
  passes py_eval graph registry k
    (start_frame graph gid initial_state uuid w) = Some c →
  k < Z.to_nat max_steps →
  find_node graph (f_current c) = Some node →
  ToolRegistry.run_tool registry (tool_name node) (frame_state c) (f_heap c)
    = Leaves st1 h1 (Ok tool_result) →
  passed_over py_eval (candidates_of graph (f_current c))
    (dict_update st1 tool_result) h1 st2 h2 →
  ∃ w' rs snapshot,
    run_graph_once py_eval gid initial_state registry max_steps uuid w
      = (w', Ok rs) ∧
    status rs = COMPLETED ∧
    current_node_id rs = None ∧
    deref (dicts w') (state rs) = st2 ∧
    logs rs = logs (f_run_state c) ++ [executed_entry node snapshot] ∧
    deref (dicts w') snapshot = dict_update st1 tool_result ∧
    length (logs rs) = k + 1 ∧
    heap w' = h2.
Proof.
  intros Hgraph Hreach Hk Hnode Htool Hstuck%find_next_edge_None.
  rewrite (run_graph_once_found _ _ _ _ _ _ _ _ Hgraph).
  pose proof (loop_body_ok py_eval _ _ _ _ _ _ _ Hnode Htool) as Hbody.
  cbv zeta in Hbody. rewrite Hstuck in Hbody. simpl in Hbody.
  rewrite (loop_breaks _ _ _ _ _ _ _ _ Hreach Hk Hbody).
  destruct (reach_running _ _ _ _ _ _ Hreach (start_frame_running _ _ _ _ _))
    as (_ & entries & Hlogs & Hlen & _).
  simpl in Hlogs. eexists _, _, (step_snapshot c). split; [done|]. simpl.
  rewrite Hlogs, length_app, step_dicts_state, step_dicts_snapshot. simpl.
  repeat split; try done. lia.
Qed.

(** *** Keys of the state *)

Lemma dict_update_is_Some (d other : Dict) key :
  is_Some (d !! key) → is_Some (dict_update d other !! key).
Proof.
  intros Hd. rewrite dict_update_lookup. by destruct (other !! key).
Qed.

Lemma first_passing_keeps_keys es st h key :
  guards_keep_keys py_eval es →
  is_Some (st !! key) →
  is_Some (left_state (first_passing py_eval es st h) !! key).
Proof.
  revert st h. induction es as [|e es IH]; intros st h Hkeep Hkey; [done|].
  assert (guards_keep_keys py_eval es) as Hrest.
  { intros e' cond He'. apply Hkeep. by right. }
  simpl. destruct (condition e) as [cond|] eqn:Hc; [|done].
  pose proof (Hkeep e cond (list_elem_of_here _ _) Hc st h key Hkey) as Hleft.
  destruct (py_eval cond st h) as [st' h' [v|exc]]; simpl in *.
  - destruct (py_bool h' v); [done|]. by apply IH.
  - destruct (is_Exception exc); [|done]. by apply IH.
Qed.

Lemma find_next_edge_keeps_keys graph current st h key :
  guards_keep_keys py_eval (edges graph) →
  is_Some (st !! key) →
  is_Some (left_state (_find_next_edge py_eval graph current st h) !! key).
Proof.
  intros Hkeep. rewrite find_next_edge_filter.
  apply first_passing_keeps_keys. intros e cond He.
  apply Hkeep. by apply elem_of_candidates in He as [He _].
Qed.

Lemma keys_kept_after_copy K c entry :
  frame_wf c → keys_kept K c →
  state_snapshot entry = copy_snapshot c →
  keys_kept K
    {| f_current := f_current c;
       f_run_state := logs_append entry (set_status FAILED (f_run_state c));
       f_dicts := <[copy_snapshot c := frame_state c]> (f_dicts c);
       f_heap := f_heap c |}.
Proof.
  intros [_ Hwf] [Hstate Hlogs] Hsnap. split.
  - rewrite frame_state_of. simpl. by rewrite copy_keeps_state.
  - simpl. intros e [He|He%list_elem_of_singleton]%elem_of_app key Hkey.
    + destruct (Hwf e He) as [Hin _].
      rewrite (deref_kept (f_dicts c)) by by apply kept_after_copy.
      by apply Hlogs.
    + subst e. rewrite Hsnap, deref_insert_eq. by apply Hstate.
Qed.

Lemma keys_kept_after_step K c node merged left run_state current h :
  frame_wf c → keys_kept K c →
  (∀ key, K key → is_Some (merged !! key)) →
  (∀ key, K key → is_Some (left !! key)) →
  state run_state = state (f_run_state c) →
  logs run_state = logs (step_logged c node) →
  keys_kept K
    {| f_current := current; f_run_state := run_state;
       f_dicts := step_dicts c merged left; f_heap := h |}.
Proof.
  intros [_ Hwf] [_ Hlogs] Hmerged Hleft Hloc Hlog. split.
  - rewrite frame_state_of, Hloc, step_dicts_state. exact Hleft.
  - simpl. rewrite Hlog. simpl.
    intros e [He|He%list_elem_of_singleton]%elem_of_app key Hkey.
    + destruct (Hwf e He) as [Hin Hne].
      rewrite (deref_kept (f_dicts c)) by by apply kept_after_step.
      by apply Hlogs.
    + subst e. simpl. rewrite step_dicts_snapshot. by apply Hmerged.
Qed.

Lemma body_keeps_keys K graph registry c :
  tools_keep_keys registry →
  guards_keep_keys py_eval (edges graph) →
  frame_wf c → keys_kept K c →
  keys_kept K (flow_frame (loop_body py_eval graph registry c)).
Proof.
  intros Htools Hguards Hwf Hkept.
  destruct (body_cases py_eval graph registry c) as (f & -> & Hpass).
  destruct Hpass as [Hn| node st1 h1 e Hn Ht
                    | node st1 h1 result st2 h2 e Hn Ht Hres
                    | node st1 h1 result st2 h2 Hn Ht Hres
                    | node st1 h1 result st2 h2 next_edge Hn Ht Hres];
    simpl.
  - by apply keys_kept_after_copy.
  - destruct Hwf as [_ Hwf], Hkept as [Hstate Hlogs]. split.
    + rewrite frame_state_of, deref_insert_eq. intros key Hkey.
      pose proof (run_tool_keeps_keys registry (tool_name node)
                    (frame_state c) (f_heap c) key Htools (Hstate key Hkey))
        as Hleft.
      by rewrite Ht in Hleft.
    + simpl. intros entry Hentry key Hkey.
      destruct (Hwf entry Hentry) as [_ Hne].
      rewrite deref_insert_ne by done. by apply Hlogs.
  - assert (∀ key, K key → is_Some (dict_update st1 result !! key))
      as Hmerged.
    { intros key Hkey. apply dict_update_is_Some.
      pose proof (run_tool_keeps_keys registry (tool_name node)
                    (frame_state c) (f_heap c) key Htools
                    (proj1 Hkept key Hkey)) as Hleft.
      by rewrite Ht in Hleft. }
    apply (keys_kept_after_step K c node); try done.
    intros key Hkey.
    pose proof (find_next_edge_keeps_keys graph (f_current c)
                  (dict_update st1 result) h1 key Hguards
                  (Hmerged key Hkey)) as Hleft.
    by rewrite Hres in Hleft.
  - assert (∀ key, K key → is_Some (dict_update st1 result !! key))
      as Hmerged.
    { intros key Hkey. apply dict_update_is_Some.
      pose proof (run_tool_keeps_keys registry (tool_name node)
                    (frame_state c) (f_heap c) key Htools
                    (proj1 Hkept key Hkey)) as Hleft.
      by rewrite Ht in Hleft. }
    apply (keys_kept_after_step K c node); try done.
    intros key Hkey.
    pose proof (find_next_edge_keeps_keys graph (f_current c)
                  (dict_update st1 result) h1 key Hguards
                  (Hmerged key Hkey)) as Hleft.
    by rewrite Hres in Hleft.
  - assert (∀ key, K key → is_Some (dict_update st1 result !! key))
      as Hmerged.
    { intros key Hkey. apply dict_update_is_Some.
      pose proof (run_tool_keeps_keys registry (tool_name node)
                    (frame_state c) (f_heap c) key Htools
                    (proj1 Hkept key Hkey)) as Hleft.
      by rewrite Ht in Hleft. }
    apply (keys_kept_after_step K c node); try done.
    intros key Hkey.
    pose proof (find_next_edge_keeps_keys graph (f_current c)
                  (dict_update st1 result) h1 key Hguards
                  (Hmerged key Hkey)) as Hleft.
    by rewrite Hres in Hleft.
Qed.

Lemma loop_keeps_keys K graph registry n c :
  tools_keep_keys registry →
  guards_keep_keys py_eval (edges graph) →
  frame_wf c → keys_kept K c →
  keys_kept K (end_frame (for_range py_eval graph registry n c)).
Proof.
  intros Htools Hguards. revert c.
  induction n as [|n IH]; intros c Hwf Hkept; simpl.
  - rewrite loop_else_eq. by apply keys_kept_after_copy.
  - pose proof (body_keeps_keys K graph registry c Htools Hguards Hwf Hkept)
      as Hbody.
    pose proof (body_wf py_eval graph registry c Hwf) as Hwf1.
    destruct (loop_body py_eval graph registry c) as [c1|c1|e c1]; simpl in *;
      [|done..].
    by apply IH.
Qed.

(** When no tool and no guard of the graph unbinds a key of the state
    it is handed, a run never loses a key: every key of the initial
    state is bound in the state of the record the run leaves in the
    store, returned or not, and in the snapshot of each of its log
    entries.  (The engine itself only adds bindings.) *)
Theorem initial_keys_persist gid initial_state registry max_steps uuid w
    graph :
  tools_keep_keys registry →
  guards_keep_keys py_eval (edges graph) →
  graphs w !! gid = Some graph →
  ∃ rs,
    runs
      (run_graph_once py_eval gid initial_state registry max_steps uuid w).1
      !! uuid = Some rs ∧
    ∀ key,
      is_Some (initial_state !! key) →
      is_Some
        (deref
           (dicts
              (run_graph_once py_eval gid initial_state registry max_steps
                 uuid w).1)
           (state rs) !! key) ∧
      ∀ entry,
        entry ∈ logs rs →
        is_Some
          (deref
             (dicts
                (run_graph_once py_eval gid initial_state registry
                   max_steps uuid w).1)
             (state_snapshot entry) !! key).
Proof.
  intros Htools Hguards Hgraph.
  rewrite (run_graph_once_store _ _ _ _ _ _ _ Hgraph).
  simpl. eexists. split; [by rewrite lookup_insert_eq|].
  intros key Hkey.
  assert (keys_kept (λ k, is_Some (initial_state !! k))
            (start_frame graph gid initial_state uuid w)) as Hstart.
  { split; [by rewrite start_frame_state|].
    intros entry Hentry. by apply elem_of_nil in Hentry. }
  destruct (loop_keeps_keys _ graph registry (Z.to_nat max_steps) _
              Htools Hguards (start_frame_wf _ _ _ _ _) Hstart)
    as [Hstate Hlogs].
  split; [by apply Hstate|]. intros entry Hentry. by apply Hlogs.
Qed.

End RunFacts.

(** ** Further properties of the registry *)

(** A registered tool is the one dispatched to under its name, a later
    registration under the same name replaces the earlier one, and
    registering a name leaves the dispatch of every other name as it
    was. *)
Theorem register_then_run name func tools st h :
  ToolRegistry.get (ToolRegistry.register name func tools) name = Ok func
  ∧ (∀ func',
       ToolRegistry.register name func'
         (ToolRegistry.register name func tools)
       = ToolRegistry.register name func' tools)
  ∧ ∀ other,
      other ≠ name →
      ToolRegistry.run_tool (ToolRegistry.register name func tools) other st h
        = ToolRegistry.run_tool tools other st h.
Proof.
  unfold ToolRegistry.run_tool, ToolRegistry.get, ToolRegistry.register.
  repeat split.
  - by rewrite lookup_insert_eq.
  - intros func'. by rewrite insert_insert_eq.
  - intros other Hother. by rewrite lookup_insert_ne.
Qed.

(** ** Properties of the endpoints *)

Lemma written_out_executed ds (entries : list (RunLogEntry loc)) :
  Forall is_executed_entry entries →
  Forall is_executed_entry (written_out ds <$> entries).
Proof.
  intros Hall. apply Forall_fmap. eapply Forall_impl; [exact Hall|].
  intros entry [tool Hmessage]. by exists tool.
Qed.

Section EndpointFacts.

Variable py_eval : string → Dict → Heap → Effect (Result Value).

(** What a raise of [run_graph_once] on a stored graph leaves behind:
    the tool invocation of some pass raised, or a guard of that pass
    raised an exception outside [Exception]; the record under the run
    id is still RUNNING, and its log holds entries for executed tools
    only. *)
Lemma run_raise_inv gid initial_state registry max_steps uuid w graph w' e :
  graphs w !! gid = Some graph →
  run_graph_once py_eval gid initial_state registry max_steps uuid w
    = (w', Raise e) →
  ∃ k c node rs,
    passes py_eval graph registry k
      (start_frame graph gid initial_state uuid w) = Some c ∧
    k < Z.to_nat max_steps ∧
    find_node graph (f_current c) = Some node ∧
    ((∃ st' h',
        tool_invocation_raises registry (tool_name node) (frame_state c)
          (f_heap c) e st' h')
     ∨ (is_Exception e = false ∧
        ∃ guarded st3 h3 st4 h4,
          guarded ∈ candidates_of graph (f_current c) ∧
          edge_escapes py_eval st3 h3 guarded e st4 h4)) ∧
    runs w' !! uuid = Some rs ∧
    status rs = RUNNING ∧
    Forall is_executed_entry (logs rs).
Proof.
  intros Hgraph. rewrite (run_graph_once_found _ _ _ _ _ _ _ _ Hgraph).
  destruct (for_range _ _ _ _ _) as [c'|e' c'] eqn:Hloop; [done|].
  intros [= <- <-].
  apply loop_raised_inv in Hloop as (k & c & Hk & Hreach & Hthrow).
  destruct (reach_running _ _ _ _ _ _ Hreach (start_frame_running _ _ _ _ _))
    as ([Hstatus _] & entries & Hlogs & _ & Hall).
  simpl in Hlogs.
  apply loop_body_throw_cases in Hthrow
    as (node & Hnode & [(st' & h' & Htool & Hrs & _)|(Hexc & Hguard)]).
  - exists k, c, node, (f_run_state c'). simpl.
    rewrite lookup_insert_eq, Hrs, Hlogs.
    repeat split; try done. left. by exists st', h'.
  - destruct Hguard as (st1 & h1 & tool_result & before & guarded & after
                        & st3 & h3 & _ & Hsplit & _ & Hesc & Hrs).
    exists k, c, node, (f_run_state c'). simpl.
    rewrite lookup_insert_eq, Hrs. simpl. rewrite Hlogs.
    repeat split; try done.
    + right. split; [done|].
      exists guarded, st3, h3, (frame_state c'), (f_heap c').
      split; [|done]. rewrite Hsplit. apply elem_of_app. right. by left.
    + apply Forall_app. split; [done|]. constructor; [|done].
      by eexists.
Qed.



(** A run that raised stays "running": the state endpoint keeps
    reporting the run under its id with status "running" and a log of
    entries for executed tools. *)
Theorem crashed_run_reports_running req uuid app app' e :
  Main.run_graph py_eval req uuid app = (app', Main.Unhandled e) →
  ∃ response,
    Main.get_graph_state uuid app' = Main.Respond response ∧
    Main.state_status response = "running" ∧
    Forall is_executed_entry (Main.state_logs response).
Proof.
  unfold Main.run_graph, Main.get_graph_state.
  destruct (graphs (Main.world app) !! Main.request_graph_id req)
    as [graph|] eqn:Hgraph; [|done].
  destruct (run_graph_once _ _ _ _ _ _ _) as [w' [rs|e']] eqn:Hrun; [done|].
  intros [= <- <-].
  destruct (run_raise_inv _ _ _ _ _ _ _ _ _ Hgraph Hrun)
    as (k & c & node & rs & _ & _ & _ & _ & Hstored & Hstatus & Hall).
  simpl. rewrite Hstored. eexists. split; [done|]. simpl.
  rewrite Hstatus. split; [done|]. by apply written_out_executed.
Qed.

(** Round trip: after [run_graph] responded, the state endpoint
    answers for the returned run id with the same status, state and
    logs. *)
Theorem run_then_get_state req uuid app app' response :
  Main.run_graph py_eval req uuid app = (app', Main.Respond response) →
  ∃ current,
    Main.get_graph_state (Main.response_run_id response) app'
    = Main.Respond
        {| Main.state_run_id := Main.response_run_id response;
           Main.state_status := Main.response_status response;
           Main.state_current_node_id := current;
           Main.state_state := Main.final_state response;
           Main.state_logs := Main.response_logs response |}.
Proof.
  unfold Main.run_graph, Main.get_graph_state.
  destruct (graphs (Main.world app) !! Main.request_graph_id req)
    as [graph|]; [|done].
  destruct (run_graph_once _ _ _ _ _ _ _) as [w' [rs|e']] eqn:Hrun; [|done].
  intros [= <- <-].
  destruct (run_ok_stored _ _ _ _ _ _ _ _ _ Hrun) as (Hid & Hstored).
  exists (current_node_id rs). simpl. rewrite Hid, Hstored. simpl.
  by rewrite Hid.
Qed.

(** [create_graph] stores the request unchecked under the drawn id and
    touches nothing else: the other graphs, the runs, the mapping
    objects and the registry are as before, and a run of the new id is
    never answered 404. *)
Theorem create_then_run req uuid app initial_state uuid' :
  ∃ app',
    Main.create_graph req uuid app
      = (app', Main.Respond {| Main.created_graph_id := uuid |}) ∧
    graphs (Main.world app') !! uuid
      = Some {| GraphDefinition_id := uuid;
                nodes := Main.create_nodes req;
                edges := Main.create_edges req;
                start_node_id := Main.create_start_node_id req |} ∧
    (∀ other, other ≠ uuid →
       graphs (Main.world app') !! other
         = graphs (Main.world app) !! other) ∧
    runs (Main.world app') = runs (Main.world app) ∧
    dicts (Main.world app') = dicts (Main.world app) ∧
    Main.tool_registry app' = Main.tool_registry app ∧
    ∀ status_code detail,
      (Main.run_graph py_eval
         {| Main.request_graph_id := uuid;
            Main.request_initial_state := initial_state |} uuid' app').2
      ≠ Main.HTTPException status_code detail.
Proof.
  eexists. split; [done|]. simpl. rewrite lookup_insert_eq.
  repeat split; try done.
  - intros other Hother. by rewrite lookup_insert_ne.
  - intros status_code detail. unfold Main.run_graph. simpl.
    rewrite lookup_insert_eq.
    by destruct (run_graph_once _ _ _ _ _ _ _) as [w' [rs|e]].
Qed.

(** [create_graph] accepts a graph whose start node is not declared;
    running it responds "failed" with the state untouched and a log of
    one entry, the one for the missing node, with a snapshot of the
    initial state. *)
Theorem undeclared_start_node_fails req uuid app initial_state uuid' :
  (∀ n, n ∈ Main.create_nodes req →
        NodeDefinition_id n ≠ Main.create_start_node_id req) →
  (Main.run_graph py_eval
     {| Main.request_graph_id := uuid;
        Main.request_initial_state := initial_state |} uuid'
     (Main.create_graph req uuid app).1).2
  = Main.Respond
      {| Main.response_run_id := uuid';
         Main.final_state := initial_state;
         Main.response_logs :=
           [missing_entry (Main.create_start_node_id req) initial_state];
         Main.response_status := "failed" |}.
Proof.
  intros Hundeclared. unfold Main.run_graph. simpl.
  rewrite lookup_insert_eq.
  erewrite run_graph_once_found by (simpl; apply lookup_insert_eq).
  match goal with
  | |- context [for_range _ ?G _ _ ?c0] =>
      assert (find_node G (f_current c0) = None) as Hnone
        by (by apply find_node_undeclared);
      pose proof (start_frame_state G uuid initial_state uuid'
                    (Main.set_graphs
                       (<[uuid := G]> (graphs (Main.world app)))
                       (Main.world app))) as Hstate
  end.
  erewrite (loop_breaks _ _ _ _ 0);
    [|reflexivity|simpl; lia|exact (loop_body_missing _ _ _ _ Hnone)].
  simpl. unfold written_out, missing_entry. simpl.
  rewrite deref_insert_eq, copy_keeps_state, Hstate. done.
Qed.

End EndpointFacts.

(** ** Properties of the default tools *)

(** [tool_suggest_improvements] leaves the state and the heap alone.
    It raises only a [TypeError], and only when a score in the state is
    not a number.  Otherwise it returns exactly the keys [suggestions]
    and [quality_score], with at most three suggestions and a quality
    score that is never negative, and at most 100 when both scores are
    not negative. *)
Theorem suggest_improvements_bounds st h :
  left_state (Workflows.tool_suggest_improvements st h) = st ∧
  left_heap (Workflows.tool_suggest_improvements st h) = h ∧
  match outcome (Workflows.tool_suggest_improvements st h) with
  | Ok (ReturnsDict d) =>
      ∃ suggestions quality complexity issue_count,
        d = {[ "suggestions" := VList suggestions;
               "quality_score" := VInt quality ]} ∧
        (length suggestions ≤ 3)%nat ∧
        Examples.as_int (default (VInt 0) (st !! "complexity_score"))
          = Some complexity ∧
        Examples.as_int (default (VInt 0) (st !! "issue_count"))
          = Some issue_count ∧
        (0 ≤ quality)%Z ∧
        ((0 ≤ complexity)%Z → (0 ≤ issue_count)%Z → (quality ≤ 100)%Z)
  | Ok ReturnsNonDict => False
  | Raise e =>
      e = OtherError "TypeError" ∧
      (Examples.as_int (default (VInt 0) (st !! "complexity_score")) = None
       ∨ Examples.as_int (default (VInt 0) (st !! "issue_count")) = None)
  end.
Proof.
  unfold Workflows.tool_suggest_improvements.
  destruct (Examples.as_int (default (VInt 0) (st !! "complexity_score")))
    as [complexity|]; [|simpl; by auto].
  destruct (Examples.as_int (default (VInt 0) (st !! "issue_count")))
    as [issue_count|]; [|simpl; by auto].
  split; [done|]. split; [done|]. simpl.
  eexists _, _, complexity, issue_count.
  split; [done|]. repeat split.
  - destruct (10 <? complexity)%Z, (0 <? issue_count)%Z,
      (equals_zero _); simpl; lia.
  - lia.
  - intros. lia.
Qed.

(** The three analysis tools read the state through
    [state.get("code", "")] and nothing else: states that agree on it
    get the same result.  On a state without [code] they score the
    empty string: complexity 0 and no issue. *)
Lemma analysis_tools_read_code_only
    (re_findall : string → string → list string) st h :
  (∀ st',
     code_of st' = code_of st →
     outcome (Workflows.tool_extract_functions re_findall st' h)
       = outcome (Workflows.tool_extract_functions re_findall st h) ∧
     outcome (Workflows.tool_check_complexity st' h)
       = outcome (Workflows.tool_check_complexity st h) ∧
     outcome (Workflows.tool_detect_basic_issues st' h)
       = outcome (Workflows.tool_detect_basic_issues st h))
  ∧ (st !! "code" = None →
     Workflows.tool_check_complexity st h
       = Leaves st h (Ok (ReturnsDict {[ "complexity_score" := VInt 0 ]})) ∧
     Workflows.tool_detect_basic_issues st h
       = Leaves st h (Ok (ReturnsDict {[ "issues" := VList [];
                                         "issue_count" := VInt 0 ]}))).
Proof.
  unfold code_of, Workflows.tool_extract_functions,
    Workflows.tool_check_complexity, Workflows.tool_detect_basic_issues.
  split.
  - intros st' Hsame. cbv zeta. rewrite Hsame.
    repeat split.
    + by destruct (default (VStr EmptyString) (st !! "code")).
    + set (code := default (VStr EmptyString) (st !! "code")).
      by destruct (Workflows.py_count h code "if "),
        (Workflows.py_count h code "for "),
        (Workflows.py_count h code "while ").
    + by destruct (default (VStr EmptyString) (st !! "code")).
  - intros Hnone. cbv zeta. by rewrite Hnone.
Qed.

Section DefaultTools.

Variable py_eval : string → Dict → Heap → Effect (Result Value).
Variable re_findall : string → string → list string.
Variable tools : ToolRegistry.

Abbreviation default_registry :=
  (Workflows.register_default_tools re_findall tools).

Lemma default_registry_extract :
  default_registry !! "extract_functions"
    = Some (Workflows.tool_extract_functions re_findall).
Proof.
  unfold Workflows.register_default_tools, ToolRegistry.register.
  rewrite !lookup_insert_ne by done. by rewrite lookup_insert_eq.
Qed.

Lemma default_registry_complexity :
  default_registry !! "check_complexity"
    = Some Workflows.tool_check_complexity.
Proof.
  unfold Workflows.register_default_tools, ToolRegistry.register.
  rewrite !lookup_insert_ne by done. by rewrite lookup_insert_eq.
Qed.

Lemma default_registry_issues :
  default_registry !! "detect_basic_issues"
    = Some Workflows.tool_detect_basic_issues.
Proof.
  unfold Workflows.register_default_tools, ToolRegistry.register.
  rewrite !lookup_insert_ne by done. by rewrite lookup_insert_eq.
Qed.

Lemma default_registry_suggest :
  default_registry !! "suggest_improvements"
    = Some Workflows.tool_suggest_improvements.
Proof.
  unfold Workflows.register_default_tools, ToolRegistry.register.
  by rewrite lookup_insert_eq.
Qed.

Lemma not_written_lookup2 (k1 k2 : string) (v1 v2 : Value) key :
  k1 ∈ written_keys → k2 ∈ written_keys → key ∉ written_keys →
  ({[ k1 := v1; k2 := v2 ]} : Dict) !! key = None.
Proof.
  intros H1 H2 Hkey.
  rewrite lookup_insert_ne by (intros ->; done).
  apply lookup_singleton_ne. by intros ->.
Qed.

Lemma not_written_lookup1 (k1 : string) (v1 : Value) key :
  k1 ∈ written_keys → key ∉ written_keys →
  ({[ k1 := v1 ]} : Dict) !! key = None.
Proof. intros H1 Hkey. apply lookup_singleton_ne. by intros ->. Qed.

Lemma written_key (k : string) :
  bool_decide (k ∈ written_keys) = true → k ∈ written_keys.
Proof. apply bool_decide_eq_true_1. Qed.

(** A default tool leaves the state and the heap alone, and binds
    written keys only. *)
Lemma run_default_tool name st h :
  name ∈ default_tool_names →
  left_state (ToolRegistry.run_tool default_registry name st h) = st ∧
  left_heap (ToolRegistry.run_tool default_registry name st h) = h ∧
  ∀ result,
    outcome (ToolRegistry.run_tool default_registry name st h) = Ok result →
    ∀ key, key ∉ written_keys → result !! key = None.
Proof.
  unfold default_tool_names, ToolRegistry.run_tool, ToolRegistry.get.
  intros Hname.
  repeat (apply elem_of_cons in Hname as [->|Hname]);
    [| | | |by apply elem_of_nil in Hname].
  - rewrite default_registry_extract. unfold Workflows.tool_extract_functions.
    destruct (default _ (st !! "code")); simpl; repeat split; try done.
    intros result [= <-] key Hkey.
    apply not_written_lookup2; [by apply written_key..|done].
  - rewrite default_registry_complexity.
    unfold Workflows.tool_check_complexity. cbv zeta.
    set (code := default (VStr EmptyString) (st !! "code")).
    destruct (Workflows.py_count h code "if "),
      (Workflows.py_count h code "for "),
      (Workflows.py_count h code "while "); simpl; repeat split; try done.
    intros result [= <-] key Hkey.
    apply not_written_lookup1; [by apply written_key|done].
  - rewrite default_registry_issues.
    unfold Workflows.tool_detect_basic_issues.
    destruct (default _ (st !! "code")); simpl; repeat split; try done.
    intros result [= <-] key Hkey.
    apply not_written_lookup2; [by apply written_key..|done].
  - rewrite default_registry_suggest.
    unfold Workflows.tool_suggest_improvements. cbv zeta.
    destruct (Examples.as_int (default (VInt 0) (st !! "complexity_score")));
      [|done].
    destruct (Examples.as_int (default (VInt 0) (st !! "issue_count")));
      [|done].
    simpl. repeat split.
    intros result [= <-] key Hkey.
    apply not_written_lookup2; [by apply written_key..|done].
Qed.

Lemma body_default_tools graph initial h0 c :
  Forall (λ n, tool_name n ∈ default_tool_names) (nodes graph) →
  guards_read_only py_eval (edges graph) →
  others_untouched initial c ∧ f_heap c = h0 →
  others_untouched initial
    (flow_frame (loop_body py_eval graph default_registry c))
  ∧ f_heap (flow_frame (loop_body py_eval graph default_registry c)) = h0.
Proof.
  intros Hnames Hread [Hstate Hheap].
  assert (∀ current, guards_read_only py_eval (candidates_of graph current))
    as Hread'.
  { intros current e cond He. apply Hread.
    by apply elem_of_candidates in He as [He _]. }
  destruct (body_cases py_eval graph default_registry c) as (f & -> & Hpass).
  destruct Hpass as [Hn| node st1 h1 e Hn Ht
                    | node st1 h1 result st2 h2 e Hn Ht Hres
                    | node st1 h1 result st2 h2 Hn Ht Hres
                    | node st1 h1 result st2 h2 next_edge Hn Ht Hres];
    cbn [flow_frame]; unfold others_untouched; rewrite frame_state_of; simpl.
  - by rewrite copy_keeps_state.
  - assert (tool_name node ∈ default_tool_names) as Hname.
    { eapply (proj1 (Forall_forall _ _) Hnames). by eapply find_node_elem. }
    destruct (run_default_tool _ (frame_state c) (f_heap c) Hname)
      as (Hst & Hh & _).
    rewrite Ht in Hst, Hh. simpl in *. subst st1 h1.
    by rewrite deref_insert_eq.
  - assert (tool_name node ∈ default_tool_names) as Hname.
    { eapply (proj1 (Forall_forall _ _) Hnames). by eapply find_node_elem. }
    destruct (run_default_tool _ (frame_state c) (f_heap c) Hname)
      as (Hst & Hh & Hresult).
    rewrite Ht in Hst, Hh, Hresult. simpl in *. subst st1 h1.
    destruct (find_next_edge_read_only py_eval graph (f_current c)
                (dict_update (frame_state c) result) (f_heap c)
                (Hread' _)) as [Hst2 Hh2].
    rewrite Hres in Hst2, Hh2. simpl in *. subst st2 h2.
    rewrite step_dicts_state. split; [|done].
    intros key Hkey.
    rewrite dict_update_lookup, (Hresult result eq_refl key Hkey).
    by apply Hstate.
  - assert (tool_name node ∈ default_tool_names) as Hname.
    { eapply (proj1 (Forall_forall _ _) Hnames). by eapply find_node_elem. }
    destruct (run_default_tool _ (frame_state c) (f_heap c) Hname)
      as (Hst & Hh & Hresult).
    rewrite Ht in Hst, Hh, Hresult. simpl in *. subst st1 h1.
    destruct (find_next_edge_read_only py_eval graph (f_current c)
                (dict_update (frame_state c) result) (f_heap c)
                (Hread' _)) as [Hst2 Hh2].
    rewrite Hres in Hst2, Hh2. simpl in *. subst st2 h2.
    rewrite step_dicts_state. split; [|done].
    intros key Hkey.
    rewrite dict_update_lookup, (Hresult result eq_refl key Hkey).
    by apply Hstate.
  - assert (tool_name node ∈ default_tool_names) as Hname.
    { eapply (proj1 (Forall_forall _ _) Hnames). by eapply find_node_elem. }
    destruct (run_default_tool _ (frame_state c) (f_heap c) Hname)
      as (Hst & Hh & Hresult).
    rewrite Ht in Hst, Hh, Hresult. simpl in *. subst st1 h1.
    destruct (find_next_edge_read_only py_eval graph (f_current c)
                (dict_update (frame_state c) result) (f_heap c)
                (Hread' _)) as [Hst2 Hh2].
    rewrite Hres in Hst2, Hh2. simpl in *. subst st2 h2.
    rewrite step_dicts_state. split; [|done].
    intros key Hkey.
    rewrite dict_update_lookup, (Hresult result eq_refl key Hkey).
    by apply Hstate.
Qed.

Lemma reach_default_tools graph initial h0 k c c' :
  Forall (λ n, tool_name n ∈ default_tool_names) (nodes graph) →
  guards_read_only py_eval (edges graph) →
  passes py_eval graph default_registry k c = Some c' →
  others_untouched initial c ∧ f_heap c = h0 →
  others_untouched initial c' ∧ f_heap c' = h0.
Proof.
  intros Hnames Hread. revert c. induction k as [|k IH]; intros c; simpl.
  - by intros [= <-].
  - pose proof (body_default_tools graph initial h0 c Hnames Hread) as Hbody.
    destruct (loop_body py_eval graph default_registry c) as [c1| |];
      [|done..].
    intros Hreach Hc. by eapply IH, Hbody.
Qed.

Lemma loop_default_tools graph initial h0 n c :
  Forall (λ n, tool_name n ∈ default_tool_names) (nodes graph) →
  guards_read_only py_eval (edges graph) →
  others_untouched initial c ∧ f_heap c = h0 →
  others_untouched initial
    (end_frame (for_range py_eval graph default_registry n c))
  ∧ f_heap (end_frame (for_range py_eval graph default_registry n c)) = h0.
Proof.
  intros Hnames Hread. revert c.
  induction n as [|n IH]; intros c Hc; simpl.
  - rewrite loop_else_eq. unfold others_untouched.
    rewrite frame_state_of. simpl. by rewrite copy_keeps_state.
  - pose proof (body_default_tools graph initial h0 c Hnames Hread Hc)
      as Hbody.
    destruct (loop_body py_eval graph default_registry c) as [c1|c1|e c1];
      simpl in *; [|done..].
    by apply IH.
Qed.

(** A run of a graph whose nodes all use default tools and whose guards
    only read never rewrites its input: every key other than the seven
    the tools write, such as [code] and [threshold], is bound at the
    end as in the initial state, and the heap is as before, whether the
    run returns or raises. *)
Theorem default_tools_leave_input gid initial_state max_steps uuid w graph :
  graphs w !! gid = Some graph →
  Forall (λ n, tool_name n ∈ default_tool_names) (nodes graph) →
  guards_read_only py_eval (edges graph) →
  heap
    (run_graph_once py_eval gid initial_state default_registry max_steps
       uuid w).1 = heap w
  ∧ ∃ rs,
      runs
        (run_graph_once py_eval gid initial_state default_registry
           max_steps uuid w).1 !! uuid = Some rs ∧
      ∀ key,
        key ∉ written_keys →
        deref
          (dicts
             (run_graph_once py_eval gid initial_state default_registry
                max_steps uuid w).1)
          (state rs) !! key = initial_state !! key.
Proof.
  intros Hgraph Hnames Hread.
  rewrite (run_graph_once_store _ _ _ _ _ _ _ _ Hgraph). simpl.
  destruct (loop_default_tools graph initial_state (heap w)
              (Z.to_nat max_steps)
              (start_frame graph gid initial_state uuid w) Hnames Hread)
    as [Hstate Hheap].
  { split; [|done]. intros key _. by rewrite start_frame_state. }
  split; [done|]. eexists. split; [by rewrite lookup_insert_eq|done].
Qed.

End DefaultTools.

(** ** Properties of the review workflow *)

Section ReviewRun.

Variable py_eval : string → Dict → Heap → Effect (Result Value).
Variable re_findall : string → string → list string.
Variable tools : ToolRegistry.

Abbreviation review_registry :=
  (Workflows.register_default_tools re_findall tools).
Abbreviation review_body :=
  (loop_body py_eval Workflows.code_review_graph review_registry).

Lemma run_extract st h code :
  code_of st = VStr code →
  ToolRegistry.run_tool review_registry "extract_functions" st h
  = Leaves st h
      (Ok {[ "functions" :=
               VList (VStr <$> re_findall "def\s+(\w+)\s*\(" code);
             "function_count" :=
               VInt (Z.of_nat
                       (length (re_findall "def\s+(\w+)\s*\(" code))) ]}).
Proof.
  unfold code_of, ToolRegistry.run_tool, ToolRegistry.get. intros Hcode.
  rewrite default_registry_extract. unfold Workflows.tool_extract_functions.
  by rewrite Hcode.
Qed.

Lemma run_complexity st h code :
  code_of st = VStr code →
  ToolRegistry.run_tool review_registry "check_complexity" st h
  = Leaves st h (Ok {[ "complexity_score" := VInt (complexity_of code) ]}).
Proof.
  unfold code_of, ToolRegistry.run_tool, ToolRegistry.get. intros Hcode.
  rewrite default_registry_complexity.
  unfold Workflows.tool_check_complexity. cbv zeta. by rewrite Hcode.
Qed.

Lemma run_issues st h code :
  code_of st = VStr code →
  ToolRegistry.run_tool review_registry "detect_basic_issues" st h
  = Leaves st h
      (Ok {[ "issues" := VList (VStr <$> Workflows.basic_issues code);
             "issue_count" := VInt (issue_count_of code) ]}).
Proof.
  unfold code_of, ToolRegistry.run_tool, ToolRegistry.get. intros Hcode.
  rewrite default_registry_issues.
  unfold Workflows.tool_detect_basic_issues. by rewrite Hcode.
Qed.

Lemma run_suggest st h code :
  st !! "complexity_score" = Some (VInt (complexity_of code)) →
  st !! "issue_count" = Some (VInt (issue_count_of code)) →
  ∃ suggestions,
    ToolRegistry.run_tool review_registry "suggest_improvements" st h
    = Leaves st h
        (Ok {[ "suggestions" := VList suggestions;
               "quality_score" := VInt (quality_of code) ]}).
Proof.
  unfold ToolRegistry.run_tool, ToolRegistry.get. intros Hcx Hic.
  rewrite default_registry_suggest.
  unfold Workflows.tool_suggest_improvements. cbv zeta.
  rewrite Hcx, Hic. simpl. by eexists.
Qed.

(** Merging a result that binds neither [code] nor [threshold]. *)
Lemma review_input_kept st result code t :
  code_of st = VStr code → threshold_of st = Some t →
  result !! "code" = None → result !! "threshold" = None →
  code_of (dict_update st result) = VStr code ∧
  threshold_of (dict_update st result) = Some t.
Proof.
  unfold code_of, threshold_of. intros Hcode Ht Hrc Hrt.
  by rewrite !dict_update_lookup, Hrc, Hrt.
Qed.

(** A pass at a node whose only edge has no guard. *)
Lemma review_pass c node result next :
  find_node Workflows.code_review_graph (f_current c) = Some node →
  ToolRegistry.run_tool review_registry (tool_name node) (frame_state c)
    (f_heap c) = Leaves (frame_state c) (f_heap c) (Ok result) →
  candidates_of Workflows.code_review_graph (f_current c)
    = [ {| source := f_current c; target := next; condition := None |} ] →
  ∃ c', review_body c = Continue c' ∧ f_current c' = next ∧
        frame_state c' = dict_update (frame_state c) result.
Proof.
  intros Hnode Htool Hcands.
  rewrite (loop_body_ok _ _ _ _ _ _ _ _ Hnode Htool). cbv zeta.
  rewrite find_next_edge_filter, Hcands. simpl.
  eexists. split; [done|]. split; [done|].
  rewrite frame_state_of. simpl. by rewrite step_dicts_state.
Qed.

Lemma review_step_extract code t c :
  review_inv code t c → f_current c = "extract" →
  ∃ c', review_body c = Continue c' ∧ review_inv code t c' ∧
        f_current c' = "complexity" ∧
        frame_state c' !! "code" = frame_state c !! "code".
Proof.
  intros (Hcode & Ht & _) Hcur.
  destruct (review_pass c
              {| NodeDefinition_id := "extract";
                 tool_name := "extract_functions"; config := ∅ |}
              {[ "functions" :=
                   VList (VStr <$> re_findall "def\s+(\w+)\s*\(" code);
                 "function_count" :=
                   VInt (Z.of_nat
                           (length (re_findall "def\s+(\w+)\s*\(" code))) ]}
              "complexity") as (c' & Hbody & Hcur' & Hstate).
  { by rewrite Hcur. }
  { exact (run_extract _ _ _ Hcode). }
  { by rewrite Hcur. }
  exists c'. split; [done|].
  split; [|split; [done|by rewrite Hstate, dict_update_lookup]].
  unfold review_inv. rewrite Hstate, Hcur'.
  destruct (review_input_kept _
              {[ "functions" :=
                   VList (VStr <$> re_findall "def\s+(\w+)\s*\(" code);
                 "function_count" :=
                   VInt (Z.of_nat
                           (length (re_findall "def\s+(\w+)\s*\(" code))) ]}
              _ _ Hcode Ht) as [Hcode' Ht']; [done..|].
  split; [done|]. split; [done|]. right. by left.
Qed.

Lemma review_step_complexity code t c :
  review_inv code t c → f_current c = "complexity" →
  ∃ c', review_body c = Continue c' ∧ review_inv code t c' ∧
        f_current c' = "issues" ∧
        frame_state c' !! "code" = frame_state c !! "code".
Proof.
  intros (Hcode & Ht & _) Hcur.
  destruct (review_pass c
              {| NodeDefinition_id := "complexity";
                 tool_name := "check_complexity"; config := ∅ |}
              {[ "complexity_score" := VInt (complexity_of code) ]}
              "issues") as (c' & Hbody & Hcur' & Hstate).
  { by rewrite Hcur. }
  { exact (run_complexity _ _ _ Hcode). }
  { by rewrite Hcur. }
  exists c'. split; [done|].
  split; [|split; [done|by rewrite Hstate, dict_update_lookup]].
  unfold review_inv. rewrite Hstate, Hcur'.
  destruct (review_input_kept _
              {[ "complexity_score" := VInt (complexity_of code) ]}
              _ _ Hcode Ht) as [Hcode' Ht']; [done..|].
  split; [done|]. split; [done|]. right. right. left. split; [done|].
  by rewrite dict_update_lookup, lookup_singleton_eq.
Qed.

Lemma review_step_issues code t c :
  review_inv code t c → f_current c = "issues" →
  ∃ c', review_body c = Continue c' ∧ review_inv code t c' ∧
        f_current c' = "suggest" ∧
        frame_state c' !! "code" = frame_state c !! "code".
Proof.
  intros (Hcode & Ht & Hat) Hcur.
  assert (frame_state c !! "complexity_score"
          = Some (VInt (complexity_of code))) as Hcx.
  { destruct Hat as [Hat|[Hat|[[_ Hcx]|[Hat _]]]]; [congruence..|done|];
      congruence. }
  destruct (review_pass c
              {| NodeDefinition_id := "issues";
                 tool_name := "detect_basic_issues"; config := ∅ |}
              {[ "issues" := VList (VStr <$> Workflows.basic_issues code);
                 "issue_count" := VInt (issue_count_of code) ]}
              "suggest") as (c' & Hbody & Hcur' & Hstate).
  { by rewrite Hcur. }
  { exact (run_issues _ _ _ Hcode). }
  { by rewrite Hcur. }
  exists c'. split; [done|].
  split; [|split; [done|by rewrite Hstate, dict_update_lookup]].
  unfold review_inv. rewrite Hstate, Hcur'.
  destruct (review_input_kept _
              {[ "issues" := VList (VStr <$> Workflows.basic_issues code);
                 "issue_count" := VInt (issue_count_of code) ]}
              _ _ Hcode Ht) as [Hcode' Ht']; [done..|].
  split; [done|]. split; [done|]. right. right. right.
  split; [done|]. rewrite !dict_update_lookup.
  rewrite !(lookup_insert_ne _ "issues") by done.
  rewrite lookup_singleton_eq, lookup_singleton_ne by done. done.
Qed.

Lemma review_suggest_scores code t c :
  review_inv code t c → f_current c = "suggest" →
  frame_state c !! "complexity_score" = Some (VInt (complexity_of code)) ∧
  frame_state c !! "issue_count" = Some (VInt (issue_count_of code)).
Proof.
  intros (_ & _ & Hat) Hcur.
  destruct Hat as [Hat|[Hat|[[Hat _]|[_ Hscores]]]]; [congruence..|done].
Qed.

(** What the pass at [suggest] merges and how its guard evaluates. *)
Lemma review_suggest_merge code t c :
  guard_compares_scores py_eval →
  review_inv code t c → f_current c = "suggest" →
  ∃ suggestions,
    ToolRegistry.run_tool review_registry "suggest_improvements"
      (frame_state c) (f_heap c)
    = Leaves (frame_state c) (f_heap c)
        (Ok {[ "suggestions" := VList suggestions;
               "quality_score" := VInt (quality_of code) ]}) ∧
    code_of (dict_update (frame_state c)
               {[ "suggestions" := VList suggestions;
                  "quality_score" := VInt (quality_of code) ]})
      = VStr code ∧
    threshold_of (dict_update (frame_state c)
                    {[ "suggestions" := VList suggestions;
                       "quality_score" := VInt (quality_of code) ]})
      = Some t ∧
    dict_update (frame_state c)
      {[ "suggestions" := VList suggestions;
         "quality_score" := VInt (quality_of code) ]} !! "quality_score"
      = Some (VInt (quality_of code)) ∧
    _find_next_edge py_eval Workflows.code_review_graph "suggest"
      (dict_update (frame_state c)
         {[ "suggestions" := VList suggestions;
            "quality_score" := VInt (quality_of code) ]}) (f_heap c)
    = Leaves
        (dict_update (frame_state c)
           {[ "suggestions" := VList suggestions;
              "quality_score" := VInt (quality_of code) ]}) (f_heap c)
        (Ok (if (quality_of code <? t)%Z
             then Some {| source := "suggest"; target := "complexity";
                          condition := Some Workflows.review_guard |}
             else None)).
Proof.
  intros Hguard Hinv Hcur. pose proof Hinv as (Hcode & Ht & _).
  destruct (review_suggest_scores _ _ _ Hinv Hcur) as [Hcx Hic].
  destruct (run_suggest _ (f_heap c) _ Hcx Hic) as (suggestions & Htool).
  exists suggestions.
  destruct (review_input_kept _
              {[ "suggestions" := VList suggestions;
                 "quality_score" := VInt (quality_of code) ]}
              _ _ Hcode Ht) as [Hcode' Ht']; [done..|].
  assert (dict_update (frame_state c)
            {[ "suggestions" := VList suggestions;
               "quality_score" := VInt (quality_of code) ]}
            !! "quality_score" = Some (VInt (quality_of code))) as Hq.
  { rewrite dict_update_lookup, lookup_insert_ne by done.
    by rewrite lookup_singleton_eq. }
  repeat split; try done.
  rewrite find_next_edge_filter.
  change (candidates_of Workflows.code_review_graph "suggest")
    with [ {| source := "suggest"; target := "complexity";
              condition := Some Workflows.review_guard |} ].
  simpl. rewrite (Hguard _ _ _ _ Hq Ht'). simpl.
  by destruct (quality_of code <? t)%Z.
Qed.

Lemma review_step_suggest_loops code t c :
  guard_compares_scores py_eval →
  (quality_of code < t)%Z →
  review_inv code t c → f_current c = "suggest" →
  ∃ c', review_body c = Continue c' ∧ review_inv code t c' ∧
        f_current c' = "complexity".
Proof.
  intros Hguard Hlow Hinv Hcur.
  destruct (review_suggest_merge _ _ _ Hguard Hinv Hcur)
    as (suggestions & Htool & Hcode' & Ht' & _ & Hedge).
  assert (find_node Workflows.code_review_graph (f_current c)
          = Some {| NodeDefinition_id := "suggest";
                    tool_name := "suggest_improvements"; config := ∅ |})
    as Hnode by by rewrite Hcur.
  rewrite (loop_body_ok _ _ _ _ _ _ _ _ Hnode Htool).
  rewrite Hcur. cbv zeta. rewrite Hedge. simpl.
  rewrite (proj2 (Z.ltb_lt _ _) Hlow).
  eexists. split; [reflexivity|]. split; [|done].
  unfold review_inv. rewrite frame_state_of. simpl.
  rewrite step_dicts_state.
  split; [done|]. split; [done|]. right. by left.
Qed.

(** While the quality score is below the threshold every pass follows
    an edge. *)
Lemma review_loops code t c :
  guard_compares_scores py_eval →
  (quality_of code < t)%Z →
  review_inv code t c →
  ∃ c', review_body c = Continue c' ∧ review_inv code t c'.
Proof.
  intros Hguard Hlow Hinv. pose proof Hinv as (_ & _ & Hat).
  destruct Hat as [Hcur|[Hcur|[[Hcur _]|[Hcur _]]]].
  - destruct (review_step_extract _ _ _ Hinv Hcur) as (c' & ? & ? & _).
    by exists c'.
  - destruct (review_step_complexity _ _ _ Hinv Hcur) as (c' & ? & ? & _).
    by exists c'.
  - destruct (review_step_issues _ _ _ Hinv Hcur) as (c' & ? & ? & _).
    by exists c'.
  - destruct (review_step_suggest_loops _ _ _ Hguard Hlow Hinv Hcur)
      as (c' & ? & ? & _).
    by exists c'.
Qed.

Lemma review_start_inv gid initial_state uuid w code t :
  code_of initial_state = VStr code →
  threshold_of initial_state = Some t →
  review_inv code t
    (start_frame Workflows.code_review_graph gid initial_state uuid w).
Proof.
  intros Hcode Ht. unfold review_inv. rewrite start_frame_state.
  repeat split; try done. by left.
Qed.

(** The review loop cannot improve the score it tests.  On a state
    whose code is a string and whose threshold is a number above the
    quality score of that code, a run of the review graph never
    completes: whatever the step limit, it ends FAILED at the limit,
    with one log entry per executed tool and the abort entry. *)
Theorem review_loop_never_exits gid initial_state max_steps uuid w code t :
  guard_compares_scores py_eval →
  graphs w !! gid = Some Workflows.code_review_graph →
  code_of initial_state = VStr code →
  threshold_of initial_state = Some t →
  (quality_of code < t)%Z →
  ∃ w' rs,
    run_graph_once py_eval gid initial_state review_registry max_steps
      uuid w = (w', Ok rs) ∧
    status rs = FAILED ∧
    length (logs rs) = Z.to_nat max_steps + 1 ∧
    ∃ entry, last (logs rs) = Some entry ∧
             message entry = Some max_steps_message.
Proof.
  intros Hguard Hgraph Hcode Ht Hlow.
  destruct (reach_invariant py_eval (review_inv code t)
              Workflows.code_review_graph review_registry
              (λ c Hc, review_loops code t c Hguard Hlow Hc)
              (Z.to_nat max_steps) _
              (review_start_inv gid initial_state uuid w code t
                 Hcode Ht)) as (cn & Hreach & _).
  rewrite (run_graph_once_found _ _ _ _ _ _ _ _ Hgraph).
  rewrite (loop_exhausted _ _ _ _ _ _ Hreach), loop_else_eq.
  destruct (reach_running _ _ _ _ _ _ Hreach (start_frame_running _ _ _ _ _))
    as (_ & entries & Hlogs & Hlen & _).
  simpl in Hlogs. do 2 eexists. split; [done|]. simpl.
  rewrite Hlogs, length_app, last_snoc. simpl.
  repeat split; [lia|]. by eexists.
Qed.

(** On a state whose code is a string and whose threshold is a number
    not above the quality score of that code, a run of the review graph
    with a step limit of at least four COMPLETES after running each of
    the four tools once, with the quality score of the code in its
    final state. *)
Theorem review_completes_in_four gid initial_state max_steps uuid w code t :
  guard_compares_scores py_eval →
  graphs w !! gid = Some Workflows.code_review_graph →
  code_of initial_state = VStr code →
  threshold_of initial_state = Some t →
  (t ≤ quality_of code)%Z →
  (4 ≤ max_steps)%Z →
  ∃ w' rs,
    run_graph_once py_eval gid initial_state review_registry max_steps
      uuid w = (w', Ok rs) ∧
    status rs = COMPLETED ∧
    node_id <$> logs rs = ["extract"; "complexity"; "issues"; "suggest"] ∧
    deref (dicts w') (state rs) !! "quality_score"
      = Some (VInt (quality_of code)) ∧
    deref (dicts w') (state rs) !! "code" = initial_state !! "code".
Proof.
  intros Hguard Hgraph Hcode Ht Hhigh Hmax.
  pose proof (review_start_inv gid initial_state uuid w code t
                Hcode Ht) as Hinv0.
  destruct (review_step_extract _ _ _ Hinv0 eq_refl)
    as (c1 & Hbody0 & Hinv1 & Hcur1 & Hkept1).
  destruct (review_step_complexity _ _ _ Hinv1 Hcur1)
    as (c2 & Hbody1 & Hinv2 & Hcur2 & Hkept2).
  destruct (review_step_issues _ _ _ Hinv2 Hcur2)
    as (c3 & Hbody2 & Hinv3 & Hcur3 & Hkept3).
  assert (passes py_eval Workflows.code_review_graph review_registry 3
            (start_frame Workflows.code_review_graph gid initial_state uuid
               w) = Some c3) as Hreach.
  { simpl. by rewrite Hbody0, Hbody1, Hbody2. }
  destruct (review_suggest_merge _ _ _ Hguard Hinv3 Hcur3)
    as (suggestions & Htool & Hcode' & _ & Hq & Hedge).
  assert (find_node Workflows.code_review_graph (f_current c3)
          = Some {| NodeDefinition_id := "suggest";
                    tool_name := "suggest_improvements"; config := ∅ |})
    as Hnode by by rewrite Hcur3.
  pose proof (loop_body_ok py_eval _ _ _ _ _ _ _ Hnode Htool) as Hbody3.
  rewrite Hcur3 in Hbody3. cbv zeta in Hbody3. rewrite Hedge in Hbody3.
  simpl in Hbody3.
  rewrite (proj2 (Z.ltb_ge _ _) Hhigh) in Hbody3.
  assert (3 < Z.to_nat max_steps) as Hk by lia.
  rewrite (run_graph_once_found _ _ _ _ _ _ _ _ Hgraph).
  rewrite (loop_breaks _ _ _ _ _ _ _ _ Hreach Hk Hbody3).
  destruct (body_continue_trail _ _ _ _ _ Hbody0) as (Htrail1 & _).
  destruct (body_continue_trail _ _ _ _ _ Hbody1) as (Htrail2 & _).
  destruct (body_continue_trail _ _ _ _ _ Hbody2) as (Htrail3 & _).
  rewrite Htrail2, Htrail1, Hcur1, Hcur2, Hcur3 in Htrail3.
  unfold trail in Htrail3. rewrite Hcur3 in Htrail3. simpl in Htrail3.
  change ["extract"; "complexity"; "issues"; "suggest"]
    with (["extract"; "complexity"; "issues"] ++ ["suggest"]) in Htrail3.
  apply app_inj_tail in Htrail3 as [Hids _].
  do 2 eexists. split; [done|]. simpl.
  rewrite fmap_app, Hids, step_dicts_state. repeat split; [done|].
  rewrite dict_update_lookup.
  rewrite lookup_insert_ne, lookup_singleton_ne by done.
  by rewrite Hkept3, Hkept2, Hkept1, start_frame_state.
Qed.

End ReviewRun.

(** ** Startup *)

(** Startup stores the review graph under its id and registers the four
    default tools, each under its name, replacing what was there under
    these names and leaving every other graph, tool, run and mapping
    object alone; running it a second time changes nothing. *)
Theorem startup_is_idempotent (re_findall : string → string → list string)
    app :
  graphs (Main.world (Main.on_startup re_findall app))
    !! "code_review_graph" = Some Workflows.code_review_graph
  ∧ (∀ other, other ≠ "code_review_graph" →
       graphs (Main.world (Main.on_startup re_findall app)) !! other
         = graphs (Main.world app) !! other)
  ∧ runs (Main.world (Main.on_startup re_findall app))
      = runs (Main.world app)
  ∧ dicts (Main.world (Main.on_startup re_findall app))
      = dicts (Main.world app)
  ∧ ToolRegistry.get (Main.tool_registry (Main.on_startup re_findall app))
      "extract_functions" = Ok (Workflows.tool_extract_functions re_findall)
  ∧ ToolRegistry.get (Main.tool_registry (Main.on_startup re_findall app))
      "check_complexity" = Ok Workflows.tool_check_complexity
  ∧ ToolRegistry.get (Main.tool_registry (Main.on_startup re_findall app))
      "detect_basic_issues" = Ok Workflows.tool_detect_basic_issues
  ∧ ToolRegistry.get (Main.tool_registry (Main.on_startup re_findall app))
      "suggest_improvements" = Ok Workflows.tool_suggest_improvements
  ∧ (∀ name, name ∉ default_tool_names →
       Main.tool_registry (Main.on_startup re_findall app) !! name
         = Main.tool_registry app !! name)
  ∧ Main.on_startup re_findall (Main.on_startup re_findall app)
      = Main.on_startup re_findall app.
Proof.
  unfold Main.on_startup, Workflows.create_example_code_review_graph,
    Workflows.register_default_tools, ToolRegistry.register,
    ToolRegistry.get, default_tool_names.
  simpl. repeat split.
  - by rewrite lookup_insert_eq.
  - intros other Hother. by rewrite lookup_insert_ne.
  - rewrite !lookup_insert_ne by done. by rewrite lookup_insert_eq.
  - rewrite !lookup_insert_ne by done. by rewrite lookup_insert_eq.
  - rewrite !lookup_insert_ne by done. by rewrite lookup_insert_eq.
  - by rewrite lookup_insert_eq.
  - intros name Hname.
    rewrite !not_elem_of_cons in Hname.
    destruct Hname as (H1 & H2 & H3 & H4 & _).
    by rewrite !lookup_insert_ne.
  - f_equal.
    + apply map_eq. intros name.
      destruct (decide (name = "suggest_improvements")) as [->|H4];
        [by rewrite !lookup_insert_eq|].
      rewrite !(lookup_insert_ne _ "suggest_improvements") by done.
      destruct (decide (name = "detect_basic_issues")) as [->|H3];
        [by rewrite !lookup_insert_eq|].
      rewrite !(lookup_insert_ne _ "detect_basic_issues") by done.
      destruct (decide (name = "check_complexity")) as [->|H2];
        [by rewrite !lookup_insert_eq|].
      rewrite !(lookup_insert_ne _ "check_complexity") by done.
      destruct (decide (name = "extract_functions")) as [->|H1];
        [by rewrite !lookup_insert_eq|].
      rewrite !(lookup_insert_ne _ "extract_functions") by done.
      by rewrite !lookup_insert_ne by done.
    + unfold Main.set_graphs. simpl. by rewrite insert_insert_eq.
Qed.

(** ** The sample runs *)

Lemma review_eval_compares : guard_compares_scores review_eval.
Proof.
  intros st h q t Hq Ht. unfold review_eval.
  rewrite String.eqb_refl, Hq, Ht. done.
Qed.

Lemma review_eval_reads :
  guards_read_only review_eval (edges Workflows.code_review_graph).
Proof.
  intros e cond _ _ st h. unfold review_eval.
  destruct (String.eqb cond Workflows.review_guard); [|done].
  by destruct (as_int (default (VInt 0) (st !! "quality_score"))),
              (threshold_of st).
Qed.

Lemma keeping_registry_keeps : tools_keep_keys keeping_registry.
Proof.
  intros name func Hfunc st h key Hkey.
  unfold keeping_registry, ToolRegistry.register in Hfunc.
  apply lookup_insert_Some in Hfunc as [[_ <-]|[_ Hfunc]].
  { unfold tool_increment. by destruct (as_int _). }
  apply lookup_insert_Some in Hfunc as [[_ <-]|[_ Hfunc]]; [done|].
  apply lookup_insert_Some in Hfunc as [[_ <-]|[_ Hfunc]]; [done|].
  by apply lookup_empty_Some in Hfunc.
Qed.

Lemma linear_graph_unguarded e cond :
  e ∈ edges linear_graph → condition e = Some cond → False.
Proof.
  intros He Hcond.
  repeat (apply elem_of_cons in He as [->|He]; [discriminate Hcond|]).
  by apply elem_of_nil in He.
Qed.

Lemma unguarded_edge_shadows_later_witness :
  _find_next_edge example_eval default_first_graph "A"
    {[ "counter" := VInt 1 ]} ∅
  = _find_next_edge example_eval
      (with_edges default_first_graph ([] ++ [edge "A" "B" None])) "A"
      {[ "counter" := VInt 1 ]} ∅
  ∧ ((∃ next,
        outcome (_find_next_edge example_eval default_first_graph "A"
                   {[ "counter" := VInt 1 ]} ∅) = Ok (Some next))
     ∨ (∃ exc,
          outcome (_find_next_edge example_eval default_first_graph "A"
                     {[ "counter" := VInt 1 ]} ∅) = Raise exc ∧
          is_Exception exc = false)).
Proof.
  apply (unguarded_edge_shadows_later example_eval default_first_graph []
           (edge "A" "B" None)
           [edge "A" "C" (Some "state['counter'] >= 0")]
           {[ "counter" := VInt 1 ]} ∅).
  - reflexivity.
  - reflexivity.
Defined.

Lemma returned_run_is_stored_witness :
  run_id linear_run = "run-1" ∧
  graph_id linear_run = "linear" ∧
  runs linear_result.1 !! "run-1" = Some linear_run ∧
  (status linear_run = COMPLETED ∨ status linear_run = FAILED).
Proof.
  apply (returned_run_is_stored example_eval "linear" ∅ example_registry 100
           "run-1" example_world linear_result.1 linear_run).
  vm_compute. reflexivity.
Defined.

Lemma no_steps_aborts_at_once_witness :
  ∃ rs snapshot,
    run_graph_once example_eval "linear" ∅ example_registry (-3) "run-1"
      example_world
      = ({| graphs := graphs example_world;
            runs := <["run-1" := rs]> (runs example_world);
            dicts :=
              <[snapshot := ∅]> (<[state rs := ∅]> (dicts example_world));
            heap := heap example_world |}, Ok rs) ∧
    rs = {| run_id := "run-1"; graph_id := "linear"; status := FAILED;
            current_node_id := Some (start_node_id linear_graph);
            state := state rs;
            logs := [abort_entry (start_node_id linear_graph) snapshot] |} ∧
    (state rs ∉ dom (dicts example_world)) ∧
    (snapshot ∉ dom (dicts example_world)) ∧
    snapshot ≠ state rs.
Proof.
  apply (no_steps_aborts_at_once example_eval "linear" ∅ example_registry
           (-3) "run-1" example_world linear_graph).
  - reflexivity.
  - lia.
Defined.

Lemma returned_log_shape_witness :
  ∃ executed rest,
    logs linear_run = executed ++ rest ∧
    Forall (executed_by linear_graph) executed ∧
    (length executed ≤ Z.to_nat 100)%nat ∧
    ((status linear_run = COMPLETED ∧ rest = [] ∧ executed ≠ [])
     ∨ (status linear_run = FAILED ∧
        ∃ entry, rest = [entry] ∧ is_failure_entry entry)).
Proof.
  apply (returned_log_shape example_eval "linear" ∅ example_registry 100
           "run-1" example_world linear_graph linear_result.1 linear_run).
  - reflexivity.
  - vm_compute. reflexivity.
Defined.

Lemma returned_log_is_walk_witness :
  ∃ rest,
    node_id <$> logs linear_run = start_node_id linear_graph :: rest ∧
    linked linear_graph (start_node_id linear_graph :: rest).
Proof.
  apply (returned_log_is_walk example_eval "linear" ∅ example_registry 100
           "run-1" example_world linear_graph linear_result.1 linear_run).
  - reflexivity.
  - vm_compute. reflexivity.
Defined.

Lemma last_snapshot_is_final_state_witness :
  ∃ entry,
    last (logs linear_run) = Some entry ∧
    (status linear_run = FAILED →
     deref (dicts linear_result.1) (state_snapshot entry)
       = deref (dicts linear_result.1) (state linear_run)) ∧
    (status linear_run = COMPLETED →
     guards_read_only example_eval
       (candidates_of linear_graph (node_id entry)) →
     deref (dicts linear_result.1) (state_snapshot entry)
       = deref (dicts linear_result.1) (state linear_run)).
Proof.
  apply (last_snapshot_is_final_state example_eval "linear" ∅
           example_registry 100 "run-1" example_world linear_graph
           linear_result.1 linear_run).
  - reflexivity.
  - vm_compute. reflexivity.
Defined.

Lemma completed_run_has_no_eligible_edge_witness :
  ∃ entry h,
    last (logs linear_run) = Some entry ∧
    passed_over example_eval (candidates_of linear_graph (node_id entry))
      (deref (dicts linear_result.1) (state_snapshot entry)) h
      (deref (dicts linear_result.1) (state linear_run))
      (heap linear_result.1) ∧
    (∀ e, e ∈ edges linear_graph → source e = node_id entry →
          is_Some (condition e)) ∧
    (guards_read_only example_eval
       (candidates_of linear_graph (node_id entry)) →
     ∀ e, e ∈ edges linear_graph → source e = node_id entry →
          ¬ edge_eligible example_eval
              (deref (dicts linear_result.1) (state linear_run))
              (heap linear_result.1) e).
Proof.
  apply (completed_run_has_no_eligible_edge example_eval "linear" ∅
           example_registry 100 "run-1" example_world linear_graph
           linear_result.1 linear_run).
  - reflexivity.
  - vm_compute. reflexivity.
  - reflexivity.
Defined.

Lemma stuck_node_completes_run_witness :
  ∃ w' rs snapshot,
    run_graph_once example_eval "linear" ∅ example_registry 100 "run-1"
      example_world = (w', Ok rs) ∧
    status rs = COMPLETED ∧
    current_node_id rs = None ∧
    deref (dicts w') (state rs) = {[ "x" := VInt 1 ]} ∧
    logs rs =
      logs (f_run_state frame_at_C)
        ++ [executed_entry (node "C" "noop") snapshot] ∧
    deref (dicts w') snapshot = dict_update {[ "x" := VInt 1 ]} ∅ ∧
    length (logs rs) = 2 + 1 ∧
    heap w' = ∅.
Proof.
  apply (stuck_node_completes_run example_eval "linear" ∅ example_registry
           100 "run-1" example_world linear_graph 2 frame_at_C
           (node "C" "noop") {[ "x" := VInt 1 ]} ∅ ∅ {[ "x" := VInt 1 ]} ∅).
  - reflexivity.
  - vm_compute. reflexivity.
  - vm_compute. lia.
  - reflexivity.
  - vm_compute. reflexivity.
  - vm_compute. apply passed_over_nil.
Defined.

Lemma initial_keys_persist_witness :
  ∃ rs,
    runs
      (run_graph_once example_eval "linear" {[ "y" := VInt 2 ]}
         keeping_registry 100 "run-1" example_world).1 !! "run-1"
      = Some rs ∧
    ∀ key,
      is_Some (({[ "y" := VInt 2 ]} : Dict) !! key) →
      is_Some
        (deref
           (dicts
              (run_graph_once example_eval "linear" {[ "y" := VInt 2 ]}
                 keeping_registry 100 "run-1" example_world).1)
           (state rs) !! key) ∧
      ∀ entry,
        entry ∈ logs rs →
        is_Some
          (deref
             (dicts
                (run_graph_once example_eval "linear" {[ "y" := VInt 2 ]}
                   keeping_registry 100 "run-1" example_world).1)
             (state_snapshot entry) !! key).
Proof.
  apply (initial_keys_persist example_eval "linear" {[ "y" := VInt 2 ]}
           keeping_registry 100 "run-1" example_world linear_graph).
  - exact keeping_registry_keeps.
  - intros e cond He Hcond. destruct (linear_graph_unguarded e cond He Hcond).
  - reflexivity.
Defined.

Lemma crashed_run_reports_running_witness :
  ∃ response,
    Main.get_graph_state "run-1"
      (Main.run_graph example_eval run_raising "run-1" example_app).1
      = Main.Respond response ∧
    Main.state_status response = "running" ∧
    Forall is_executed_entry (Main.state_logs response).
Proof.
  apply (crashed_run_reports_running example_eval run_raising "run-1"
           example_app
           (Main.run_graph example_eval run_raising "run-1" example_app).1
           (OtherError "RuntimeError")).
  vm_compute. reflexivity.
Defined.

Lemma run_then_get_state_witness :
  ∃ current,
    Main.get_graph_state (Main.response_run_id linear_response)
      (Main.run_graph example_eval run_linear "run-1" example_app).1
    = Main.Respond
        {| Main.state_run_id := Main.response_run_id linear_response;
           Main.state_status := Main.response_status linear_response;
           Main.state_current_node_id := current;
           Main.state_state := Main.final_state linear_response;
           Main.state_logs := Main.response_logs linear_response |}.
Proof.
  apply (run_then_get_state example_eval run_linear "run-1" example_app
           (Main.run_graph example_eval run_linear "run-1" example_app).1
           linear_response).
  vm_compute. reflexivity.
Defined.

Lemma undeclared_start_node_fails_witness :
  (Main.run_graph example_eval
     {| Main.request_graph_id := "graph-1";
        Main.request_initial_state := {[ "y" := VInt 2 ]} |} "run-1"
     (Main.create_graph create_headless "graph-1" example_app).1).2
  = Main.Respond
      {| Main.response_run_id := "run-1";
         Main.final_state := {[ "y" := VInt 2 ]};
         Main.response_logs :=
           [missing_entry (Main.create_start_node_id create_headless)
              {[ "y" := VInt 2 ]}];
         Main.response_status := "failed" |}.
Proof.
  apply (undeclared_start_node_fails example_eval create_headless
           "graph-1" example_app {[ "y" := VInt 2 ]} "run-1").
  intros n Hn. apply list_elem_of_singleton in Hn as ->. discriminate.
Defined.

Lemma default_tools_leave_input_witness :
  heap
    (run_graph_once review_eval "code_review_graph" review_state
       (Workflows.register_default_tools sample_findall ∅) 10
       "run-1" review_world).1 = heap review_world
  ∧ ∃ rs,
      runs
        (run_graph_once review_eval "code_review_graph" review_state
           (Workflows.register_default_tools sample_findall ∅) 10
           "run-1" review_world).1 !! "run-1" = Some rs ∧
      ∀ key,
        key ∉ written_keys →
        deref
          (dicts
             (run_graph_once review_eval "code_review_graph" review_state
                (Workflows.register_default_tools sample_findall ∅) 10
                "run-1" review_world).1)
          (state rs) !! key = review_state !! key.
Proof.
  apply (default_tools_leave_input review_eval sample_findall ∅
           "code_review_graph" review_state 10 "run-1" review_world
           Workflows.code_review_graph).
  - reflexivity.
  - repeat constructor.
  - exact review_eval_reads.
Defined.

Lemma review_loop_never_exits_witness :
  ∃ w' rs,
    run_graph_once review_eval "code_review_graph" review_state
      (Workflows.register_default_tools sample_findall ∅) 10
      "run-1" review_world = (w', Ok rs) ∧
    status rs = FAILED ∧
    length (logs rs) = Z.to_nat 10 + 1 ∧
    ∃ entry, last (logs rs) = Some entry ∧
             message entry = Some max_steps_message.
Proof.
  apply (review_loop_never_exits review_eval sample_findall ∅
           "code_review_graph" review_state 10 "run-1" review_world
           sample_code 80).
  - exact review_eval_compares.
  - reflexivity.
  - reflexivity.
  - reflexivity.
  - reflexivity.
Defined.

Lemma review_completes_in_four_witness :
  ∃ w' rs,
    run_graph_once review_eval "code_review_graph" lenient_review_state
      (Workflows.register_default_tools sample_findall ∅) 10
      "run-1" review_world = (w', Ok rs) ∧
    status rs = COMPLETED ∧
    node_id <$> logs rs = ["extract"; "complexity"; "issues"; "suggest"] ∧
    deref (dicts w') (state rs) !! "quality_score"
      = Some (VInt (quality_of sample_code)) ∧
    deref (dicts w') (state rs) !! "code" = lenient_review_state !! "code".
Proof.
  apply (review_completes_in_four review_eval sample_findall ∅
           "code_review_graph" lenient_review_state 10 "run-1"
           review_world sample_code 50).
  - exact review_eval_compares.
  - reflexivity.
  - reflexivity.
  - reflexivity.
  - vm_compute. discriminate.
  - lia.
Defined.

(** The sample scores 75: under the default threshold a run of ten
    steps logs eleven entries; under a threshold of 50 it completes. *)
Example sample_quality : quality_of sample_code = 75%Z.
Proof. reflexivity. Qed.

